(** * link-dl: link extraction, filename sanitising and unique-name allocation

    A shallow embedding of [main.go].  Go strings are byte strings and are
    modelled by [string] (one [ascii] per byte); Go's [int] is a 64-bit
    two's-complement integer, modelled by [Z] with the wrap-around written
    out; [map[string]int] is a [gmap string Z] and [map[string]bool] used as
    a set is a [gset string]. *)

From Stdlib Require Import ZArith Ascii.
From stdpp Require Import base tactics option list strings gmap pretty sorting.

Local Open Scope Z_scope.

(** ** Go's [int] *)

Module GoInt.
Definition min_int : Z := - 2 ^ 63.
Definition max_int : Z := 2 ^ 63 - 1.

(** Two's-complement wrap-around of a mathematical integer to [int]. *)
Definition wrap (z : Z) : Z := (z + 2 ^ 63) `mod` 2 ^ 64 - 2 ^ 63.

Definition add (a b : Z) : Z := wrap (a + b).

Definition in_range (z : Z) : Prop := min_int ≤ z ≤ max_int.
End GoInt.

(** ** Byte-string helpers ([strings], [path/filepath]) *)

Module Str.
Definition byte_eqb (a b : ascii) : bool := Ascii.eqb a b.

Definition len (s : string) : nat := String.length s.

(** [s[:n]] for [n <= len s]. *)
Fixpoint take (n : nat) (s : string) : string :=
  match n, s with
  | S n', String c r => String c (take n' r)
  | _, _ => ""
  end.

(** [s[n:]] for [n <= len s]. *)
Fixpoint drop (n : nat) (s : string) : string :=
  match n, s with
  | S n', String _ r => drop n' r
  | _, _ => s
  end.

(** [strings.HasPrefix]. *)
Fixpoint HasPrefix (s p : string) : bool :=
  match p, s with
  | "", _ => true
  | String a p', String b s' => byte_eqb a b && HasPrefix s' p'
  | String _ _, "" => false
  end.

(** [strings.HasSuffix]:
    [len(s) >= len(suffix) && s[len(s)-len(suffix):] == suffix]. *)
Definition HasSuffix (s suffix : string) : bool :=
  (len suffix <=? len s)%nat && String.eqb (drop (len s - len suffix) s) suffix.

(** [strings.TrimSuffix]. *)
Definition TrimSuffix (s suffix : string) : string :=
  if HasSuffix s suffix then take (len s - len suffix) s else s.

(** [strings.TrimPrefix]. *)
Definition TrimPrefix (s p : string) : string :=
  if HasPrefix s p then drop (len p) s else s.

(** The backward scan of [filepath.Ext]:
    [for i := len(path)-1; i >= 0 && !os.IsPathSeparator(path[i]); i--]
    returning [path[i:]] at the first dot met.  [scanExt s] is [Some r]
    when the scan stops inside [s] (with result [r]), and [None] when it
    runs through all of [s]. *)
Fixpoint scanExt (s : string) : option string :=
  match s with
  | "" => None
  | String c r =>
      match scanExt r with
      | Some e => Some e
      | None =>
          if byte_eqb c "." then Some (String c r)
          else if byte_eqb c "/" then Some ""
          else None
      end
  end.

(** [filepath.Ext] (Unix path separator). *)
Definition Ext (path : string) : string := default "" (scanExt path).

(** The backward scan of [filepath.Base] for the last separator:
    the part of [s] after its last ["/"]. *)
Fixpoint afterLastSep (s : string) : option string :=
  match s with
  | "" => None
  | String c r =>
      match afterLastSep r with
      | Some e => Some e
      | None => if byte_eqb c "/" then Some r else None
      end
  end.

(** Strip trailing slashes, as [filepath.Base] does first. *)
Fixpoint stripTrailingSep (s : string) : string :=
  match s with
  | "" => ""
  | String c r =>
      match stripTrailingSep r with
      | "" => if byte_eqb c "/" then "" else String c ""
      | r' => String c r'
      end
  end.

(** [filepath.Base]. *)
Definition Base (path : string) : string :=
  if String.eqb path "" then "."
  else
    let p := stripTrailingSep path in
    let p := default p (afterLastSep p) in
    if String.eqb p "" then "/" else p.
End Str.

(** ** Unique-name allocation ([getUniqueFilename])

    The output directory exists when [downloadAll] runs ([os.MkdirAll] has
    returned without error).  It is modelled by the finite set [dir] of the
    names [n] for which a file [filepath.Join(dir, n)] is known to exist:
    the files there at the start and those created since.  A name without
    separator, other than the empty name, [.] and [..], names an entry of
    the directory, and the set decides whether it exists.  Everything else
    that [os.Stat] may answer is the file system's, and a parameter. *)

Class FileSystem := {
  (** [os.Stat(filepath.Join(dir, n))] fails with an error for which
      [os.IsNotExist] is false: the name is too long (ENAMETOOLONG), holds
      a NUL byte (EINVAL), the directory may not be searched (EACCES), a
      component of the path is a regular file (ENOTDIR), and so on.  The
      answer may depend on the files that exist. *)
  stat_fails : gset string → string → bool;
  (** For a name with a separator that is not in the set (it may spell an
      entry in another way, or lead below the directory or out of it):
      whether [os.Stat] finds a file at [filepath.Join(dir, n)]. *)
  path_exists : gset string → string → bool
}.

Module Alloc.
(** [fmt.Sprintf("%s_%d%s", nameWithoutExt, i, ext)]. *)
Definition numbered (nameWithoutExt : string) (i : Z) (ext : string) : string :=
  nameWithoutExt +:+ "_" +:+ pretty i +:+ ext.

(** What [os.Stat] answers, as [getUniqueFilename] reads it: no error, an
    error with [os.IsNotExist], or another error. *)
Inductive StatResult := StatOK | StatNotExist | StatOther.

(** The names that [filepath.Join] cleans away: [Join(dir, "")] and
    [Join(dir, ".")] are the directory itself, [Join(dir, "..")] is the
    directory above it. *)
Definition dots (n : string) : bool :=
  String.eqb n "" || String.eqb n "." || String.eqb n "..".

Fixpoint hasSeparator (n : string) : bool :=
  match n with
  | "" => false
  | String c r => Str.byte_eqb c "/" || hasSeparator r
  end.

(** [os.Stat(filepath.Join(dir, n))]. *)
Definition Stat `{FileSystem} (dir : gset string) (n : string) : StatResult :=
  if stat_fails dir n then StatOther
  else if bool_decide (n ∈ dir) then StatOK
  else if dots n then StatOK
  else if hasSeparator n then
    if path_exists dir n then StatOK else StatNotExist
  else StatNotExist.

(** [_, err := os.Stat(filepath.Join(dir, n)); os.IsNotExist(err)]. *)
Definition notExist `{FileSystem} (dir : gset string) (n : string) : bool :=
  match Stat dir n with
  | StatNotExist => true
  | _ => false
  end.

(** The loop [for i := count + 1; ; i++], run for at most [fuel] rounds. *)
Fixpoint findNext `{FileSystem} (fuel : nat) (dir : gset string)
    (nameWithoutExt ext : string) (i : Z) : option string :=
  match fuel with
  | O => None
  | S fuel' =>
      let newName := numbered nameWithoutExt i ext in
      if notExist dir newName then Some newName
      else findNext fuel' dir nameWithoutExt ext (GoInt.add i 1)
  end.

(** The same loop with the number of rounds written in binary: the name
    returned ([inl]), or the value of [i] after the rounds ([inr]). *)
Fixpoint findNextBin `{FileSystem} (rounds : positive) (dir : gset string)
    (nameWithoutExt ext : string) (i : Z) : string + Z :=
  match rounds with
  | xH =>
      let newName := numbered nameWithoutExt i ext in
      if notExist dir newName then inl newName else inr (GoInt.add i 1)
  | xO half =>
      match findNextBin half dir nameWithoutExt ext i with
      | inl r => inl r
      | inr i' => findNextBin half dir nameWithoutExt ext i'
      end
  | xI half =>
      let newName := numbered nameWithoutExt i ext in
      if notExist dir newName then inl newName
      else
        match findNextBin half dir nameWithoutExt ext (GoInt.add i 1) with
        | inl r => inl r
        | inr i' => findNextBin half dir nameWithoutExt ext i'
        end
  end.

(** [i] is an [int]: after [2^64] rounds it has its first value again, and
    the call is one step of the schedule, during which the files do not
    change; so a search that has not returned within [2^64] rounds never
    returns (see [findNext_bounded]). *)
Definition cycle : positive := (2 ^ 64)%positive.

Definition findNextCycle `{FileSystem} (dir : gset string)
    (nameWithoutExt ext : string) (i : Z) : option string :=
  match findNextBin cycle dir nameWithoutExt ext i with
  | inl r => Some r
  | inr _ => None
  end.

(** The body of [getUniqueFilename] around its loop [search]: the new
    [usedNames] and the name returned, [None] when the loop does not
    return. *)
Definition getUniqueFilename_by `{FileSystem}
    (search : string → string → Z → option string) (dir : gset string)
    (name : string) (usedNames : gmap string Z) : gmap string Z * option string :=
  let base := name in
  let ext := Str.Ext name in
  let nameWithoutExt := Str.TrimSuffix name ext in
  let count := default 0 (usedNames !! base) in
  let usedNames' := <[base := GoInt.add count 1]> usedNames in
  if (count =? 0) && notExist dir name then (usedNames', Some name)
  else (usedNames', search nameWithoutExt ext (GoInt.add count 1)).

(** [getUniqueFilename] with the loop cut off after [fuel] rounds. *)
Definition getUniqueFilename_fuel `{FileSystem} (fuel : nat) (dir : gset string)
    (name : string) (usedNames : gmap string Z) : gmap string Z * option string :=
  getUniqueFilename_by (findNext fuel dir) dir name usedNames.

(** [getUniqueFilename]: [None] when it never returns. *)
Definition getUniqueFilename `{FileSystem} (dir : gset string) (name : string)
    (usedNames : gmap string Z) : gmap string Z * option string :=
  getUniqueFilename_by (findNextCycle dir) dir name usedNames.
End Alloc.

(** ** The download phase ([downloadFile], [downloadAll]) *)

Record FileLink := { Name : string; URL : string }.

Module Download.
Import Alloc.

(** What the network and the file system answer during one call of
    [downloadFile]: the error of each fallible call ([None] is [nil]) and
    the status code of the response. *)
Record Fetch := {
  newRequestErr : option string;   (* http.NewRequest *)
  doErr : option string;           (* client.Do *)
  statusCode : Z;                  (* resp.StatusCode *)
  createErr : option string;       (* os.Create *)
  copyErr : option string          (* io.Copy *)
}.

Definition StatusOK : Z := 200.

(** [downloadFile]: the directory afterwards and the error returned.  The
    file is an entry of the directory from [os.Create] on, also when the
    copy fails. *)
Definition downloadFile (f : Fetch) (dir : gset string) (filename : string)
    : gset string * option string :=
  match newRequestErr f with
  | Some e => (dir, Some e)
  | None =>
      match doErr f with
      | Some e => (dir, Some e)
      | None =>
          if negb (statusCode f =? StatusOK)
          then (dir, Some ("HTTP " +:+ pretty (statusCode f)))
          else
            match createErr f with
            | Some e => (dir, Some e)
            | None => ({[filename]} ∪ dir, copyErr f)
            end
      end
  end.

(** [sem := make(chan struct{}, config.Parallel)]: a negative capacity is a
    run-time panic ([None]); every other capacity gives a channel. *)
Definition makeSem (parallel : Z) : option Z :=
  if parallel <? 0 then None else Some parallel.

(** The shared state of [downloadAll]: the variables guarded by [mu], the
    output directory, and the local [filename] of every goroutine that has
    passed its allocation ([assigned]); [handed] lists the names in the
    order in which [getUniqueFilename] returned them, and [finished] holds
    the goroutines that have released their semaphore slot. *)
Record State := {
  usedNames : gmap string Z;
  dir : gset string;
  assigned : gmap nat string;
  handed : list string;
  finished : gset nat;
  successCount : Z;
  failCount : Z
}.

Definition init (dir0 : gset string) : State :=
  {| usedNames := ∅; dir := dir0; assigned := ∅; handed := [];
     finished := ∅; successCount := 0; failCount := 0 |}.

(** The goroutine of link [w] takes one of its two atomic steps: it
    acquires a slot and allocates its name under [mu], or it downloads
    (with the answers [f] of the outside world), records the outcome under
    [mu] and releases the slot. *)
Inductive Event :=
| Allocate (w : nat)
| Fetched (w : nat) (f : Fetch).

(** Slots of [sem] in use. *)
Definition inflight (st : State) : Z :=
  Z.of_nat (size (assigned st)) - Z.of_nat (size (finished st)).

(** One step of the schedule; [None] when the step is not enabled or is
    never completed: a goroutine whose [getUniqueFilename] does not return
    stays in it, with [mu] held. *)
Definition step `{FileSystem} (links : list FileLink) (parallel : Z)
    (st : State) (ev : Event) : option State :=
  match ev with
  | Allocate w =>
      match links !! w, assigned st !! w with
      | Some link, None =>
          if inflight st <? parallel then
            match getUniqueFilename (dir st) (Name link) (usedNames st) with
            | (used', Some filename) =>
                Some {| usedNames := used'; dir := dir st;
                        assigned := <[w := filename]> (assigned st);
                        handed := handed st ++ [filename];
                        finished := finished st;
                        successCount := successCount st;
                        failCount := failCount st |}
            | (_, None) => None
            end
          else None
      | _, _ => None
      end
  | Fetched w f =>
      match assigned st !! w with
      | Some filename =>
          if decide (w ∈ finished st) then None
          else
            let '(dir', err) := downloadFile f (dir st) filename in
            Some {| usedNames := usedNames st; dir := dir';
                    assigned := assigned st;
                    handed := handed st;
                    finished := {[w]} ∪ finished st;
                    successCount :=
                      if err is None then GoInt.add (successCount st) 1
                      else successCount st;
                    failCount :=
                      if err is None then failCount st
                      else GoInt.add (failCount st) 1 |}
      | None => None
      end
  end.

(** [downloadAll] under the schedule [evs] of its goroutines, from the state
    [st]; [None] when the schedule is not one of its runs.  With a negative
    [parallel] the code panics before any goroutine is started ([makeSem]),
    and the empty schedule is then the only one that gives a state. *)
Fixpoint downloadAll `{FileSystem} (links : list FileLink) (parallel : Z)
    (evs : list Event) (st : State) : option State :=
  match evs with
  | [] => Some st
  | ev :: evs' =>
      match step links parallel st ev with
      | Some st' => downloadAll links parallel evs' st'
      | None => None
      end
  end.
End Download.

(** ** Filename sanitising ([sanitizeFilename]) *)

Module Sanitize.
Import Str.

Definition byte (c : ascii) : N := N_of_ascii c.

(** The character class of the pattern [invalid]: the nine characters
    listed below (034 is the double quote) and the bytes 0x00 to 0x1f.
    All its members are ASCII, so the rune-wise match of [regexp] is a
    byte-wise match on UTF-8 input. *)
Definition invalid (c : ascii) : bool :=
  (byte c <=? 31)%N
  || existsb (byte_eqb c) ["<"; ">"; ":"; "034"; "/"; "\"; "|"; "?"; "*"]%char.

(** [invalid.ReplaceAllString(name, "_")]. *)
Fixpoint replaceInvalid (s : string) : string :=
  match s with
  | "" => ""
  | String c r => String (if invalid c then "_"%char else c) (replaceInvalid r)
  end.

(** The class [[\s_]]; Go's [\s] is [[\t\n\f\r ]]. *)
Definition spaceOrUnderscore (c : ascii) : bool :=
  existsb (byte_eqb c) ["009"; "010"; "012"; "013"; " "; "_"]%char.

(** [regexp.MustCompile(`[\s_]+`).ReplaceAllString(name, "_")]: every
    maximal run of the class becomes one underscore; [inRun] tells that
    the byte before belongs to a run already replaced. *)
Fixpoint collapseRuns (inRun : bool) (s : string) : string :=
  match s with
  | "" => ""
  | String c r =>
      if spaceOrUnderscore c then
        if inRun then collapseRuns true r
        else String "_" (collapseRuns true r)
      else String c (collapseRuns false r)
  end.

(** The cutset [" ._"] of [strings.Trim]. *)
Definition inCutset (c : ascii) : bool :=
  existsb (byte_eqb c) [" "; "."; "_"]%char.

Fixpoint trimLeft (cut : ascii → bool) (s : string) : string :=
  match s with
  | "" => ""
  | String c r => if cut c then trimLeft cut r else s
  end.

Fixpoint trimRight (cut : ascii → bool) (s : string) : string :=
  match s with
  | "" => ""
  | String c r =>
      match trimRight cut r with
      | "" => if cut c then "" else String c ""
      | r' => String c r'
      end
  end.

(** [strings.Trim(name, " ._")]. *)
Definition Trim (cut : ascii → bool) (s : string) : string :=
  trimRight cut (trimLeft cut s).

(** [sanitizeFilename]; [None] is the run-time panic of the slice
    expression [name[:200-len(ext)]] when its bound is negative. *)
Definition sanitizeFilename (name : string) : option string :=
  let name := replaceInvalid name in
  let name := collapseRuns false name in
  let name := Trim inCutset name in
  let limited :=
    if (200 <? len name)%nat then
      let ext := Ext name in
      if (len ext <=? 200)%nat then Some (take (200 - len ext) name +:+ ext)
      else None
    else Some name in
  match limited with
  | Some name => Some (if String.eqb name "" then "unnamed" else name)
  | None => None
  end.

(** [strings.Repeat]. *)
Fixpoint Repeat (s : string) (count : nat) : string :=
  match count with
  | O => ""
  | S n => s +:+ Repeat s n
  end.
End Sanitize.

(** ** Library functions the extraction depends on

    [strings.ToLower] and [strings.TrimSpace] have an ASCII path, written
    out below, and fall back to the Unicode tables otherwise; the fallbacks
    are parameters. *)

Class Unicode := {
  (** [strings.Map(unicode.ToLower, s)] *)
  unicode_ToLower : string → string;
  (** [strings.TrimFunc(s, unicode.IsSpace)] *)
  unicode_TrimSpace : string → string;
  (** [strings.TrimRightFunc(s, unicode.IsSpace)] *)
  unicode_TrimRightSpace : string → string
}.

(** [net/url]: the type [*url.URL] with the field and the methods used. *)
Class NetURL := {
  URLT : Type;
  url_Parse : string → string + URLT;        (* url.Parse: error or URL *)
  URL_Parse : URLT → string → option URLT;   (* the method Parse, [None] on error *)
  URL_Path : URLT → string;                  (* the field Path *)
  URL_String : URLT → string                 (* the method String *)
}.

(** [regexp.Compile]: the error, or the [MatchString] of the pattern. *)
Class Regexp := {
  regexp_Compile : string → string + (string → bool)
}.

(** An element selected by [a[href]]: its [href] attribute and its text. *)
Record Anchor := { href : string; text : string }.

(** [net/http], [goquery] and [os] as [main] and the page fetch see them. *)
Class Web := {
  Body : Type;
  (** [http.NewRequest("GET", url, nil)]: its error, if any *)
  http_NewRequest : string → option string;
  (** [client.Do(req)] for a URL and a User-Agent: the error, or the status
      code and the body *)
  client_Do : string → string → string + (Z * Body);
  (** [goquery.NewDocumentFromReader] followed by [Find("a[href]")]: the
      error, or the anchors in document order *)
  goquery_anchors : Body → string + list Anchor;
  (** [os.MkdirAll(path, 0755)]: its error, if any *)
  os_MkdirAll : string → option string
}.

Module GoStrings.
Import Str Sanitize.

(** No byte of [s] is [utf8.RuneSelf] or above. *)
Fixpoint isASCII (s : string) : bool :=
  match s with
  | "" => true
  | String c r => (byte c <? 128)%N && isASCII r
  end.

Definition lowerByte (c : ascii) : ascii :=
  if (65 <=? byte c)%N && (byte c <=? 90)%N then ascii_of_N (byte c + 32) else c.

Fixpoint mapBytes (f : ascii → ascii) (s : string) : string :=
  match s with
  | "" => ""
  | String c r => String (f c) (mapBytes f r)
  end.

(** [strings.ToLower]. *)
Definition ToLower `{Unicode} (s : string) : string :=
  if isASCII s then mapBytes lowerByte s else unicode_ToLower s.

(** The table [asciiSpace]. *)
Definition asciiSpace (c : ascii) : bool :=
  existsb (byte_eqb c) ["009"; "010"; "011"; "012"; "013"; " "]%char.

Fixpoint lastByte (s : string) : option ascii :=
  match s with
  | "" => None
  | String c "" => Some c
  | String _ r => lastByte r
  end.

(** The second loop of [strings.TrimSpace], from the end of [s[start:]]. *)
Definition trimSpaceEnd `{Unicode} (s : string) : string :=
  let t := trimRight asciiSpace s in
  match lastByte t with
  | Some c => if (128 <=? byte c)%N then unicode_TrimRightSpace t else t
  | None => t
  end.

(** [strings.TrimSpace]: the first loop, from the start. *)
Fixpoint TrimSpace `{Unicode} (s : string) : string :=
  match s with
  | "" => ""
  | String c r =>
      if (128 <=? byte c)%N then unicode_TrimSpace s
      else if asciiSpace c then TrimSpace r
      else trimSpaceEnd s
  end.

(** [strings.Split(s, ",")] for a one-byte separator. *)
Fixpoint Split (sep : ascii) (s : string) : list string :=
  match s with
  | "" => [""]
  | String c r =>
      if byte_eqb c sep then "" :: Split sep r
      else
        match Split sep r with
        | w :: ws => String c w :: ws
        | [] => [String c ""]
        end
  end.
End GoStrings.

(** ** Configuration ([Config], [parseFlags]) *)

Record Config := {
  cfgURL : string;       (* the field URL; [URL] names the field of FileLink *)
  OutDir : string;
  Parallel : Z;
  Exts : list string;
  All : bool;
  Include : string;
  ListOnly : bool;
  UserAgent : string
}.

Module Flags.
Import Str GoStrings.

(** The loop of [parseFlags] over [strings.Split( *exts, ",")]. *)
Fixpoint extensions `{Unicode} (parts : list string) : list string :=
  match parts with
  | [] => []
  | ext :: rest =>
      let ext := TrimSpace ext in
      let ext := TrimPrefix ext "." in
      if negb (String.eqb ext "") then ("." +:+ ToLower ext) :: extensions rest
      else extensions rest
  end.

(** The value of [Config.Exts] for the flags [--all] and [--ext]. *)
Definition parseExts `{Unicode} (all : bool) (exts : string) : list string :=
  if negb all && negb (String.eqb exts "") then extensions (Split "," exts)
  else [].

Definition defaultExts : string := "pdf,xlsx,xls,xlsm".
End Flags.

(** ** Link extraction ([extractLinks]) *)

Module Extract.
Import Str GoStrings Sanitize.

(** The alternatives of [fileExtPattern]. *)
Definition knownExts : list string :=
  [ "pdf"; "doc"; "docx"; "xls"; "xlsx"; "xlsm"; "ppt"; "pptx"; "csv"; "txt";
    "zip"; "rar"; "7z"; "tar"; "gz"; "jpg"; "jpeg"; "png"; "gif"; "svg";
    "mp3"; "mp4"; "wav"; "avi"; "mov" ].

Definition isLowerLetter (c : ascii) : bool :=
  (97 <=? byte c)%N && (byte c <=? 122)%N.

(** The UTF-8 encodings of the runes that the flag [(?i)] lets a pattern
    rune match: the rune, its upper-case form, and for [s] and [k] the
    third member of the Unicode simple-folding orbit (U+017F, U+212A). *)
Definition foldOrbit (c : ascii) : list string :=
  if isLowerLetter c then
    [String c ""; String (ascii_of_N (byte c - 32)) ""]
    ++ (if byte_eqb c "s" then [String "197" (String "191" "")]
        else if byte_eqb c "k"
             then [String "226" (String "132" (String "170" ""))]
             else [])
  else [String c ""].

(** Every byte string the case-insensitive literal [pat] matches. *)
Fixpoint foldVariants (pat : string) : list string :=
  match pat with
  | "" => [""]
  | String c r =>
      flat_map (λ o, map (λ v, o +:+ v) (foldVariants r)) (foldOrbit c)
  end.

(** [fileExtPattern.MatchString]: the pattern is a dot and one of the
    alternatives, case-insensitive, anchored at the end of the text. *)
Definition fileExtPattern_MatchString (path : string) : bool :=
  existsb (λ alt, existsb (HasSuffix path) (foldVariants ("." +:+ alt)))
    knownExts.

(** The block [// Check extension] of the closure, for the path of the
    link: [false] when the closure returns there. *)
Definition checkExtension `{Unicode} (config : Config) (path : string) : bool :=
  let ext := ToLower (Ext path) in
  if All config then
    (* In --all mode, match common file extensions *)
    fileExtPattern_MatchString path
  else
    (* Check against specified extensions *)
    existsb (String.eqb ext) (Exts config).

Section Each.
Context `{Unicode} `{NetURL}.

Variable config : Config.
(** The compiled include pattern, [None] for [nil]. *)
Variable includePattern : option (string → bool).
Variable baseURL : URLT.

(** The closure passed to [Each], on the variables [links] and [seen] it
    captures; [None] when [sanitizeFilename] panics. *)
Definition visit (st : list FileLink * gset string) (s : Anchor)
    : option (list FileLink * gset string) :=
  let '(links, seen) := st in
  if String.eqb (href s) "" || HasPrefix (href s) "#"
     || HasPrefix (href s) "javascript:" then Some st
  else
    match URL_Parse baseURL (href s) with
    | None => Some st
    | Some linkURL =>
        let fullURL := URL_String linkURL in
        if decide (fullURL ∈ seen) then Some st
        else
          let ext := ToLower (Ext (URL_Path linkURL)) in
          if negb (checkExtension config (URL_Path linkURL))
          then Some st
          else if match includePattern with
                  | Some re => negb (re fullURL)
                  | None => false
                  end
          then Some st
          else
            let seen := {[fullURL]} ∪ seen in
            let name := TrimSpace (text s) in
            let name :=
              if String.eqb name "" then Base (URL_Path linkURL) else name in
            match sanitizeFilename name with
            | None => None
            | Some name =>
                let name :=
                  if negb (HasSuffix (ToLower name) ext)
                     && negb (String.eqb ext "")
                  then name +:+ ext else name in
                Some (links ++ [{| Name := name; URL := fullURL |}], seen)
            end
    end.

(** [doc.Find("a[href]").Each(...)] over the anchors in document order. *)
Fixpoint each (anchors : list Anchor) (st : list FileLink * gset string)
    : option (list FileLink * gset string) :=
  match anchors with
  | [] => Some st
  | s :: rest =>
      match visit st s with
      | Some st' => each rest st'
      | None => None
      end
  end.

(** The candidate list built from the anchors of a document. *)
Definition collectLinks (anchors : list Anchor) : option (list FileLink) :=
  fst <$> each anchors ([], ∅).
End Each.

(** What the program does to the outside world. *)
Inductive IOEvent :=
| HttpGet (url userAgent : string)
| Stdout (s : string)
| Stderr (s : string)
| Usage
| MkdirAll (path : string)
| DownloadAll (links : list FileLink).

(** How a call ends: it returns, or the goroutine panics. *)
Inductive Outcome (A : Type) :=
| Returned (a : A)
| Panicked.
Global Arguments Returned {A} a.
Global Arguments Panicked {A}.

(** [extractLinks]: the events issued, and the error ([inl]) or the links
    ([inr]) returned. *)
Definition extractLinks `{Unicode} `{NetURL} `{Regexp} `{Web} (config : Config)
    : list IOEvent * Outcome (string + list FileLink) :=
  match http_NewRequest (cfgURL config) with
  | Some err => ([], Returned (inl err))
  | None =>
      let tr := [HttpGet (cfgURL config) (UserAgent config)] in
      match client_Do (cfgURL config) (UserAgent config) with
      | inl err => (tr, Returned (inl err))
      | inr (status, body) =>
          if negb (status =? 200)
          then (tr, Returned (inl ("HTTP " +:+ pretty status)))
          else
            match goquery_anchors body with
            | inl err => (tr, Returned (inl err))
            | inr anchors =>
                match url_Parse (cfgURL config) with
                | inl err => (tr, Returned (inl err))
                | inr baseURL =>
                    let compiled :=
                      if negb (String.eqb (Include config) "") then
                        match regexp_Compile (Include config) with
                        | inl err => inl ("invalid include pattern: " +:+ err)
                        | inr re => inr (Some re)
                        end
                      else inr None in
                    match compiled with
                    | inl err => (tr, Returned (inl err))
                    | inr includePattern =>
                        match collectLinks config includePattern baseURL anchors with
                        | Some links => (tr, Returned (inr links))
                        | None => (tr, Panicked)
                        end
                    end
                end
            end
      end
  end.
End Extract.

(** ** The program ([main]) *)

Module Main.
Import Str Extract.

Definition nl : string := String "010" "".

(** The verb [%3d]: decimal, padded with spaces on the left to width 3. *)
Definition pad3 (i : Z) : string :=
  let d := pretty i in
  Sanitize.Repeat " " (3 - len d) +:+ d.

(** The listing loop [for i, link := range links]. *)
Fixpoint listing (i : Z) (links : list FileLink) : list IOEvent :=
  match links with
  | [] => []
  | link :: rest =>
      Stdout ("  " +:+ pad3 (GoInt.add i 1) +:+ ". " +:+ Name link +:+ nl
              +:+ "       " +:+ URL link +:+ nl)
      :: listing (GoInt.add i 1) rest
  end.

(** How [main] ends: the process exits with a status (0 on return from
    [main], 1 from [os.Exit(1)], 2 after a run-time panic), or [main] is in
    its last statement, the call of [downloadAll], whose goroutines have
    been started: the process then goes on as the runs of [Download] say,
    and exits with status 0 when all of them have finished, which need not
    happen. *)
Inductive Ending :=
| Exits (status : Z)
| Downloading.

(** [main] after [parseFlags]: the events issued and the ending.  The event
    [DownloadAll] stands for the start of the goroutines of [downloadAll];
    the panic of its first statement, [make(chan struct{}, config.Parallel)],
    comes before it. *)
Definition main `{Unicode} `{NetURL} `{Regexp} `{Web} (config : Config)
    : list IOEvent * Ending :=
  if String.eqb (cfgURL config) "" then ([Usage], Exits 1)
  else
    match extractLinks config with
    | (tr, Panicked) => (tr, Exits 2)
    | (tr, Returned (inl err)) =>
        (tr ++ [Stderr ("Error extracting links: " +:+ err +:+ nl)], Exits 1)
    | (tr, Returned (inr links)) =>
        if (length links =? 0)%nat
        then (tr ++ [Stdout ("No matching files found." +:+ nl)], Exits 0)
        else
          let tr :=
            tr ++ [Stdout ("Found " +:+ pretty (Z.of_nat (length links))
                           +:+ " files:" +:+ nl +:+ nl)]
               ++ listing 0 links ++ [Stdout nl] in
          if ListOnly config then (tr, Exits 0)
          else
            match os_MkdirAll (OutDir config) with
            | Some err =>
                (tr ++ [MkdirAll (OutDir config);
                        Stderr ("Error creating directory: " +:+ err +:+ nl)],
                 Exits 1)
            | None =>
                match Download.makeSem (Parallel config) with
                | None => (tr ++ [MkdirAll (OutDir config)], Exits 2)
                | Some _ =>
                    (tr ++ [MkdirAll (OutDir config); DownloadAll links],
                     Downloading)
                end
            end
    end.
End Main.

(** ** Definitions used in the statements *)

(** The name handed out by call number [k] (from 0) for [name]. *)
Definition kth_name (name : string) (k : nat) : string :=
  match k with
  | O => name
  | S _ => Alloc.numbered (Str.TrimSuffix name (Str.Ext name))
             (Z.of_nat (S k)) (Str.Ext name)
  end.

(** The invariant of a run in which every link has the desired name [name]:
    the calls so far returned [kth_name name 0], [kth_name name 1], ..., the
    counter of [name] is their number, and the directory holds only names
    that were handed out. *)
Record inv (name : string) (links : list FileLink) (st : Download.State) : Prop := {
  inv_handed :
    Download.handed st = kth_name name <$> seq 0 (length (Download.handed st));
  inv_count :
    default 0 (Download.usedNames st !! name)
    = Z.of_nat (length (Download.handed st));
  inv_dir : ∀ x, x ∈ Download.dir st → x ∈ Download.handed st;
  inv_assigned :
    ∀ w f, Download.assigned st !! w = Some f → f ∈ Download.handed st;
  inv_workers :
    ∀ w, is_Some (Download.assigned st !! w) → (w < length links)%nat;
  inv_size : length (Download.handed st) = size (Download.assigned st)
}.

(** Three links with one desired name. *)
Definition report_links : list FileLink :=
  [ {| Name := "Report.pdf"; URL := "http://h/1.pdf" |};
    {| Name := "Report.pdf"; URL := "http://h/2.pdf" |};
    {| Name := "Report.pdf"; URL := "http://h/3.pdf" |} ].

(** A response [200 OK] stored without any error. *)
Definition fetch_ok : Download.Fetch :=
  {| Download.newRequestErr := None; Download.doErr := None;
     Download.statusCode := 200; Download.createErr := None;
     Download.copyErr := None |}.

(** A schedule in which the second download ends before the third
    allocation. *)
Definition report_schedule : list Download.Event :=
  [ Download.Allocate 0; Download.Allocate 1; Download.Fetched 1 fetch_ok;
    Download.Allocate 2; Download.Fetched 0 fetch_ok ].

(** Three links, the third with the desired name that the numbered search
    makes for the second. *)
Definition clash_links : list FileLink :=
  [ {| Name := "a.pdf"; URL := "http://example.com/1.pdf" |};
    {| Name := "a.pdf"; URL := "http://example.com/2.pdf" |};
    {| Name := "a_2.pdf"; URL := "http://example.com/3.pdf" |} ].

(** A schedule in which the three goroutines allocate before any download
    has answered. *)
Definition clash_schedule : list Download.Event :=
  [ Download.Allocate 0; Download.Allocate 1; Download.Allocate 2;
    Download.Fetched 0 fetch_ok; Download.Fetched 1 fetch_ok;
    Download.Fetched 2 fetch_ok ].

(** ** Occurrences of a URL among the anchors *)

Section Occurrences.
Context `{Unicode} `{NetURL}.
Import Str GoStrings Sanitize Extract.

Variable config : Config.
Variable includePattern : option (string → bool).
Variable baseURL : URLT.

(** The URL an anchor resolves to, when the closure resolves it. *)
Definition resolved (s : Anchor) : option URLT :=
  if String.eqb (href s) "" || HasPrefix (href s) "#"
     || HasPrefix (href s) "javascript:" then None
  else URL_Parse baseURL (href s).

(** The extension check and the include pattern on a resolved URL. *)
Definition accepted (u : URLT) : bool :=
  checkExtension config (URL_Path u)
  && match includePattern with
     | Some re => re (URL_String u)
     | None => true
     end.

(** The name the closure derives for an anchor and its URL, [None] when
    [sanitizeFilename] panics. *)
Definition derivedName (s : Anchor) (u : URLT) : option string :=
  let ext := ToLower (Ext (URL_Path u)) in
  let name := TrimSpace (text s) in
  let name := if String.eqb name "" then Base (URL_Path u) else name in
  match sanitizeFilename name with
  | None => None
  | Some name =>
      Some (if negb (HasSuffix (ToLower name) ext) && negb (String.eqb ext "")
            then name +:+ ext else name)
  end.

(** No anchor before position [i] passes the filters with the resolved URL
    [url]. *)
Definition first_accepted (anchors : list Anchor) (i : nat) (url : string) : Prop :=
  ∀ j t v, (j < i)%nat → anchors !! j = Some t → resolved t = Some v →
           accepted v = true → URL_String v ≠ url.

(** No anchor before position [i] resolves to [url]. *)
Definition first_resolved (anchors : list Anchor) (i : nat) (url : string) : Prop :=
  ∀ j t v, (j < i)%nat → anchors !! j = Some t → resolved t = Some v →
           URL_String v ≠ url.

(** The link [fl] is made from an anchor that passes the filters and is the
    first such anchor for its resolved URL. *)
Definition kept (anchors : list Anchor) (fl : FileLink) : Prop :=
  ∃ i s u, anchors !! i = Some s ∧ resolved s = Some u ∧ accepted u = true
           ∧ first_accepted anchors i (URL_String u)
           ∧ derivedName s u = Some (Name fl) ∧ URL fl = URL_String u.

(** The same with the first anchor, accepted or not, that resolves to the
    URL. *)
Definition kept_first (anchors : list Anchor) (fl : FileLink) : Prop :=
  ∃ i s u, anchors !! i = Some s ∧ resolved s = Some u
           ∧ first_resolved anchors i (URL_String u)
           ∧ derivedName s u = Some (Name fl) ∧ URL fl = URL_String u.

(** The state of the loop of [each] after the anchors [pre]: [seen] holds
    the URLs of [links], which are pairwise distinct; the links are the
    ones kept from [pre]; and every anchor of [pre] that passes the filters
    has its URL in [seen]. *)
Record loop_inv (pre : list Anchor) (links : list FileLink) (seen : gset string)
    : Prop := {
  li_seen : ∀ x, x ∈ seen ↔ x ∈ URL <$> links;
  li_nodup : NoDup (URL <$> links);
  li_kept : ∀ fl, fl ∈ links ↔ kept pre fl;
  li_done : ∀ j t v, pre !! j = Some t → resolved t = Some v →
              accepted v = true → URL_String v ∈ seen
}.
End Occurrences.

(** Every byte string the pattern of [fileExtPattern] matches, without the
    anchor at the end. *)
Definition knownSuffixes : list string :=
  flat_map (λ alt, Extract.foldVariants ("." +:+ alt)) Extract.knownExts.

(** The causes for which [downloadFile] returns an error. *)
Definition fetch_fails (f : Download.Fetch) : Prop :=
  Download.newRequestErr f ≠ None ∨ Download.doErr f ≠ None
  ∨ Download.statusCode f ≠ 200
  ∨ Download.createErr f ≠ None ∨ Download.copyErr f ≠ None.

(** The same causes with every status from 200 to 299 taken as a success. *)
Definition fetch_fails_2xx (f : Download.Fetch) : Prop :=
  Download.newRequestErr f ≠ None ∨ Download.doErr f ≠ None
  ∨ ¬ (200 ≤ Download.statusCode f < 300)
  ∨ Download.createErr f ≠ None ∨ Download.copyErr f ≠ None.

(** What [downloadAll] records under [mu] after a download. *)
Definition recorded_failure (st st' : Download.State) : Prop :=
  Download.failCount st' = GoInt.add (Download.failCount st) 1
  ∧ Download.successCount st' = Download.successCount st.

Definition recorded_success (st st' : Download.State) : Prop :=
  Download.successCount st' = GoInt.add (Download.successCount st) 1
  ∧ Download.failCount st' = Download.failCount st.

(** A response [204 No Content] stored without any error. *)
Definition fetch_no_content : Download.Fetch :=
  {| Download.newRequestErr := None; Download.doErr := None;
     Download.statusCode := 204; Download.createErr := None;
     Download.copyErr := None |}.

(** A response [404 Not Found]. *)
Definition fetch_not_found : Download.Fetch :=
  {| Download.newRequestErr := None; Download.doErr := None;
     Download.statusCode := 404; Download.createErr := None;
     Download.copyErr := None |}.

(** Every byte of [s] satisfies [P]. *)
Fixpoint allBytes (P : ascii → bool) (s : string) : bool :=
  match s with
  | "" => true
  | String c r => P c && allBytes P r
  end.

(** The name contains none of the characters the sanitiser replaces. *)
Definition clean (s : string) : bool :=
  allBytes (λ c, negb (Sanitize.invalid c)) s.

(** The name after the replacement and trimming steps of the sanitiser. *)
Definition cleaned (raw : string) : string :=
  Sanitize.Trim Sanitize.inCutset
    (Sanitize.collapseRuns false (Sanitize.replaceInvalid raw)).

(** A link text whose extension, counted from its last dot, has 251 bytes. *)
Definition long_extension_text : string := "a." +:+ Sanitize.Repeat "x" 250.

(** An extension of 261 bytes, and a name of 262 bytes that ends with it. *)
Definition long_ext : string := "." +:+ Sanitize.Repeat "x" 260.
Definition long_name : string := "a" +:+ long_ext.

(** ** A small outside world, for closed instances of the theorems *)

Module Toy.
Import Str.

(** A file system that refuses names of more than 255 bytes (NAME_MAX,
    ENAMETOOLONG) and has a directory of plain files: a name with a
    separator leads to no file. *)
Definition fs : FileSystem :=
  {| stat_fails _ n := (255 <? len n)%nat;
     path_exists _ _ := false |}.

(** No Unicode tables: the fallbacks leave the string as it is. *)
Definition unicode : Unicode :=
  {| unicode_ToLower s := s; unicode_TrimSpace s := s;
     unicode_TrimRightSpace s := s |}.

(** URLs on one host, represented by their absolute path. *)
Definition neturl : NetURL :=
  {| URLT := string;
     url_Parse s := inr "/";
     URL_Parse base ref :=
       Some (if HasPrefix ref "/" then ref else base +:+ ref);
     URL_Path u := u;
     URL_String u := "http://example.com" +:+ u |}.

(** A compiler that rejects the pattern of one opening bracket and lets
    every other pattern match everything. *)
Definition regexp : Regexp :=
  {| regexp_Compile p :=
       if String.eqb p "[" then inl "error parsing regexp"
       else inr (λ _, true) |}.

(** A server that answers every request with status 200 and one page. *)
Definition web (page : list Anchor) : Web :=
  {| Body := list Anchor;
     http_NewRequest _ := None;
     client_Do _ _ := inr (200, page);
     goquery_anchors b := inr b;
     os_MkdirAll _ := None |}.

Definition config (include : string) : Config :=
  {| cfgURL := "http://example.com/"; OutDir := "./downloads"; Parallel := 5;
     Exts := @Flags.parseExts unicode false Flags.defaultExts; All := false;
     Include := include; ListOnly := false; UserAgent := "Mozilla/5.0" |}.

(** The extension list [pdf,docx], and the all mode. *)
Definition config_pdf_docx : Config :=
  {| cfgURL := "http://example.com/"; OutDir := "./downloads"; Parallel := 5;
     Exts := @Flags.parseExts unicode false "pdf,docx"; All := false;
     Include := ""; ListOnly := false; UserAgent := "Mozilla/5.0" |}.

Definition config_all : Config :=
  {| cfgURL := "http://example.com/"; OutDir := "./downloads"; Parallel := 5;
     Exts := @Flags.parseExts unicode true Flags.defaultExts; All := true;
     Include := ""; ListOnly := false; UserAgent := "Mozilla/5.0" |}.

(** The flag [--ext] with 260 letters [x], and a page with one link to a
    file of this extension. *)
Definition config_long_ext : Config :=
  {| cfgURL := "http://example.com/"; OutDir := "./downloads"; Parallel := 5;
     Exts := @Flags.parseExts unicode false (Sanitize.Repeat "x" 260);
     All := false; Include := ""; ListOnly := false; UserAgent := "Mozilla/5.0" |}.

Definition long_name_page : list Anchor :=
  [ {| href := "/f" +:+ long_ext; text := "a" |} ].

(** A page with three links to distinct files, two of them with one text. *)
Definition clash_page : list Anchor :=
  [ {| href := "/1.pdf"; text := "a" |};
    {| href := "/2.pdf"; text := "a" |};
    {| href := "/3.pdf"; text := "a_2" |} ].

(** The page of the end-to-end scenario. *)
Definition report_page : list Anchor :=
  [ {| href := "/a.pdf"; text := "Report One" |};
    {| href := "/a.pdf"; text := "Duplicate" |} ].
End Toy.

(** The names handed out to two links showing the text [Report]. *)
Definition handed_names_example : option (list string) :=
  Download.handed <$>
    @Download.downloadAll Toy.fs
      [ {| Name := "Report.pdf"; URL := "u1" |};
        {| Name := "Report.pdf"; URL := "u2" |} ] 5
      [Download.Allocate 0; Download.Allocate 1] (Download.init ∅).

(** A page that was fetched with status 200 and parsed into [anchors], the
    URL of the page parsing to [baseURL]. *)
Definition page_fetched `{NetURL} `{Web}
    (config : Config) (anchors : list Anchor) (baseURL : URLT) : Prop :=
  http_NewRequest (cfgURL config) = None
  ∧ (∃ body, client_Do (cfgURL config) (UserAgent config) = inr (200, body)
             ∧ goquery_anchors body = inr anchors)
  ∧ url_Parse (cfgURL config) = inr baseURL.

(** ** Definitions used in the further properties *)

(** [downloadFile] returns an error for the answers [f]. *)
Definition fetch_failed (f : Download.Fetch) : bool :=
  match Download.newRequestErr f, Download.doErr f,
        Download.createErr f, Download.copyErr f with
  | None, None, None, None => negb (Download.statusCode f =? 200)
  | _, _, _, _ => true
  end.

(** The downloads of a schedule that end with an error, and those that end
    without. *)
Fixpoint failures (evs : list Download.Event) : nat :=
  match evs with
  | [] => 0
  | Download.Fetched _ f :: evs' =>
      (if fetch_failed f then 1 else 0) + failures evs'
  | Download.Allocate _ :: evs' => failures evs'
  end.

Fixpoint successes (evs : list Download.Event) : nat :=
  match evs with
  | [] => 0
  | Download.Fetched _ f :: evs' =>
      (if fetch_failed f then 0 else 1) + successes evs'
  | Download.Allocate _ :: evs' => successes evs'
  end.

(** The allocations of a schedule for links with the desired name [name]. *)
Fixpoint requests (links : list FileLink) (name : string)
    (evs : list Download.Event) : nat :=
  match evs with
  | [] => 0
  | Download.Allocate w :: evs' =>
      (if decide (Name <$> links !! w = Some name) then 1 else 0)
      + requests links name evs'
  | Download.Fetched _ _ :: evs' => requests links name evs'
  end.

(** What every run keeps about the directory: the files present at the start
    stay, every other file bears a name that was handed out, no name handed
    out is the name of a file present at the start, and the goroutines hold
    names that were handed out. *)
Record dir_inv (dir0 : gset string) (st : Download.State) : Prop := {
  di_kept : dir0 ⊆ Download.dir st;
  di_new : ∀ x, x ∈ Download.dir st → x ∈ dir0 ∨ x ∈ Download.handed st;
  di_fresh : ∀ x, x ∈ Download.handed st → x ∉ dir0;
  di_assigned : ∀ w x, Download.assigned st !! w = Some x → x ∈ Download.handed st
}.

(** The semaphore: the goroutines that have finished have allocated, and
    the slots in use are at most [parallel]. *)
Record sem_inv (parallel : Z) (st : Download.State) : Prop := {
  si_finished : Download.finished st ⊆ dom (Download.assigned st);
  si_bound : Download.inflight st ≤ Z.max 0 parallel
}.

(** A response 200 whose copy to the file breaks off. *)
Definition fetch_broken_copy : Download.Fetch :=
  {| Download.newRequestErr := None; Download.doErr := None;
     Download.statusCode := 200; Download.createErr := None;
     Download.copyErr := Some "unexpected EOF" |}.

(** No two bytes of the class of spaces and underscores follow each other in
    [s], and each one is an underscore; with [afterRun] the first byte is
    not of the class either. *)
Fixpoint norun (afterRun : bool) (s : string) : bool :=
  match s with
  | "" => true
  | String c r =>
      if Sanitize.spaceOrUnderscore c
      then negb afterRun && Str.byte_eqb c "_" && norun true r
      else norun false r
  end.

(** The first byte of [s], if any, is not in the cutset. *)
Definition starts_uncut (cut : ascii → bool) (s : string) : bool :=
  match s with
  | "" => true
  | String c _ => negb (cut c)
  end.

(** A name of 199 letters, an underscore and two more letters. *)
Definition long_plain_text : string :=
  Sanitize.Repeat "a" 199 +:+ "_bb".

(** The link [fl] is made from the anchor at position [i]: from its
    resolved URL and the name derived for it. *)
Definition made_from `{Unicode} `{NetURL} (baseURL : URLT)
    (anchors : list Anchor) (i : nat) (fl : FileLink) : Prop :=
  ∃ s u, anchors !! i = Some s ∧ resolved baseURL s = Some u
         ∧ URL fl = URL_String u ∧ derivedName s u = Some (Name fl).

(** The download reaches [os.Create] and the file is made. *)
Definition creates (f : Download.Fetch) : Prop :=
  Download.newRequestErr f = None ∧ Download.doErr f = None
  ∧ Download.statusCode f = 200 ∧ Download.createErr f = None.

(** The state of a run in which every download makes its file: the names
    handed out are pairwise distinct, each is held by a goroutine, the
    goroutines that have finished have allocated, and their files are in
    the directory. *)
Record seq_inv (st : Download.State) : Prop := {
  sq_nodup : NoDup (Download.handed st);
  sq_held : ∀ x, x ∈ Download.handed st →
              ∃ w, Download.assigned st !! w = Some x;
  sq_finished : Download.finished st ⊆ dom (Download.assigned st);
  sq_files : ∀ w x, w ∈ Download.finished st →
               Download.assigned st !! w = Some x → x ∈ Download.dir st
}.

(** The schedule of one slot for the three links of [clash_links]. *)
Definition one_slot_schedule : list Download.Event :=
  [ Download.Allocate 0; Download.Fetched 0 fetch_ok;
    Download.Allocate 1; Download.Fetched 1 fetch_ok;
    Download.Allocate 2; Download.Fetched 2 fetch_ok ].

(** An upper-case ASCII letter. *)
Definition isUpper (c : ascii) : bool :=
  (65 <=? Sanitize.byte c)%N && (Sanitize.byte c <=? 90)%N.

(** The last byte of [s], if there is one, is not in [cut]. *)
Definition ends_uncut (cut : ascii → bool) (s : string) : bool :=
  match GoStrings.lastByte s with
  | Some c => negb (cut c)
  | None => true
  end.

(** [body] is [part] without the ASCII white space at its two ends. *)
Definition stripped (part body : string) : Prop :=
  ∃ before after,
    part = before +:+ body +:+ after
    ∧ allBytes GoStrings.asciiSpace before = true
    ∧ allBytes GoStrings.asciiSpace after = true
    ∧ starts_uncut GoStrings.asciiSpace body = true
    ∧ ends_uncut GoStrings.asciiSpace body = true.

(** * Proofs *)

(** ** Evaluations *)

Example ext_1 : Str.Ext "a/b.c/report.tar.gz" = ".gz". Proof. reflexivity. Qed.
Example ext_2 : Str.Ext "a/b.c/report" = "". Proof. reflexivity. Qed.
Example base_1 : Str.Base "/docs/a.pdf" = "a.pdf". Proof. reflexivity. Qed.
Example base_2 : Str.Base "/docs/" = "docs". Proof. reflexivity. Qed.
Example trim_1 : Str.TrimSuffix "report.pdf" ".pdf" = "report". Proof. reflexivity. Qed.
Example alloc_1 :
  (@Alloc.getUniqueFilename Toy.fs {["a.pdf"; "a_1.pdf"]} "a.pdf" ∅).2
  = Some "a_2.pdf".
Proof. vm_compute. reflexivity. Qed.

Example run_1 :
  handed_names_example = Some ["Report.pdf"; "Report_2.pdf"].
Proof. vm_compute. reflexivity. Qed.

Example sanitize_1 : Sanitize.sanitizeFilename "Report One" = Some "Report_One".
Proof. reflexivity. Qed.
Example sanitize_2 : Sanitize.sanitizeFilename " a<b>: c__ d. " = Some "a_b_c_d".
Proof. reflexivity. Qed.
Example sanitize_3 : Sanitize.sanitizeFilename "..." = Some "unnamed".
Proof. reflexivity. Qed.
Example sanitize_4 :
  Sanitize.sanitizeFilename (String "034" "Q3" +:+ String "034" " plan?")
  = Some "Q3_plan".
Proof. reflexivity. Qed.
Example split_1 : GoStrings.Split "," "pdf,xlsx,,xls" = ["pdf"; "xlsx"; ""; "xls"].
Proof. reflexivity. Qed.


(** ** Integers *)

Section GoIntFacts.
Import GoInt.

Lemma wrap_in_range z : in_range (wrap z).
Proof.
  unfold in_range, wrap, min_int, max_int.
  pose proof (Z.mod_pos_bound (z + 2 ^ 63) (2 ^ 64)). lia.
Qed.

Lemma wrap_small z : in_range z → wrap z = z.
Proof.
  unfold in_range, wrap, min_int, max_int. intros ?.
  rewrite Z.mod_small; lia.
Qed.

Lemma wrap_add_l a b : wrap (wrap a + b) = wrap (a + b).
Proof.
  unfold wrap.
  replace ((a + 2 ^ 63) `mod` 2 ^ 64 - 2 ^ 63 + b + 2 ^ 63)
    with ((a + 2 ^ 63) `mod` 2 ^ 64 + b) by lia.
  rewrite Zplus_mod_idemp_l. f_equal. f_equal. lia.
Qed.

(** Fewer than [2^64] increments never come back to the same [int]. *)
Lemma wrap_offset_inj i j k :
  0 ≤ j < 2 ^ 64 → 0 ≤ k < 2 ^ 64 → wrap (i + j) = wrap (i + k) → j = k.
Proof.
  unfold wrap. intros Hj Hk Heq.
  assert (Hm : (i + j + 2 ^ 63) `mod` 2 ^ 64 = (i + k + 2 ^ 63) `mod` 2 ^ 64) by lia.
  destruct (Z.le_gt_cases j k) as [Hle | Hgt].
  - assert (Hd : (k - j) `mod` 2 ^ 64 = 0).
    { replace (k - j) with ((i + k + 2 ^ 63) - (i + j + 2 ^ 63)) by lia.
      rewrite Zminus_mod, Hm, Z.sub_diag. reflexivity. }
    rewrite Z.mod_small in Hd; lia.
  - assert (Hd : (j - k) `mod` 2 ^ 64 = 0).
    { replace (j - k) with ((i + j + 2 ^ 63) - (i + k + 2 ^ 63)) by lia.
      rewrite Zminus_mod, Hm, Z.sub_diag. reflexivity. }
    rewrite Z.mod_small in Hd; lia.
Qed.
End GoIntFacts.

(** ** Strings *)

Section StrFacts.
Import Str.

Lemma str_app_nil_l s : "" +:+ s = s.
Proof. reflexivity. Qed.

Lemma str_app_cons c s t : String c s +:+ t = String c (s +:+ t).
Proof. reflexivity. Qed.

Lemma str_len_cons c s : len (String c s) = S (len s).
Proof. reflexivity. Qed.

Lemma str_len_app s t : len (s +:+ t) = (len s + len t)%nat.
Proof.
  induction s as [|c s IH]; [done|].
  by rewrite str_app_cons, !str_len_cons, IH.
Qed.

Lemma str_app_nil_r s : s +:+ "" = s.
Proof. induction s as [|c s IH]; [done | by rewrite str_app_cons, IH]. Qed.

Lemma str_app_assoc s t u : (s +:+ t) +:+ u = s +:+ t +:+ u.
Proof. induction s as [|c s IH]; [done | by rewrite !str_app_cons, IH]. Qed.

Lemma str_take_drop n s : take n s +:+ drop n s = s.
Proof.
  revert s. induction n as [|n IH]; intros [|c s]; simpl; try done.
  by rewrite str_app_cons, IH.
Qed.

Lemma str_len_take n s : (n ≤ len s)%nat → len (take n s) = n.
Proof.
  unfold len. revert s.
  induction n as [|n IH]; intros [|c s]; simpl; try done; try lia.
  intros ?. rewrite IH; lia.
Qed.

(** Cancellation on the right, by the length of the common suffix. *)
Lemma str_app_inv_tail s t u : s +:+ u = t +:+ u → s = t.
Proof.
  revert t. induction s as [|c s IH]; intros [|d t] Heq.
  - done.
  - apply (f_equal len) in Heq. rewrite str_app_nil_l, str_len_app, str_len_cons in Heq. lia.
  - apply (f_equal len) in Heq. rewrite str_app_nil_l, str_len_app, str_len_cons in Heq. lia.
  - rewrite !str_app_cons in Heq. injection Heq as -> Heq. f_equal. by apply IH.
Qed.

Lemma HasSuffix_spec s suffix :
  HasSuffix s suffix = true → take (len s - len suffix) s +:+ suffix = s.
Proof.
  unfold HasSuffix. intros [_ Heq%String.eqb_eq]%andb_true_iff.
  rewrite <- Heq at 2. apply str_take_drop.
Qed.

(** [TrimSuffix] removes exactly the suffix when there is one. *)
Lemma TrimSuffix_app s suffix :
  HasSuffix s suffix = true → TrimSuffix s suffix +:+ suffix = s.
Proof. intros H. unfold TrimSuffix. rewrite H. by apply HasSuffix_spec. Qed.

Lemma scanExt_suffix s e : scanExt s = Some e → ∃ p, s = p +:+ e.
Proof.
  revert e. induction s as [|c s IH]; intros e; simpl; [done|].
  destruct (scanExt s) as [e'|] eqn:Hs.
  - intros [= <-]. destruct (IH e' eq_refl) as [p ->]. by exists (String c p).
  - destruct (byte_eqb c "."); [intros [= <-]; by exists ""|].
    destruct (byte_eqb c "/"); [|done].
    intros [= <-]. exists (String c s). by rewrite str_app_nil_r.
Qed.

Lemma Ext_suffix path : ∃ p, path = p +:+ Ext path.
Proof.
  unfold Ext. destruct (scanExt path) as [e|] eqn:Hs; simpl.
  - by apply scanExt_suffix.
  - exists path. by rewrite str_app_nil_r.
Qed.

Lemma HasSuffix_app p e : HasSuffix (p +:+ e) e = true.
Proof.
  unfold HasSuffix. rewrite str_len_app. apply andb_true_iff. split.
  - apply Nat.leb_le. lia.
  - apply String.eqb_eq. replace (len p + len e - len e)%nat with (len p) by lia.
    clear. induction p as [|c p IH]; [by destruct e | by rewrite str_app_cons, str_len_cons].
Qed.

(** A name is its stem followed by its extension. *)
Lemma TrimSuffix_Ext name : TrimSuffix name (Ext name) +:+ Ext name = name.
Proof.
  destruct (Ext_suffix name) as [p Hp]. apply TrimSuffix_app.
  rewrite Hp at 1. apply HasSuffix_app.
Qed.
End StrFacts.

(** ** The numbered search *)

Section AllocFacts.
Context `{FileSystem}.
Import Str Alloc GoInt.

Lemma numbered_inj stem ext i j :
  numbered stem i ext = numbered stem j ext → i = j.
Proof.
  unfold numbered. intros Heq.
  do 2 apply String.app_inj in Heq.
  apply str_app_inv_tail in Heq. by apply (inj pretty).
Qed.

Lemma len_numbered stem ext i :
  (len stem + len ext < len (numbered stem i ext))%nat.
Proof. unfold numbered. rewrite !str_len_app. change (len "_") with 1%nat. lia. Qed.

(** A numbered name is never the name it was derived from. *)
Lemma numbered_ne_name name i :
  numbered (TrimSuffix name (Ext name)) i (Ext name) ≠ name.
Proof.
  intros Heq. apply (f_equal len) in Heq.
  pose proof (len_numbered (TrimSuffix name (Ext name)) (Ext name) i) as Hlt.
  rewrite <- str_len_app, TrimSuffix_Ext in Hlt. lia.
Qed.

Lemma notExist_Stat dir n : notExist dir n = true ↔ Stat dir n = StatNotExist.
Proof. unfold notExist. by destruct (Stat dir n). Qed.

(** A name reported as not existing is not one of the known files. *)
Lemma notExist_true dir n : notExist dir n = true → n ∉ dir.
Proof.
  unfold notExist, Stat. destruct (stat_fails dir n); [done|].
  by case_bool_decide.
Qed.

Lemma notExist_fails dir n : stat_fails dir n = true → notExist dir n = false.
Proof. unfold notExist, Stat. by intros ->. Qed.

(** For an entry name whose [os.Stat] does not fail, the set decides. *)
Lemma notExist_entry dir n :
  stat_fails dir n = false → dots n = false → hasSeparator n = false →
  notExist dir n = bool_decide (n ∉ dir).
Proof.
  unfold notExist, Stat. intros -> -> ->.
  case_bool_decide; by case_bool_decide.
Qed.

(** The value of [i] after [k] rounds. *)
Lemma wrap_succ i k : add (wrap (i + Z.of_nat k)) 1 = wrap (i + Z.of_nat (S k)).
Proof.
  unfold add. rewrite wrap_add_l. f_equal. lia.
Qed.

Lemma wrap_period z m : wrap (z + 2 ^ 64 * m) = wrap z.
Proof.
  unfold wrap. f_equal.
  replace (z + 2 ^ 64 * m + 2 ^ 63) with (z + 2 ^ 63 + m * 2 ^ 64) by lia.
  apply Z.mod_add. lia.
Qed.

(** The search returns the first numbered name, counting up from [i], that
    [os.Stat] reports as not existing. *)
Lemma findNext_least fuel dir stem ext i r :
  in_range i → findNext fuel dir stem ext i = Some r →
  ∃ k : nat, (k < fuel)%nat
    ∧ r = numbered stem (wrap (i + Z.of_nat k)) ext
    ∧ notExist dir r = true
    ∧ ∀ j : nat, (j < k)%nat →
        notExist dir (numbered stem (wrap (i + Z.of_nat j)) ext) = false.
Proof.
  revert i. induction fuel as [|fuel IH]; intros i Hi; simpl; [done|].
  destruct (notExist dir (numbered stem i ext)) eqn:Hn.
  - intros [= <-]. exists 0%nat. rewrite Z.add_0_r, wrap_small by done.
    split_and!; [lia | done | done | lia].
  - intros Hf. destruct (IH (add i 1) (wrap_in_range _) Hf) as (k & Hk & -> & Hr & Hall).
    exists (S k). unfold add. rewrite !wrap_add_l.
    replace (i + 1 + Z.of_nat k) with (i + Z.of_nat (S k)) by lia.
    split_and!; [lia | done | | ].
    + unfold add in Hr. rewrite wrap_add_l in Hr.
      by replace (i + 1 + Z.of_nat k) with (i + Z.of_nat (S k)) in Hr by lia.
    + intros [|j] Hj.
      * by rewrite Z.add_0_r, wrap_small.
      * specialize (Hall j ltac:(lia)). unfold add in Hall.
        rewrite wrap_add_l in Hall.
        by replace (i + 1 + Z.of_nat j) with (i + Z.of_nat (S j)) in Hall by lia.
Qed.

(** What the search returns is a numbered name that is not a known file. *)
Lemma findNext_Some fuel dir stem ext i r :
  findNext fuel dir stem ext i = Some r →
  (r ∉ dir) ∧ ∃ j, r = numbered stem j ext.
Proof.
  revert i. induction fuel as [|fuel IH]; intros i; simpl; [done|].
  destruct (notExist dir (numbered stem i ext)) eqn:Hn.
  - intros [= <-]. split; [by apply notExist_true | by exists i].
  - apply IH.
Qed.

(** A search that gives up has met no free name in any round. *)
Lemma findNext_None fuel dir stem ext i :
  in_range i → findNext fuel dir stem ext i = None →
  ∀ k : nat, (k < fuel)%nat →
    notExist dir (numbered stem (wrap (i + Z.of_nat k)) ext) = false.
Proof.
  revert i. induction fuel as [|fuel IH]; intros i Hi; simpl; [lia|].
  destruct (notExist dir (numbered stem i ext)) eqn:Hn; [done|].
  intros Hnone [|k] Hk.
  - by rewrite Z.add_0_r, wrap_small.
  - specialize (IH (add i 1) (wrap_in_range _) Hnone k ltac:(lia)).
    unfold add in IH. rewrite wrap_add_l in IH.
    by replace (i + Z.of_nat (S k)) with (i + 1 + Z.of_nat k) by lia.
Qed.

(** The search returns the first free name when it has rounds enough to
    reach it. *)
Lemma findNext_first fuel dir stem ext i (k : nat) :
  in_range i → (k < fuel)%nat →
  notExist dir (numbered stem (wrap (i + Z.of_nat k)) ext) = true →
  (∀ j : nat, (j < k)%nat →
     notExist dir (numbered stem (wrap (i + Z.of_nat j)) ext) = false) →
  findNext fuel dir stem ext i = Some (numbered stem (wrap (i + Z.of_nat k)) ext).
Proof.
  revert i k. induction fuel as [|fuel IH]; intros i k Hi Hk Hfree Hall; [lia|].
  simpl. destruct k as [|k].
  - rewrite Z.add_0_r, wrap_small in Hfree by done.
    by rewrite Hfree, Z.add_0_r, wrap_small.
  - pose proof (Hall 0%nat ltac:(lia)) as H0.
    rewrite Z.add_0_r, wrap_small in H0 by done. rewrite H0.
    replace (wrap (i + Z.of_nat (S k))) with (wrap (add i 1 + Z.of_nat k)).
    2: { unfold add. rewrite wrap_add_l. f_equal. lia. }
    apply IH; [apply wrap_in_range | lia | |].
    + unfold add. rewrite wrap_add_l.
      by replace (i + 1 + Z.of_nat k) with (i + Z.of_nat (S k)) by lia.
    + intros j Hj. specialize (Hall (S j) ltac:(lia)).
      unfold add. rewrite wrap_add_l.
      by replace (i + 1 + Z.of_nat j) with (i + Z.of_nat (S j)) by lia.
Qed.

Lemma findNext_mono fuel fuel' dir stem ext i r :
  (fuel ≤ fuel')%nat →
  findNext fuel dir stem ext i = Some r → findNext fuel' dir stem ext i = Some r.
Proof.
  revert fuel' i. induction fuel as [|fuel IH]; intros [|fuel'] i Hle; simpl;
    try done; try lia.
  destruct (notExist dir (numbered stem i ext)); [done|].
  apply IH. lia.
Qed.

(** Rounds beyond [2^64] meet the same names again: they find nothing
    new. *)
Lemma findNext_bounded (n fuel : nat) dir stem ext i r :
  Z.of_nat n = 2 ^ 64 → in_range i →
  findNext fuel dir stem ext i = Some r → findNext n dir stem ext i = Some r.
Proof.
  intros Hn Hi Hf.
  apply findNext_least in Hf as (k & Hk & -> & Hfree & Hall); [|done].
  destruct (decide (k < n)%nat) as [Hlt | Hge]; [by apply findNext_first|].
  exfalso.
  assert (Hj : (k - n < k)%nat) by lia.
  specialize (Hall _ Hj).
  replace (i + Z.of_nat (k - n)) with (i + Z.of_nat k + 2 ^ 64 * (-1)) in Hall by lia.
  rewrite wrap_period in Hall. congruence.
Qed.

(** Two runs of the loop, one after the other. *)
Lemma findNext_app (n m : nat) dir stem ext i :
  in_range i →
  findNext (n + m) dir stem ext i
  = match findNext n dir stem ext i with
    | Some r => Some r
    | None => findNext m dir stem ext (wrap (i + Z.of_nat n))
    end.
Proof.
  revert i. induction n as [|n IH]; intros i Hi; cbn [findNext Nat.add].
  - by rewrite Z.add_0_r, wrap_small.
  - destruct (notExist dir (numbered stem i ext)); [done|].
    rewrite IH by apply wrap_in_range. unfold add. rewrite wrap_add_l.
    by replace (i + 1 + Z.of_nat n) with (i + Z.of_nat (S n)) by lia.
Qed.

(** The loop counted in binary is the loop. *)
Lemma findNextBin_spec (p : positive) dir stem ext i :
  in_range i →
  findNextBin p dir stem ext i
  = match findNext (Pos.to_nat p) dir stem ext i with
    | Some r => inl r
    | None => inr (wrap (i + Z.pos p))
    end.
Proof.
  revert i. induction p as [p IH | p IH |]; intros i Hi.
  - rewrite Pos2Nat.inj_xI. cbn [findNextBin findNext].
    destruct (notExist dir (numbered stem i ext)); [done|].
    replace (2 * Pos.to_nat p)%nat with (Pos.to_nat p + Pos.to_nat p)%nat by lia.
    rewrite findNext_app by apply wrap_in_range.
    rewrite IH by apply wrap_in_range.
    destruct (findNext (Pos.to_nat p) dir stem ext (add i 1)); [done|].
    rewrite IH by apply wrap_in_range. rewrite positive_nat_Z.
    destruct (findNext _ _ _ _ _); [done|].
    f_equal. unfold add. rewrite wrap_add_l, <- Z.add_assoc, wrap_add_l.
    f_equal. lia.
  - rewrite Pos2Nat.inj_xO. cbn [findNextBin].
    replace (2 * Pos.to_nat p)%nat with (Pos.to_nat p + Pos.to_nat p)%nat by lia.
    rewrite findNext_app by done. rewrite IH by done.
    destruct (findNext (Pos.to_nat p) dir stem ext i); [done|].
    rewrite IH by apply wrap_in_range. rewrite positive_nat_Z.
    destruct (findNext _ _ _ _ _); [done|].
    f_equal. rewrite wrap_add_l. f_equal. lia.
  - change (Pos.to_nat 1) with 1%nat. cbn [findNextBin findNext].
    by destruct (notExist dir (numbered stem i ext)).
Qed.

(** [getUniqueFilename] is its loop cut off after [2^64] rounds. *)
Lemma getUniqueFilename_cycle dir name used :
  ∃ n : nat, Z.of_nat n = 2 ^ 64
    ∧ getUniqueFilename dir name used = getUniqueFilename_fuel n dir name used.
Proof.
  exists (Pos.to_nat cycle). split.
  - rewrite positive_nat_Z. reflexivity.
  - unfold getUniqueFilename, getUniqueFilename_fuel, getUniqueFilename_by.
    destruct (_ && _); [done|]. f_equal.
    unfold findNextCycle. rewrite findNextBin_spec by apply wrap_in_range.
    by destruct (findNext _ _ _ _ _).
Qed.

(** The name [getUniqueFilename] returns is none of the known files. *)
Lemma getUniqueFilename_fresh fuel dir name used used' r :
  getUniqueFilename_fuel fuel dir name used = (used', Some r) → r ∉ dir.
Proof.
  unfold getUniqueFilename_fuel, getUniqueFilename_by.
  destruct ((default 0 (used !! name) =? 0) && notExist dir name) eqn:Hc.
  - intros [= _ <-]. apply andb_true_iff in Hc as [_ Hc]. by apply notExist_true.
  - intros [= _ Hf]. by apply findNext_Some in Hf as [? _].
Qed.

Lemma getUniqueFilename_returned dir name used used' r :
  getUniqueFilename dir name used = (used', Some r) → r ∉ dir.
Proof.
  destruct (getUniqueFilename_cycle dir name used) as (n & _ & ->).
  apply getUniqueFilename_fresh.
Qed.

(** *** Entry names *)

Lemma hasSeparator_app s t :
  hasSeparator (s +:+ t) = hasSeparator s || hasSeparator t.
Proof.
  induction s as [|c s IH]; [done|].
  rewrite str_app_cons. simpl. by rewrite IH, orb_assoc.
Qed.

Lemma hasSeparator_pretty_N_go x s :
  hasSeparator (pretty_N_go x s) = hasSeparator s.
Proof.
  revert s. induction (N.lt_wf_0 x) as [x _ IH]; intros s.
  assert (x = 0 ∨ 0 < x)%N as [-> | Hx] by lia; [done|].
  rewrite pretty_N_go_step by done. rewrite IH by (by apply N.div_lt).
  simpl. unfold pretty_N_char. by repeat case_match.
Qed.

Lemma hasSeparator_pretty_pos (p : positive) : hasSeparator (pretty p) = false.
Proof.
  unfold pretty, pretty_positive, pretty, pretty_N.
  case_decide; [done|]. by rewrite hasSeparator_pretty_N_go.
Qed.

(** The verb [%d] writes no separator. *)
Lemma hasSeparator_pretty (i : Z) : hasSeparator (pretty i) = false.
Proof.
  destruct i as [|p|p]; [done | apply hasSeparator_pretty_pos |].
  change (pretty (Z.neg p)) with ("-" +:+ pretty p).
  rewrite hasSeparator_app. simpl. apply hasSeparator_pretty_pos.
Qed.

Lemma dots_underscore s t : dots (s +:+ String "_" t) = false.
Proof.
  unfold dots.
  destruct s as [|c [|c' [|c'' s]]]; rewrite ?str_app_cons, ?str_app_nil_l; simpl.
  - done.
  - by destruct (Ascii.eqb c ".").
  - by destruct (Ascii.eqb c "."), (Ascii.eqb c' ".").
  - by destruct (Ascii.eqb c "."), (Ascii.eqb c' ".").
Qed.

(** The numbered names of an entry name are entry names. *)
Lemma numbered_entry name i :
  hasSeparator name = false →
  dots (numbered (TrimSuffix name (Ext name)) i (Ext name)) = false
  ∧ hasSeparator (numbered (TrimSuffix name (Ext name)) i (Ext name)) = false.
Proof.
  intros Hsep. unfold numbered. split.
  - change ("_" +:+ pretty i +:+ Ext name) with (String "_" (pretty i +:+ Ext name)).
    apply dots_underscore.
  - rewrite <- (TrimSuffix_Ext name), hasSeparator_app in Hsep.
    apply orb_false_iff in Hsep as [Hs He].
    rewrite !hasSeparator_app, Hs, He, hasSeparator_pretty. done.
Qed.

(** Pigeonhole: when every name tried that is not free is one of the known
    files, more rounds than there are files (and at most [2^64], so that
    the counter has not come round) find a free name. *)
Lemma findNext_finds fuel dir stem ext i :
  in_range i → (size dir < fuel)%nat → Z.of_nat fuel ≤ 2 ^ 64 →
  (∀ k : nat, (k < fuel)%nat →
     notExist dir (numbered stem (wrap (i + Z.of_nat k)) ext) = false →
     numbered stem (wrap (i + Z.of_nat k)) ext ∈ dir) →
  is_Some (findNext fuel dir stem ext i).
Proof.
  intros Hi Hsz Hfuel Hin.
  destruct (findNext fuel dir stem ext i) as [r|] eqn:Hf; [by eexists|].
  exfalso.
  pose proof (findNext_None _ _ _ _ _ Hi Hf) as Hall.
  set (f := λ k : nat, numbered stem (wrap (i + Z.of_nat k)) ext).
  assert (Hnd : NoDup (f <$> seq 0 fuel)).
  { apply NoDup_fmap_2_strong; [|apply NoDup_seq].
    intros j k Hj%elem_of_seq Hk%elem_of_seq Hjk.
    apply numbered_inj, wrap_offset_inj in Hjk; lia. }
  assert (Hsub : list_to_set (f <$> seq 0 fuel) ⊆ dir).
  { intros x Hx%elem_of_list_to_set. apply list_elem_of_fmap in Hx as (k & -> & Hk).
    apply elem_of_seq in Hk. apply Hin; [lia|]. apply Hall. lia. }
  apply subseteq_size in Hsub.
  rewrite size_list_to_set, length_fmap, length_seq in Hsub by done. lia.
Qed.

(** A search in which no name tried is free gives up, however many rounds
    it has. *)
Lemma findNext_spins fuel dir stem ext i :
  (∀ j, notExist dir (numbered stem j ext) = false) →
  findNext fuel dir stem ext i = None.
Proof.
  intros Hall. revert i. induction fuel as [|fuel IH]; intros i; [done|].
  simpl. by rewrite Hall.
Qed.

Lemma getUniqueFilename_spins fuel dir name used :
  notExist dir name = false →
  (∀ j, notExist dir (numbered (TrimSuffix name (Ext name)) j (Ext name)) = false) →
  (getUniqueFilename_fuel fuel dir name used).2 = None.
Proof.
  intros Hname Hall. unfold getUniqueFilename_fuel, getUniqueFilename_by.
  rewrite Hname, andb_false_r. simpl. by apply findNext_spins.
Qed.
End AllocFacts.

(** C9: [getUniqueFilename] does not return for every input.  On a file
    system that refuses names of more than [nameMax] bytes with an error
    that is not a not-exist error, a desired name of more than [nameMax]
    bytes makes every [os.Stat] of the call fail in this way (the numbered
    names are longer still): no number of rounds ends the search, whatever
    the files of the directory and the counters. *)
Theorem getUniqueFilename_never_returns `{FileSystem} (nameMax : nat)
    (dir : gset string) (name : string) (usedNames : gmap string Z) :
  (∀ d n, (nameMax < Str.len n)%nat → stat_fails d n = true) →
  (nameMax < Str.len name)%nat →
  (Alloc.getUniqueFilename dir name usedNames).2 = None
  ∧ ∀ fuel, (Alloc.getUniqueFilename_fuel fuel dir name usedNames).2 = None.
Proof.
  intros Hmax Hlen.
  assert (Hall : ∀ fuel, (Alloc.getUniqueFilename_fuel fuel dir name usedNames).2 = None).
  { intros fuel. apply getUniqueFilename_spins.
    - by apply notExist_fails, Hmax.
    - intros j. apply notExist_fails, Hmax.
      pose proof (len_numbered (Str.TrimSuffix name (Str.Ext name)) (Str.Ext name) j)
        as Hlt.
      rewrite <- str_len_app, TrimSuffix_Ext in Hlt. lia. }
  split; [|done].
  destruct (getUniqueFilename_cycle dir name usedNames) as (n & _ & ->).
  apply Hall.
Qed.

Lemma getUniqueFilename_never_returns_witness :
  (@Alloc.getUniqueFilename Toy.fs ∅ long_name ∅).2 = None
  ∧ ∀ fuel, (@Alloc.getUniqueFilename_fuel Toy.fs fuel ∅ long_name ∅).2 = None.
Proof.
  apply (@getUniqueFilename_never_returns Toy.fs 255 ∅ long_name ∅).
  - simpl. intros _ n Hn. apply Nat.ltb_lt. lia.
  - vm_compute. lia.
Defined.

(** The name is what the extraction returns for a link with the text [a]
    when the flag [--ext] names the extension of its target, and its
    goroutine never gets past its allocation. *)
Example long_name_extracted :
  @Extract.collectLinks Toy.unicode Toy.neturl Toy.config_long_ext None "/"
    Toy.long_name_page
  = Some [ {| Name := long_name; URL := "http://example.com/f" +:+ long_ext |} ].
Proof. vm_compute. reflexivity. Qed.

Example long_name_never_allocated :
  @Download.step Toy.fs [ {| Name := long_name; URL := "u" |} ] 5
    (Download.init ∅) (Download.Allocate 0) = None.
Proof.
  assert (Hn : (@Alloc.getUniqueFilename Toy.fs ∅ long_name ∅).2 = None).
  { destruct (@getUniqueFilename_cycle Toy.fs ∅ long_name ∅) as (n & _ & ->).
    apply getUniqueFilename_spins.
    - apply notExist_fails. vm_compute. reflexivity.
    - intros j. apply notExist_fails. cbn [stat_fails Toy.fs]. apply Nat.ltb_lt.
      pose proof (len_numbered (Str.TrimSuffix long_name (Str.Ext long_name))
                    (Str.Ext long_name) j) as Hlt.
      rewrite <- str_len_app, TrimSuffix_Ext in Hlt.
      assert (Hl : Str.len long_name = 262%nat) by (vm_compute; reflexivity).
      rewrite Hl in Hlt. lia. }
  cbn [Download.step]. change ([ {| Name := long_name; URL := "u" |} ] !! 0%nat)
    with (Some {| Name := long_name; URL := "u" |}).
  cbn [Download.init Download.assigned Download.dir Download.usedNames Name].
  rewrite lookup_empty.
  destruct (Download.inflight _ <? 5); [|done].
  by destruct (Alloc.getUniqueFilename ∅ long_name ∅) as [used [r|]].
Qed.

(** ** Runs of the download phase with one desired name *)

Lemma kth_name_inj name j k : kth_name name j = kth_name name k → j = k.
Proof.
  destruct j as [|j], k as [|k]; simpl; intros H; try done.
  - symmetry in H. by apply numbered_ne_name in H.
  - by apply numbered_ne_name in H.
  - apply numbered_inj in H. lia.
Qed.

Section SameName.
Context `{FileSystem}.
Import Str Alloc GoInt Download.

Variable name : string.
Variable links : list FileLink.
Variable parallel : Z.
Hypothesis entry_name : dots name = false ∧ hasSeparator name = false.
Hypothesis stat_answers :
  ∀ d (k : nat), (k < length links)%nat → stat_fails d (kth_name name k) = false.
Hypothesis same_name : ∀ l, l ∈ links → Name l = name.
Hypothesis few_links : Z.of_nat (length links) < 2 ^ 63.

Lemma inv_init : inv name links (init ∅).
Proof. split; simpl; try done; intros ? [? ?]; done. Qed.

Lemma assigned_bound st : inv name links st → (size (assigned st) ≤ length links)%nat.
Proof.
  intros Hinv.
  assert (Hsub : dom (assigned st) ⊆ (list_to_set (seq 0 (length links)) : gset nat)).
  { intros w Hw%elem_of_dom. apply elem_of_list_to_set, elem_of_seq.
    apply (inv_workers _ _ _ Hinv) in Hw. lia. }
  apply subseteq_size in Hsub.
  rewrite size_dom, size_list_to_set, length_seq in Hsub by apply NoDup_seq.
  done.
Qed.

Lemma inv_step st ev st' :
  inv name links st → step links parallel st ev = Some st' → inv name links st'.
Proof.
  intros Hinv. destruct ev as [w | w f]; simpl.
  - destruct (links !! w) as [link|] eqn:Hlink; [|done].
    destruct (assigned st !! w) eqn:Hw; [done|].
    destruct (inflight st <? parallel); [|done].
    assert (Hname : Name link = name)
      by (apply same_name; by eapply list_elem_of_lookup_2).
    rewrite Hname.
    set (m := length (handed st)).
    assert (Hm : (m < length links)%nat).
    { pose proof (assigned_bound st Hinv) as Hb.
      assert (size (<[w:=name]> (assigned st)) ≤ length links)%nat as Hb'.
      { pose (st1 := {| usedNames := usedNames st; dir := dir st;
                        assigned := <[w:=name]> (assigned st);
                        handed := handed st ++ [name];
                        finished := finished st;
                        successCount := successCount st;
                        failCount := failCount st |}).
        assert (Hsub : dom (assigned st1)
                       ⊆ (list_to_set (seq 0 (length links)) : gset nat)).
        { intros v Hv%elem_of_dom. apply elem_of_list_to_set, elem_of_seq.
          simpl in Hv. destruct (decide (w = v)) as [<-|Hne].
          - apply lookup_lt_Some in Hlink. lia.
          - rewrite lookup_insert_ne in Hv by done.
            apply (inv_workers _ _ _ Hinv) in Hv. lia. }
        apply subseteq_size in Hsub.
        rewrite size_dom, size_list_to_set, length_seq in Hsub
          by apply NoDup_seq.
        done. }
      rewrite map_size_insert_None in Hb' by done.
      unfold m. rewrite (inv_size _ _ _ Hinv). lia. }
    assert (Hret : getUniqueFilename (dir st) name (usedNames st)
                   = (<[name := Z.of_nat (S m)]> (usedNames st), Some (kth_name name m))).
    { destruct (getUniqueFilename_cycle (dir st) name (usedNames st))
        as (n & Hn & ->).
      destruct n as [|n]; [lia|].
      unfold getUniqueFilename_fuel, getUniqueFilename_by.
      rewrite (inv_count _ _ _ Hinv). fold m.
      assert (Hadd : add (Z.of_nat m) 1 = Z.of_nat (S m)).
      { unfold add. rewrite wrap_small; [lia|].
        unfold in_range, min_int, max_int. lia. }
      rewrite Hadd.
      assert (Hfree : notExist (dir st) (kth_name name m) = true).
      { destruct entry_name as [Hdots Hsep].
        rewrite notExist_entry.
        - apply bool_decide_eq_true. intros Hin%(inv_dir _ _ _ Hinv).
          rewrite (inv_handed _ _ _ Hinv) in Hin.
          apply list_elem_of_fmap in Hin as (k & Hk & Hin).
          apply elem_of_seq in Hin. apply kth_name_inj in Hk. lia.
        - by apply stat_answers.
        - destruct m; [done|]. by apply numbered_entry.
        - destruct m; [done|]. by apply numbered_entry. }
      destruct m as [|m'] eqn:Em.
      - simpl in Hfree. rewrite Hfree. done.
      - replace (Z.of_nat (S m') =? 0) with false
          by (symmetry; apply Z.eqb_neq; lia).
        rewrite andb_false_l. f_equal. cbn [findNext].
        change (numbered (TrimSuffix name (Ext name)) (Z.of_nat (S (S m'))) (Ext name))
          with (kth_name name (S m')).
        by rewrite Hfree. }
    rewrite Hret. intros [= <-]. split; simpl.
    + rewrite length_app. simpl. rewrite Nat.add_1_r, seq_S, fmap_app. simpl.
      by rewrite <- (inv_handed _ _ _ Hinv).
    + rewrite lookup_insert_eq. simpl. rewrite length_app. simpl. f_equal. lia.
    + intros x Hx. apply elem_of_app. left. by apply (inv_dir _ _ _ Hinv).
    + intros v g. destruct (decide (w = v)) as [<-|Hne].
      * rewrite lookup_insert_eq. intros [= <-]. apply elem_of_app. right.
        by apply list_elem_of_singleton.
      * rewrite lookup_insert_ne by done. intros Hv. apply elem_of_app. left.
        by eapply (inv_assigned _ _ _ Hinv).
    + intros v. destruct (decide (w = v)) as [<-|Hne].
      * intros _. by eapply lookup_lt_Some.
      * rewrite lookup_insert_ne by done. apply (inv_workers _ _ _ Hinv).
    + rewrite length_app. simpl. rewrite map_size_insert_None by done.
      rewrite (inv_size _ _ _ Hinv). lia.
  - destruct (assigned st !! w) as [filename|] eqn:Hw; [|done].
    destruct (decide (w ∈ finished st)); [done|].
    destruct (downloadFile f (dir st) filename) as [dir' err] eqn:Hd.
    intros [= <-]. split; simpl; try apply Hinv.
    intros x Hx.
    assert (Hdir : dir' = dir st ∨ dir' = {[filename]} ∪ dir st).
    { unfold downloadFile in Hd. repeat case_match; simplify_eq; auto. }
    destruct Hdir as [-> | ->]; [by apply (inv_dir _ _ _ Hinv)|].
    apply elem_of_union in Hx as [->%elem_of_singleton | Hx].
    + by eapply (inv_assigned _ _ _ Hinv).
    + by apply (inv_dir _ _ _ Hinv).
Qed.

Lemma inv_run evs st st' :
  inv name links st → downloadAll links parallel evs st = Some st' → inv name links st'.
Proof.
  revert st. induction evs as [|ev evs IH]; intros st Hinv; simpl.
  - by intros [= <-].
  - destruct (step links parallel st ev) as [st1|] eqn:Hs; [|done].
    apply IH. by eapply inv_step.
Qed.
End SameName.




(** ** A run that hands out one name twice *)

(** C1: three links named [a.pdf], [a.pdf] and [a_2.pdf], an empty output
    directory and the default five slots.  When the three goroutines
    allocate before any download has created its file, the second and the
    third are both handed [a_2.pdf]; all three downloads are then counted as
    successes and the directory ends with two files. *)
Theorem suffixed_name_handed_out_twice :
  ∃ st, @Download.downloadAll Toy.fs clash_links 5 clash_schedule (Download.init ∅)
        = Some st
        ∧ Download.handed st = ["a.pdf"; "a_2.pdf"; "a_2.pdf"]
        ∧ ¬ NoDup (Download.handed st)
        ∧ Download.successCount st = 3
        ∧ size (Download.dir st) = 2%nat.
Proof.
  eexists. split; [vm_compute; reflexivity|].
  split; [reflexivity|]. split; [|split; reflexivity].
  intros Hnd. apply NoDup_cons in Hnd as [_ Hnd].
  apply NoDup_cons in Hnd as [Hnot _]. apply Hnot. by left.
Qed.

(** The three links are what the extraction returns for a page. *)
Example clash_links_extracted :
  @Extract.collectLinks Toy.unicode Toy.neturl (Toy.config "") None "/"
    Toy.clash_page = Some clash_links.
Proof. vm_compute. reflexivity. Qed.

(** The same happens with one desired name when the directory already holds
    a numbered file: the counter is not moved to the number that was found. *)
Example existing_numbered_file_breaks_counter :
  Download.handed <$>
    @Download.downloadAll Toy.fs report_links 5
      [Download.Allocate 0; Download.Allocate 1; Download.Allocate 2]
      (Download.init {["Report_2.pdf"]})
  = Some ["Report.pdf"; "Report_3.pdf"; "Report_3.pdf"].
Proof. vm_compute. reflexivity. Qed.


(** ** The sanitiser *)

Section SanitizeFacts.
Import Str Sanitize.

Lemma allBytes_app P s t : allBytes P (s +:+ t) = allBytes P s && allBytes P t.
Proof.
  induction s as [|c s IH]; [done|].
  rewrite str_app_cons. simpl. by rewrite IH, andb_assoc.
Qed.

Lemma allBytes_take P n s : allBytes P s = true → allBytes P (take n s) = true.
Proof.
  revert s. induction n as [|n IH]; intros [|c s]; simpl; try done.
  intros [Hc Hs]%andb_true_iff. by rewrite Hc, IH.
Qed.

Lemma clean_replaceInvalid s : clean (replaceInvalid s) = true.
Proof.
  unfold clean. induction s as [|c s IH]; [done|]. simpl.
  rewrite IH, andb_true_r. by destruct (invalid c) eqn:Hc; [|rewrite Hc].
Qed.

Lemma clean_collapseRuns b s : clean s = true → clean (collapseRuns b s) = true.
Proof.
  unfold clean. revert b. induction s as [|c s IH]; intros b; [done|]. simpl.
  intros [Hc Hs]%andb_true_iff.
  destruct (spaceOrUnderscore c); [destruct b|]; simpl; rewrite ?Hc, ?IH; done.
Qed.

Lemma clean_trimLeft cut s : clean s = true → clean (trimLeft cut s) = true.
Proof.
  unfold clean. induction s as [|c s IH]; [done|]. simpl.
  intros Hcs. destruct (cut c); [|done].
  apply andb_true_iff in Hcs as [_ Hs]. by apply IH.
Qed.

Lemma clean_trimRight cut s : clean s = true → clean (trimRight cut s) = true.
Proof.
  unfold clean. induction s as [|c s IH]; [done|]. simpl.
  intros [Hc Hs]%andb_true_iff. specialize (IH Hs).
  destruct (trimRight cut s) as [|d r].
  - destruct (cut c); simpl; [done | by rewrite Hc].
  - simpl in *. by rewrite Hc, IH.
Qed.

Lemma clean_Ext s : clean s = true → clean (Ext s) = true.
Proof.
  intros Hs. destruct (Ext_suffix s) as [p Hp]. unfold clean in *.
  rewrite Hp, allBytes_app in Hs. by apply andb_true_iff in Hs as [_ ?].
Qed.

Lemma clean_cleaned raw : clean (cleaned raw) = true.
Proof.
  unfold cleaned, Trim.
  apply clean_trimRight, clean_trimLeft, clean_collapseRuns, clean_replaceInvalid.
Qed.

Lemma len_nonempty s : (0 < len s)%nat → String.eqb s "" = false.
Proof. by destruct s; [simpl; lia|]. Qed.

(** Whenever [sanitizeFilename] returns, its result is not empty, has at
    most 200 bytes and contains no replaced character. *)
Lemma sanitizeFilename_safe raw r :
  sanitizeFilename raw = Some r →
  r ≠ "" ∧ (len r ≤ 200)%nat ∧ clean r = true.
Proof.
  unfold sanitizeFilename. fold (cleaned raw).
  pose proof (clean_cleaned raw) as Hclean.
  destruct (200 <? len (cleaned raw))%nat eqn:Hlen.
  - apply Nat.ltb_lt in Hlen.
    destruct (len (Ext (cleaned raw)) <=? 200)%nat eqn:Hext; [|done].
    apply Nat.leb_le in Hext.
    assert (Hl : len (take (200 - len (Ext (cleaned raw))) (cleaned raw)
                      +:+ Ext (cleaned raw)) = 200%nat).
    { rewrite str_len_app, str_len_take; lia. }
    rewrite len_nonempty by lia. intros [= <-]. split_and!.
    + intros Heq. rewrite Heq in Hl. done.
    + lia.
    + unfold clean. rewrite allBytes_app. apply andb_true_iff. split.
      * by apply allBytes_take.
      * by apply clean_Ext.
  - apply Nat.ltb_ge in Hlen.
    destruct (String.eqb (cleaned raw) "") eqn:He; intros [= <-].
    + split_and!; [done | simpl; lia | reflexivity].
    + apply String.eqb_neq in He. done.
Qed.

(** It panics exactly when the cleaned name is longer than 200 bytes and so
    is its extension. *)
Lemma sanitizeFilename_panics_iff raw :
  sanitizeFilename raw = None ↔
  (200 < len (cleaned raw))%nat ∧ (200 < len (Ext (cleaned raw)))%nat.
Proof.
  unfold sanitizeFilename. fold (cleaned raw).
  destruct (200 <? len (cleaned raw))%nat eqn:Hlen.
  - apply Nat.ltb_lt in Hlen.
    destruct (len (Ext (cleaned raw)) <=? 200)%nat eqn:Hext.
    + apply Nat.leb_le in Hext. split; [done | lia].
    + apply Nat.leb_gt in Hext. done.
  - apply Nat.ltb_ge in Hlen. split; [done | lia].
Qed.
End SanitizeFacts.

(** C2: on a link text whose extension is longer than 200 bytes the slice
    bound [200-len(ext)] is negative and [sanitizeFilename] panics instead
    of returning a name. *)
Theorem sanitizeFilename_panics_on_long_extension :
  Sanitize.sanitizeFilename long_extension_text = None.
Proof. vm_compute. reflexivity. Qed.

(** The panic is reached from a page: an anchor with this text and a
    matching target stops the extraction. *)
Example long_extension_stops_extraction :
  @Main.main Toy.unicode Toy.neturl Toy.regexp
    (Toy.web [ {| href := "/a.pdf"; text := long_extension_text |} ])
    (Toy.config "")
  = ([Extract.HttpGet "http://example.com/" "Mozilla/5.0"], Main.Exits 2).
Proof. vm_compute. reflexivity. Qed.

(** ** Outcomes of downloads *)

Section DownloadFacts.
Import Download.

Lemma add_one_ne x : GoInt.add x 1 ≠ x.
Proof.
  unfold GoInt.add, GoInt.wrap. intros Heq.
  pose proof (Z.div_mod (x + 1 + 2 ^ 63) (2 ^ 64) ltac:(lia)) as Hdm.
  lia.
Qed.

Lemma downloadFile_error f dir0 filename :
  (downloadFile f dir0 filename).2 ≠ None ↔ fetch_fails f.
Proof.
  unfold downloadFile, fetch_fails, StatusOK.
  destruct (newRequestErr f) as [e1|]; simpl; [split; [auto | done]|].
  destruct (doErr f) as [e2|]; simpl; [split; [auto | done]|].
  destruct (statusCode f =? 200) eqn:Hs; simpl.
  - apply Z.eqb_eq in Hs.
    destruct (createErr f) as [e3|]; simpl; [split; [auto 6 | done]|].
    split; [auto 6|]. intros [?|[?|[?|[?|?]]]]; done.
  - apply Z.eqb_neq in Hs. split; [auto | done].
Qed.
End DownloadFacts.

(** C4 as amended: the download of a link is recorded as failed exactly when
    building or sending the request fails, the status is not 200, or
    creating or writing the file fails, and as a success exactly when none
    of these happens. *)
Theorem download_outcome_recorded `{FileSystem}
    (links : list FileLink) (parallel : Z) (st st' : Download.State)
    (w : nat) (f : Download.Fetch) :
  Download.step links parallel st (Download.Fetched w f) = Some st' →
  (recorded_failure st st' ↔ fetch_fails f)
  ∧ (recorded_success st st' ↔ ¬ fetch_fails f).
Proof.
  simpl. destruct (Download.assigned st !! w) as [filename|]; [|done].
  destruct (decide (w ∈ Download.finished st)); [done|].
  pose proof (downloadFile_error f (Download.dir st) filename) as Herr.
  destruct (Download.downloadFile f (Download.dir st) filename) as [dir' err].
  simpl in Herr. intros [= <-]. unfold recorded_failure, recorded_success; simpl.
  destruct err as [e|].
  - assert (Hf : fetch_fails f) by (by apply Herr).
    split; split; try done.
    + intros [Hs _]. symmetry in Hs. by apply add_one_ne in Hs.
  - assert (Hf : ¬ fetch_fails f) by (intros Hf; by apply Herr in Hf).
    split; split; try done.
    + intros [Hs _]. symmetry in Hs. by apply add_one_ne in Hs.
Qed.

Lemma download_outcome_recorded_witness :
  ∃ st st',
    @Download.downloadAll Toy.fs clash_links 5 [Download.Allocate 0] (Download.init ∅) = Some st
    ∧ @Download.step Toy.fs clash_links 5 st (Download.Fetched 0 fetch_not_found) = Some st'
    ∧ (recorded_failure st st' ↔ fetch_fails fetch_not_found)
    ∧ (recorded_success st st' ↔ ¬ fetch_fails fetch_not_found).
Proof.
  eexists. eexists. split; [vm_compute; reflexivity|].
  split; [vm_compute; reflexivity|].
  eapply (@download_outcome_recorded Toy.fs clash_links 5 _ _ 0 fetch_not_found).
  vm_compute. reflexivity.
Defined.

(** C4 as stated fails: a [204] answer stored without error is a 2xx
    response whose body is written successfully, and it is recorded as a
    failure. *)
Lemma no_content_recorded_as_failure :
  ∃ st st',
    @Download.downloadAll Toy.fs clash_links 5 [Download.Allocate 0] (Download.init ∅) = Some st
    ∧ @Download.step Toy.fs clash_links 5 st (Download.Fetched 0 fetch_no_content) = Some st'
    ∧ recorded_failure st st'
    ∧ ¬ fetch_fails_2xx fetch_no_content.
Proof.
  eexists. eexists. split; [vm_compute; reflexivity|].
  split; [vm_compute; reflexivity|]. split.
  - split; vm_compute; reflexivity.
  - unfold fetch_fails_2xx, fetch_no_content; simpl.
    intros [?|[?|[Hs|[?|?]]]]; try done. apply Hs. lia.
Qed.

(** ** The page fetch and the include pattern *)

Section ExtractFacts.
Context `{Unicode} `{NetURL} `{Regexp} `{Web}.
Import Extract.

(** An extraction that returns links has issued the page request and
    nothing else. *)
Lemma extractLinks_ok_trace config tr links :
  extractLinks config = (tr, Returned (inr links)) →
  tr = [HttpGet (cfgURL config) (UserAgent config)].
Proof.
  unfold extractLinks. repeat case_match; intros [= <- ?]; try done.
Qed.

(** The links an extraction returns are the ones collected from the anchors
    of the page that was fetched. *)
Lemma extractLinks_ok_collected config tr links :
  extractLinks config = (tr, Returned (inr links)) →
  ∃ anchors baseURL includePattern,
    page_fetched config anchors baseURL
    ∧ collectLinks config includePattern baseURL anchors = Some links.
Proof.
  unfold extractLinks, page_fetched.
  destruct (http_NewRequest (cfgURL config)) as [e|] eqn:Hreq; [done|].
  destruct (client_Do (cfgURL config) (UserAgent config)) as [e|[status body]]
    eqn:Hdo; [done|].
  destruct (status =? 200) eqn:Hs; [|done]. apply Z.eqb_eq in Hs as ->. simpl.
  destruct (goquery_anchors body) as [e|anchors] eqn:Hdoc; [done|].
  destruct (url_Parse (cfgURL config)) as [e|baseURL] eqn:Hbase; [done|].
  intros Hret. exists anchors, baseURL.
  repeat case_match; simplify_eq; eauto 10.
Qed.

(** C5 as amended: with an include pattern that does not compile the
    extraction never returns links and never panics, it returns an error;
    when the page was fetched with status 200 and parsed, the error is the
    invalid-pattern error, and the page request has been issued by then. *)
Theorem invalid_pattern_fails_extraction (config : Config) (err : string) :
  Include config ≠ "" →
  regexp_Compile (Include config) = inl err →
  (∃ e, (extractLinks config).2 = Returned (inl e))
  ∧ ∀ anchors baseURL,
      page_fetched config anchors baseURL →
      extractLinks config =
        ([HttpGet (cfgURL config) (UserAgent config)],
         Returned (inl ("invalid include pattern: " +:+ err))).
Proof.
  intros Hne%String.eqb_neq Hre. split.
  - unfold extractLinks. rewrite Hne, Hre. simpl.
    repeat case_match; simpl; eauto.
  - intros anchors baseURL (Hreq & (body & Hdo & Hdoc) & Hbase).
    unfold extractLinks. rewrite Hreq, Hdo. simpl.
    by rewrite Hdoc, Hbase, Hne, Hre.
Qed.

(** C10: when the extraction returns no link, [main] prints the message
    and ends with status 0; it has issued the page request and nothing
    else: no directory is created and no download is started, whatever
    the list-only flag. *)
Theorem no_candidates_no_download (config : Config) (tr : list IOEvent) :
  cfgURL config ≠ "" →
  extractLinks config = (tr, Returned (inr [])) →
  Main.main config =
    ([HttpGet (cfgURL config) (UserAgent config);
      Stdout ("No matching files found." +:+ Main.nl)], Main.Exits 0)
  ∧ ∀ e, e ∈ (Main.main config).1 →
      (∀ path, e ≠ MkdirAll path) ∧ (∀ links, e ≠ DownloadAll links).
Proof.
  intros Hurl Hex.
  assert (Hmain : Main.main config =
    ([HttpGet (cfgURL config) (UserAgent config);
      Stdout ("No matching files found." +:+ Main.nl)], Main.Exits 0)).
  { unfold Main.main. apply String.eqb_neq in Hurl. rewrite Hurl, Hex. simpl.
    by rewrite (extractLinks_ok_trace _ _ _ Hex). }
  split; [done|]. rewrite Hmain. simpl. intros e He.
  apply elem_of_cons in He as [-> | He]; [done|].
  apply elem_of_cons in He as [-> | He]; [done|].
  by apply elem_of_nil in He.
Qed.

(** C8: for the page with the anchors [Report One] and [Duplicate], both
    to [/a.pdf], and the default extensions, the extraction returns exactly
    one link, named [Report_One.pdf]. *)
Theorem duplicate_anchor_scenario (config : Config) (baseURL u : URLT) :
  page_fetched config
    [ {| href := "/a.pdf"; text := "Report One" |};
      {| href := "/a.pdf"; text := "Duplicate" |} ] baseURL →
  URL_Parse baseURL "/a.pdf" = Some u →
  URL_Path u = "/a.pdf" →
  All config = false →
  Exts config = Flags.parseExts false Flags.defaultExts →
  Include config = "" →
  extractLinks config =
    ([HttpGet (cfgURL config) (UserAgent config)],
     Returned (inr [ {| Name := "Report_One.pdf"; URL := URL_String u |} ])).
Proof.
  intros (Hreq & (body & Hdo & Hdoc) & Hbase) Hu Hpath Hall Hexts Hinc.
  assert (Hext : GoStrings.ToLower (Str.Ext "/a.pdf") = ".pdf") by reflexivity.
  assert (Hok : existsb (String.eqb ".pdf")
                  (Flags.parseExts false Flags.defaultExts) = true)
    by reflexivity.
  assert (Hfirst : visit config None baseURL ([], ∅)
            {| href := "/a.pdf"; text := "Report One" |}
          = Some ([ {| Name := "Report_One.pdf"; URL := URL_String u |} ],
                  {[URL_String u]} ∪ ∅)).
  { unfold visit. cbn [href text].
    change (String.eqb "/a.pdf" "" || Str.HasPrefix "/a.pdf" "#"
            || Str.HasPrefix "/a.pdf" "javascript:") with false.
    cbv iota. rewrite Hu.
    destruct (decide (URL_String u ∈ (∅ : gset string))) as [Hin|_];
      [by apply not_elem_of_empty in Hin|].
    unfold checkExtension. rewrite Hpath, Hall, Hexts, Hext, Hok. reflexivity. }
  assert (Hsecond : visit config None baseURL
            ([ {| Name := "Report_One.pdf"; URL := URL_String u |} ],
             {[URL_String u]} ∪ ∅)
            {| href := "/a.pdf"; text := "Duplicate" |}
          = Some ([ {| Name := "Report_One.pdf"; URL := URL_String u |} ],
                  {[URL_String u]} ∪ ∅)).
  { unfold visit. cbn [href text].
    change (String.eqb "/a.pdf" "" || Str.HasPrefix "/a.pdf" "#"
            || Str.HasPrefix "/a.pdf" "javascript:") with false.
    cbv iota. rewrite Hu.
    destruct (decide (URL_String u ∈ ({[URL_String u]} ∪ ∅ : gset string)))
      as [_|Hout]; [done|].
    exfalso. apply Hout. apply elem_of_union. left. by apply elem_of_singleton. }
  unfold extractLinks. rewrite Hreq, Hdo.
  change (negb (200 =? 200)) with false. cbv iota.
  rewrite Hdoc, Hbase, Hinc.
  change (negb (String.eqb "" "")) with false. cbv iota.
  unfold collectLinks, each. rewrite Hfirst, Hsecond. reflexivity.
Qed.
End ExtractFacts.

Lemma invalid_pattern_fails_extraction_witness :
  (∃ e, (@Extract.extractLinks Toy.unicode Toy.neturl Toy.regexp
           (Toy.web Toy.report_page) (Toy.config "[")).2
        = Extract.Returned (inl e))
  ∧ ∀ anchors baseURL,
      @page_fetched Toy.neturl (Toy.web Toy.report_page)
        (Toy.config "[") anchors baseURL →
      @Extract.extractLinks Toy.unicode Toy.neturl Toy.regexp
        (Toy.web Toy.report_page) (Toy.config "[")
      = ([Extract.HttpGet "http://example.com/" "Mozilla/5.0"],
         Extract.Returned
           (inl ("invalid include pattern: " +:+ "error parsing regexp"))).
Proof.
  apply (@invalid_pattern_fails_extraction Toy.unicode Toy.neturl Toy.regexp
           (Toy.web Toy.report_page) (Toy.config "[") "error parsing regexp").
  - discriminate.
  - reflexivity.
Defined.

(** C5 as stated fails: the include pattern does not compile, and the page
    request is issued all the same, before the pattern is looked at. *)
Lemma invalid_pattern_detected_after_fetch :
  @regexp_Compile Toy.regexp (Include (Toy.config "[")) = inl "error parsing regexp"
  ∧ Extract.HttpGet "http://example.com/" "Mozilla/5.0"
    ∈ (@Extract.extractLinks Toy.unicode Toy.neturl Toy.regexp
         (Toy.web Toy.report_page) (Toy.config "[")).1.
Proof. split; [reflexivity|]. vm_compute. by left. Qed.

Lemma no_candidates_no_download_witness :
  @Main.main Toy.unicode Toy.neturl Toy.regexp (Toy.web []) (Toy.config "")
  = ([Extract.HttpGet "http://example.com/" "Mozilla/5.0";
      Extract.Stdout ("No matching files found." +:+ Main.nl)], Main.Exits 0)
  ∧ ∀ e, e ∈ (@Main.main Toy.unicode Toy.neturl Toy.regexp (Toy.web [])
                (Toy.config "")).1 →
      (∀ path, e ≠ Extract.MkdirAll path)
      ∧ (∀ links, e ≠ Extract.DownloadAll links).
Proof.
  apply (@no_candidates_no_download Toy.unicode Toy.neturl Toy.regexp
           (Toy.web []) (Toy.config "")
           [Extract.HttpGet "http://example.com/" "Mozilla/5.0"]).
  - discriminate.
  - reflexivity.
Defined.

Lemma duplicate_anchor_scenario_witness :
  @Extract.extractLinks Toy.unicode Toy.neturl Toy.regexp
    (Toy.web Toy.report_page) (Toy.config "")
  = ([Extract.HttpGet "http://example.com/" "Mozilla/5.0"],
     Extract.Returned
       (inr [ {| Name := "Report_One.pdf"; URL := "http://example.com/a.pdf" |} ])).
Proof.
  apply (@duplicate_anchor_scenario Toy.unicode Toy.neturl Toy.regexp
           (Toy.web Toy.report_page) (Toy.config "") "/" "/a.pdf").
  - split; [reflexivity|]. split; [|reflexivity].
    eexists. split; reflexivity.
  - reflexivity.
  - reflexivity.
  - reflexivity.
  - reflexivity.
  - reflexivity.
Defined.

(** ** The extension check *)

Section SuffixFacts.
Import Str.

Lemma HasSuffix_iff s v : HasSuffix s v = true ↔ ∃ q, s = q +:+ v.
Proof.
  split.
  - intros Hs. exists (take (len s - len v) s). symmetry. by apply HasSuffix_spec.
  - intros [q ->]. apply HasSuffix_app.
Qed.

(** Two ways of splitting one string: one suffix is a suffix of the other. *)
Lemma app_eq_app p s q v :
  p +:+ s = q +:+ v →
  (∃ r, s = r +:+ v) ∨ (∃ r, v = String.app r s ∧ r ≠ "").
Proof.
  revert q. induction p as [|c p IH]; intros q Heq.
  - left. exists q. by rewrite str_app_nil_l in Heq.
  - destruct q as [|d q].
    + right. exists (String c p). by rewrite str_app_nil_l in Heq.
    + rewrite !str_app_cons in Heq. injection Heq as _ Heq. by eapply IH.
Qed.

Lemma scanExt_app p e e' : scanExt e = Some e' → scanExt (p +:+ e) = Some e'.
Proof.
  intros He. induction p as [|c p IH]; [done|].
  rewrite str_app_cons. simpl. by rewrite IH.
Qed.

(** The extension of a path is decided by any suffix in which the scan stops. *)
Lemma Ext_app p e e' : scanExt e = Some e' → Ext (p +:+ e) = e'.
Proof. intros He. unfold Ext. by rewrite (scanExt_app p e e' He). Qed.
End SuffixFacts.

Section FilterFacts.
Import Str Extract.

Lemma existsb_flat_map {A B} (f : B → bool) (g : A → list B) (l : list A) :
  existsb f (flat_map g l) = existsb (λ x, existsb f (g x)) l.
Proof.
  induction l as [|x l IH]; [done|].
  cbn [flat_map existsb]. by rewrite existsb_app, IH.
Qed.

Lemma MatchString_suffixes path :
  fileExtPattern_MatchString path = existsb (HasSuffix path) knownSuffixes.
Proof.
  unfold fileExtPattern_MatchString, knownSuffixes.
  by rewrite existsb_flat_map.
Qed.

Lemma MatchString_app_true p s :
  existsb (String.eqb s) knownSuffixes = true →
  fileExtPattern_MatchString (p +:+ s) = true.
Proof.
  rewrite MatchString_suffixes. intros (v & Hin & Hv%String.eqb_eq)%existsb_exists.
  subst v. apply existsb_exists. exists s. split; [done|]. apply HasSuffix_app.
Qed.

(** A path ending in [s] does not match when no known suffix is a suffix of
    [s] or has [s] as a proper suffix. *)
Lemma MatchString_app_false p s :
  forallb (λ v, negb (HasSuffix s v) && negb (HasSuffix v s)) knownSuffixes = true →
  fileExtPattern_MatchString (p +:+ s) = false.
Proof.
  rewrite MatchString_suffixes. intros Hall.
  apply not_true_is_false. intros (v & Hin & Hv)%existsb_exists.
  rewrite forallb_forall in Hall. specialize (Hall v Hin).
  apply andb_true_iff in Hall as [H1%negb_true_iff H2%negb_true_iff].
  apply HasSuffix_iff in Hv as [q Hq].
  apply app_eq_app in Hq as [[r ->] | (r & -> & _)].
  - by rewrite HasSuffix_app in H1.
  - by rewrite HasSuffix_app in H2.
Qed.
End FilterFacts.

Section ExtensionFilter.
Context `{Unicode}.
Import Extract.

(** C7: with the extension list [pdf,docx] a path passes the extension
    check exactly when its lower-cased extension is [.pdf] or [.docx]: paths
    ending in [.pdf], [.PDF] and [.docx] pass, paths ending in [.txt] and
    [.pdfx] are rejected; in all mode a path ending in [.zip] passes and a
    path ending in [.html] is rejected. *)
Theorem extension_filtering (listCfg allCfg : Config) (p : string) :
  All listCfg = false →
  Exts listCfg = Flags.parseExts false "pdf,docx" →
  All allCfg = true →
  (∀ path, checkExtension listCfg path = true
           ↔ GoStrings.ToLower (Str.Ext path) ∈ [".pdf"; ".docx"])
  ∧ checkExtension listCfg (p +:+ ".pdf") = true
  ∧ checkExtension listCfg (p +:+ ".PDF") = true
  ∧ checkExtension listCfg (p +:+ ".docx") = true
  ∧ checkExtension listCfg (p +:+ ".txt") = false
  ∧ checkExtension listCfg (p +:+ ".pdfx") = false
  ∧ checkExtension allCfg (p +:+ ".zip") = true
  ∧ checkExtension allCfg (p +:+ ".html") = false.
Proof.
  intros Hlist Hexts Hall.
  assert (Hparsed : Flags.parseExts false "pdf,docx" = [".pdf"; ".docx"])
    by reflexivity.
  assert (Hl : ∀ e e', Str.scanExt e = Some e' →
            checkExtension listCfg (p +:+ e)
            = existsb (String.eqb (GoStrings.ToLower e')) [".pdf"; ".docx"]).
  { intros e e' He. unfold checkExtension.
    by rewrite Hlist, Hexts, Hparsed, (Ext_app p e e' He). }
  split_and!.
  - intros path. unfold checkExtension. rewrite Hlist, Hexts, Hparsed.
    rewrite existsb_exists. split.
    + intros (x & Hin & ->%String.eqb_eq). by apply list_elem_of_In.
    + intros Hin. eexists. split; [by apply list_elem_of_In|]. apply String.eqb_refl.
  - by rewrite (Hl ".pdf" ".pdf").
  - by rewrite (Hl ".PDF" ".PDF").
  - by rewrite (Hl ".docx" ".docx").
  - by rewrite (Hl ".txt" ".txt").
  - by rewrite (Hl ".pdfx" ".pdfx").
  - unfold checkExtension. rewrite Hall. apply MatchString_app_true.
    vm_compute. reflexivity.
  - unfold checkExtension. rewrite Hall. apply MatchString_app_false.
    vm_compute. reflexivity.
Qed.
End ExtensionFilter.

Lemma extension_filtering_witness :
  (∀ path, @Extract.checkExtension Toy.unicode Toy.config_pdf_docx path = true
           ↔ @GoStrings.ToLower Toy.unicode (Str.Ext path) ∈ [".pdf"; ".docx"])
  ∧ @Extract.checkExtension Toy.unicode Toy.config_pdf_docx ("/docs/report" +:+ ".pdf") = true
  ∧ @Extract.checkExtension Toy.unicode Toy.config_pdf_docx ("/docs/report" +:+ ".PDF") = true
  ∧ @Extract.checkExtension Toy.unicode Toy.config_pdf_docx ("/docs/report" +:+ ".docx") = true
  ∧ @Extract.checkExtension Toy.unicode Toy.config_pdf_docx ("/docs/report" +:+ ".txt") = false
  ∧ @Extract.checkExtension Toy.unicode Toy.config_pdf_docx ("/docs/report" +:+ ".pdfx") = false
  ∧ @Extract.checkExtension Toy.unicode Toy.config_all ("/docs/report" +:+ ".zip") = true
  ∧ @Extract.checkExtension Toy.unicode Toy.config_all ("/docs/report" +:+ ".html") = false.
Proof.
  apply (@extension_filtering Toy.unicode Toy.config_pdf_docx Toy.config_all
           "/docs/report"); reflexivity.
Defined.

(** ** Deduplication of the links *)

Section DedupFacts.
Context `{Unicode} `{NetURL}.
Import Str GoStrings Sanitize Extract.

Variable config : Config.
Variable includePattern : option (string → bool).
Variable baseURL : URLT.

(** The closure, case by case. *)
Lemma visit_spec links seen s :
  visit config includePattern baseURL (links, seen) s =
    match resolved baseURL s with
    | None => Some (links, seen)
    | Some u =>
        if decide (URL_String u ∈ seen) then Some (links, seen)
        else if accepted config includePattern u then
          match derivedName s u with
          | None => None
          | Some nm =>
              Some (links ++ [{| Name := nm; URL := URL_String u |}],
                    {[URL_String u]} ∪ seen)
          end
        else Some (links, seen)
    end.
Proof.
  unfold visit, resolved, accepted, derivedName.
  destruct (String.eqb (href s) "" || HasPrefix (href s) "#"
            || HasPrefix (href s) "javascript:"); [done|].
  destruct (URL_Parse baseURL (href s)) as [u|]; [|done].
  destruct (decide (URL_String u ∈ seen)); [done|].
  destruct (checkExtension config (URL_Path u)); simpl; [|done].
  destruct includePattern as [re|]; simpl.
  - destruct (re (URL_String u)); simpl; [|done].
    by destruct (sanitizeFilename _).
  - by destruct (sanitizeFilename _).
Qed.

Lemma loop_inv_init : loop_inv config includePattern baseURL [] [] ∅.
Proof.
  split.
  - intros x. rewrite fmap_nil. split; intros Hx;
      [by apply not_elem_of_empty in Hx | by apply not_elem_of_nil in Hx].
  - rewrite fmap_nil. apply NoDup_nil_2.
  - intros fl. split; [intros Hx; by apply not_elem_of_nil in Hx|].
    intros (i & s & u & Hi & _). by rewrite lookup_nil in Hi.
  - intros j t v Hj. by rewrite lookup_nil in Hj.
Qed.

Lemma first_accepted_snoc pre s i url :
  (i < length pre)%nat →
  first_accepted config includePattern baseURL (pre ++ [s]) i url
  ↔ first_accepted config includePattern baseURL pre i url.
Proof.
  intros Hi. unfold first_accepted. split; intros Hf j t v Hj Ht.
  - apply (Hf j t v Hj). rewrite lookup_app_l; [done | lia].
  - apply (Hf j t v Hj). rewrite lookup_app_l in Ht; [done | lia].
Qed.

(** Links kept from [pre] are kept from [pre ++ [s]], and the only other
    link that can be kept is one made from [s]. *)
Lemma kept_snoc pre s fl :
  kept config includePattern baseURL (pre ++ [s]) fl ↔
  kept config includePattern baseURL pre fl
  ∨ ∃ u, resolved baseURL s = Some u ∧ accepted config includePattern u = true
         ∧ first_accepted config includePattern baseURL pre (length pre) (URL_String u)
         ∧ derivedName s u = Some (Name fl) ∧ URL fl = URL_String u.
Proof.
  split.
  - intros (i & t & u & Hi & Hr & Ha & Hf & Hn & Hu).
    destruct (decide (i < length pre)%nat) as [Hlt|Hge].
    + left. exists i, t, u. rewrite lookup_app_l in Hi by done.
      split_and!; try done. by apply first_accepted_snoc in Hf.
    + right. assert (i = length pre) as ->.
      { apply lookup_lt_Some in Hi. rewrite length_app in Hi. simpl in Hi. lia. }
      rewrite list_lookup_middle in Hi by done. injection Hi as <-.
      exists u. split_and!; try done.
      intros j t' v Hj Ht'. apply (Hf j t' v Hj).
      rewrite lookup_app_l; [done | lia].
  - intros [(i & t & u & Hi & Hr & Ha & Hf & Hn & Hu) | (u & Hr & Ha & Hf & Hn & Hu)].
    + exists i, t, u. pose proof (lookup_lt_Some _ _ _ Hi) as Hlt.
      rewrite lookup_app_l by done. split_and!; try done.
      by apply first_accepted_snoc.
    + exists (length pre), s, u. rewrite list_lookup_middle by done.
      split_and!; try done.
      intros j t' v Hj Ht'. apply (Hf j t' v Hj).
      rewrite lookup_app_l in Ht'; [done | lia].
Qed.

Lemma loop_inv_same pre links seen s :
  loop_inv config includePattern baseURL pre links seen →
  (∀ u, resolved baseURL s = Some u → accepted config includePattern u = true →
        URL_String u ∈ seen) →
  loop_inv config includePattern baseURL (pre ++ [s]) links seen.
Proof.
  intros [Hseen Hnd Hkept Hdone] Hs. split; [done | done | |].
  - intros fl. rewrite Hkept, kept_snoc. split; [auto|].
    intros [Hk | (u & Hr & Ha & Hf & Hn & Hu)]; [done|]. exfalso.
    pose proof (Hs u Hr Ha) as Hin. apply Hseen in Hin.
    apply list_elem_of_fmap in Hin as (fl0 & Hurl & Hfl0).
    apply Hkept in Hfl0 as (i & t & v & Hi & Hr' & Ha' & _ & _ & Hu').
    apply (Hf i t v); [by eapply lookup_lt_Some | done | done | done | congruence].
  - intros j t v Hj Hr Ha.
    apply lookup_app_Some in Hj as [Hj | [_ Hj]]; [by eapply Hdone|].
    apply list_lookup_singleton_Some in Hj as [_ <-]. by apply Hs.
Qed.

Lemma loop_inv_step pre links seen s links' seen' :
  loop_inv config includePattern baseURL pre links seen →
  visit config includePattern baseURL (links, seen) s = Some (links', seen') →
  loop_inv config includePattern baseURL (pre ++ [s]) links' seen'.
Proof.
  intros Hinv. rewrite visit_spec.
  destruct (resolved baseURL s) as [u|] eqn:Hr.
  2: { intros [= <- <-]. apply loop_inv_same; [done|]. intros u' Hu'. congruence. }
  destruct (decide (URL_String u ∈ seen)) as [Hin|Hout].
  { intros [= <- <-]. apply loop_inv_same; [done|]. intros u' Hu' _.
    by replace u' with u by congruence. }
  destruct (accepted config includePattern u) eqn:Ha.
  2: { intros [= <- <-]. apply loop_inv_same; [done|]. intros u' Hu' Ha'.
       replace u' with u in Ha' by congruence. congruence. }
  destruct (derivedName s u) as [nm|] eqn:Hn; [|done].
  intros [= <- <-]. destruct Hinv as [Hseen Hnd Hkept Hdone]. split.
  - intros x. rewrite fmap_app, elem_of_union, elem_of_app, elem_of_singleton. simpl.
    rewrite Hseen, list_elem_of_singleton. tauto.
  - rewrite fmap_app. simpl. apply NoDup_app. split_and!; [done| |apply NoDup_singleton].
    intros x Hx ->%list_elem_of_singleton. by apply Hseen in Hx.
  - intros fl. rewrite elem_of_app, list_elem_of_singleton, Hkept, kept_snoc.
    split; (intros [Hk | Hk]; [by left | right]).
    + subst fl. exists u. simpl. split_and!; try done.
      intros j t v Hj Ht Hrv Hav Heq. apply Hout. rewrite <- Heq. by eapply Hdone.
    + destruct Hk as (u' & Hr' & _ & _ & Hn' & Hu').
      replace u' with u in * by congruence.
      destruct fl as [n' url']. simpl in *. congruence.
  - intros j t v Hj Hrv Hav.
    apply lookup_app_Some in Hj as [Hj | [_ Hj]].
    + apply elem_of_union. right. by eapply Hdone.
    + apply list_lookup_singleton_Some in Hj as [_ <-].
      assert (v = u) as -> by congruence.
      apply elem_of_union. left. by apply elem_of_singleton.
Qed.

Lemma loop_inv_each anchors pre links seen links' seen' :
  loop_inv config includePattern baseURL pre links seen →
  each config includePattern baseURL anchors (links, seen) = Some (links', seen') →
  loop_inv config includePattern baseURL (pre ++ anchors) links' seen'.
Proof.
  revert pre links seen. induction anchors as [|s anchors IH]; intros pre links seen Hinv.
  - simpl. intros [= <- <-]. by rewrite app_nil_r.
  - cbn [each]. destruct (visit config includePattern baseURL (links, seen) s)
      as [[links1 seen1]|] eqn:Hv; [|done].
    intros Hrest. rewrite (cons_middle s pre anchors), app_assoc.
    eapply IH; [|exact Hrest]. by eapply loop_inv_step.
Qed.

(** When the path of a URL is a function of its string, the filters accept
    two URLs with one string alike. *)
Lemma accepted_by_string u v :
  (∀ u v : URLT, URL_String u = URL_String v → URL_Path u = URL_Path v) →
  URL_String u = URL_String v →
  accepted config includePattern u = accepted config includePattern v.
Proof. intros Hp Huv. unfold accepted. by rewrite (Hp u v Huv), Huv. Qed.
End DedupFacts.

Section Dedup.
Context `{Unicode} `{NetURL}.
Import Extract.

(** C3: the links collected from the anchors of a document have pairwise
    distinct resolved URLs; a link is in the list exactly when it is made
    from an anchor that passes the filters and no earlier anchor passing
    them has the same resolved URL; and when the path of a URL is a function
    of its string (as it is for [net/url]), every link in the list is made
    from the first anchor of the document that resolves to its URL. *)
Theorem extracted_links_deduplicated
    (config : Config) (includePattern : option (string → bool)) (baseURL : URLT)
    (anchors : list Anchor) (links : list FileLink) :
  collectLinks config includePattern baseURL anchors = Some links →
  NoDup (URL <$> links)
  ∧ (∀ fl, fl ∈ links ↔ kept config includePattern baseURL anchors fl)
  ∧ ((∀ u v : URLT, URL_String u = URL_String v → URL_Path u = URL_Path v) →
     ∀ fl, fl ∈ links → kept_first baseURL anchors fl).
Proof.
  unfold collectLinks. intros Hc.
  destruct (each config includePattern baseURL anchors ([], ∅))
    as [[links' seen']|] eqn:He; [|done].
  injection Hc as ->.
  pose proof (loop_inv_each config includePattern baseURL anchors [] [] ∅ _ _
                (loop_inv_init config includePattern baseURL) He) as Hinv.
  rewrite app_nil_l in Hinv. destruct Hinv as [_ Hnd Hkept _].
  split_and!; [done | done |].
  intros Hpath fl (i & s & u & Hi & Hr & Ha & Hf & Hn & Hu)%Hkept.
  exists i, s, u. split_and!; try done.
  intros j t v Hj Ht Hrv Heq. apply (Hf j t v Hj Ht Hrv); [|done].
  by rewrite (accepted_by_string config includePattern v u Hpath Heq).
Qed.
End Dedup.

Lemma extracted_links_deduplicated_witness :
  let links := [ {| Name := "Report_One.pdf"; URL := "http://example.com/a.pdf" |} ] in
  NoDup (URL <$> links)
  ∧ (∀ fl, fl ∈ links
           ↔ @kept Toy.unicode Toy.neturl (Toy.config "") None "/" Toy.report_page fl)
  ∧ ∀ fl, fl ∈ links → @kept_first Toy.unicode Toy.neturl "/" Toy.report_page fl.
Proof.
  destruct (@extracted_links_deduplicated Toy.unicode Toy.neturl
              (Toy.config "") None "/" Toy.report_page
              [ {| Name := "Report_One.pdf"; URL := "http://example.com/a.pdf" |} ])
    as (Hnd & Hkept & Hfirst); [vm_compute; reflexivity|].
  split_and!; [exact Hnd | exact Hkept |].
  apply Hfirst. intros u v Huv. simpl in *. by apply String.app_inj in Huv.
Defined.

(** * Further properties *)

(** ** The counters, the directory and the semaphore of a run *)

Section RunFacts.
Context `{FileSystem}.
Import Alloc Download.

Lemma fetch_failed_spec f : fetch_failed f = true ↔ fetch_fails f.
Proof.
  unfold fetch_failed, fetch_fails.
  destruct (newRequestErr f), (doErr f), (createErr f), (copyErr f);
    try (split; [intros _; auto 6 | done]).
  rewrite negb_true_iff, Z.eqb_neq. split; [auto|].
  intros [?|[?|[?|[?|?]]]]; done.
Qed.

Lemma downloadFile_failed f dir0 filename :
  (downloadFile f dir0 filename).2 = None ↔ fetch_failed f = false.
Proof.
  pose proof (downloadFile_error f dir0 filename) as He.
  pose proof (fetch_failed_spec f) as Hs.
  destruct (fetch_failed f), ((downloadFile f dir0 filename).2); split; try done.
  - intros _. exfalso. assert (fetch_fails f) as Hf by tauto.
    apply He in Hf. done.
  - intros _. assert (fetch_fails f) as Hf by (apply He; done).
    apply Hs in Hf. done.
Qed.

Lemma downloadAll_app links parallel evs1 evs2 st :
  downloadAll links parallel (evs1 ++ evs2) st =
    match downloadAll links parallel evs1 st with
    | Some st1 => downloadAll links parallel evs2 st1
    | None => None
    end.
Proof.
  revert st. induction evs1 as [|ev evs1 IH]; intros st; [done|].
  cbn [app downloadAll]. destruct (step links parallel st ev); [apply IH | done].
Qed.

(** An invariant of the steps holds after every run. *)
Lemma downloadAll_ind (P : State → Prop) links parallel :
  (∀ st ev st', P st → step links parallel st ev = Some st' → P st') →
  ∀ evs st st', P st → downloadAll links parallel evs st = Some st' → P st'.
Proof.
  intros Hstep evs. induction evs as [|ev evs IH]; intros st st' HP; cbn [downloadAll].
  - by intros [= <-].
  - destruct (step links parallel st ev) as [st1|] eqn:Hs; [|done].
    apply IH. by eapply Hstep.
Qed.

Lemma downloadFile_dir f dir0 filename :
  (downloadFile f dir0 filename).1 = dir0
  ∨ (downloadFile f dir0 filename).1 = {[filename]} ∪ dir0.
Proof. unfold downloadFile. repeat case_match; simpl; auto. Qed.

Lemma dir_inv_init dir0 : dir_inv dir0 (init dir0).
Proof.
  split; simpl; [done | auto | |].
  - intros x Hx. by apply not_elem_of_nil in Hx.
  - intros w x Hw. by rewrite lookup_empty in Hw.
Qed.

Lemma dir_inv_step dir0 links parallel st ev st' :
  dir_inv dir0 st → step links parallel st ev = Some st' → dir_inv dir0 st'.
Proof.
  intros [Hk Hn Hf Ha]. destruct ev as [w | w f]; cbn [step].
  - destruct (links !! w) as [link|]; [|done].
    destruct (assigned st !! w) eqn:Hw; [done|].
    destruct (inflight st <? parallel); [|done].
    destruct (getUniqueFilename (dir st) (Name link) (usedNames st))
      as [used' [r|]] eqn:Hg; [|done].
    apply getUniqueFilename_returned in Hg.
    intros [= <-]. split; simpl.
    + done.
    + intros x Hx. destruct (Hn x Hx); [by left | right].
      apply elem_of_app. by left.
    + intros x [Hx | ->%list_elem_of_singleton]%elem_of_app; [by apply Hf|].
      intros Hin. apply Hg. by apply Hk.
    + intros v x. destruct (decide (w = v)) as [<-|Hne].
      * rewrite lookup_insert_eq. intros [= <-]. apply elem_of_app. right.
        by apply list_elem_of_singleton.
      * rewrite lookup_insert_ne by done. intros Hv. apply elem_of_app. left.
        by eapply Ha.
  - destruct (assigned st !! w) as [filename|] eqn:Hw; [|done].
    destruct (decide (w ∈ finished st)); [done|].
    pose proof (downloadFile_dir f (dir st) filename) as Hd.
    destruct (downloadFile f (dir st) filename) as [dir' err]. simpl in Hd.
    intros [= <-]. split; simpl; try done.
    + destruct Hd as [-> | ->]; [done|]. set_solver.
    + intros x Hx. destruct Hd as [-> | ->]; [by apply Hn|].
      apply elem_of_union in Hx as [->%elem_of_singleton | Hx]; [|by apply Hn].
      right. by eapply Ha.
Qed.
End RunFacts.

Section RunFacts2.
Context `{FileSystem}.
Import Alloc Download.

Lemma in_range_add a b : GoInt.in_range (GoInt.add a b).
Proof. apply wrap_in_range. Qed.

(** The counters of [downloadAll] after a run, modulo the width of [int]. *)
Lemma tally_run links parallel evs st st' :
  downloadAll links parallel evs st = Some st' →
  GoInt.wrap (failCount st') = GoInt.wrap (failCount st + Z.of_nat (failures evs))
  ∧ GoInt.wrap (successCount st')
    = GoInt.wrap (successCount st + Z.of_nat (successes evs)).
Proof.
  revert st. induction evs as [|ev evs IH]; intros st; cbn [downloadAll].
  - intros [= <-]. simpl. by rewrite !Z.add_0_r.
  - destruct (step links parallel st ev) as [st1|] eqn:Hs; [|done].
    intros Hrun. destruct (IH st1 Hrun) as [Hf Hsucc]. rewrite Hf, Hsucc. clear IH Hf Hsucc Hrun.
    destruct ev as [w | w f]; cbn [step] in Hs.
    + repeat case_match; simplify_eq; simpl; done.
    + destruct (assigned st !! w) as [filename|]; [|done].
      destruct (decide (w ∈ finished st)); [done|].
      pose proof (downloadFile_failed f (dir st) filename) as Hd.
      destruct (downloadFile f (dir st) filename) as [dir' err]. simpl in Hd.
      injection Hs as <-. cbn [failures successes failCount successCount].
      destruct err as [e|].
      * destruct (fetch_failed f); [|by destruct Hd as [_ Hd]; specialize (Hd eq_refl)].
        unfold GoInt.add. rewrite wrap_add_l. split; f_equal; lia.
      * rewrite (proj1 Hd eq_refl).
        unfold GoInt.add. rewrite wrap_add_l. split; f_equal; lia.
Qed.

Lemma counts_in_range links parallel st ev st' :
  GoInt.in_range (failCount st) ∧ GoInt.in_range (successCount st) →
  step links parallel st ev = Some st' →
  GoInt.in_range (failCount st') ∧ GoInt.in_range (successCount st').
Proof.
  intros [Hf Hs]. destruct ev as [w | w f]; cbn [step].
  - repeat case_match; intros [= <-]; simpl; done.
  - destruct (assigned st !! w); [|done].
    destruct (decide (w ∈ finished st)); [done|].
    destruct (downloadFile f (dir st) _) as [dir' [e|]]; intros [= <-]; simpl;
      split; try done; apply wrap_in_range.
Qed.

Lemma failures_successes_le evs :
  (failures evs + successes evs ≤ length evs)%nat.
Proof.
  induction evs as [|[w|w f] evs IH]; simpl; [lia | lia |].
  destruct (fetch_failed f); lia.
Qed.
End RunFacts2.

(** The final tally is exact: after any run of the download phase (with
    fewer than [2^63] steps) [failCount] is the number of downloads that
    ended with an error and [successCount] the number of those that did
    not, whatever the interleaving. *)
Theorem tally_exact `{FileSystem} (links : list FileLink) (parallel : Z)
    (evs : list Download.Event) (dir0 : gset string) (st : Download.State) :
  Download.downloadAll links parallel evs (Download.init dir0) = Some st →
  Z.of_nat (length evs) < 2 ^ 63 →
  Download.failCount st = Z.of_nat (failures evs)
  ∧ Download.successCount st = Z.of_nat (successes evs).
Proof.
  intros Hrun Hlen.
  destruct (tally_run _ _ _ _ _ Hrun) as [Hf Hs].
  assert (Hr : GoInt.in_range (Download.failCount st)
               ∧ GoInt.in_range (Download.successCount st)).
  { eapply (downloadAll_ind
              (λ s, GoInt.in_range (Download.failCount s)
                    ∧ GoInt.in_range (Download.successCount s)));
      [apply counts_in_range | | exact Hrun].
    unfold GoInt.in_range, GoInt.min_int, GoInt.max_int. simpl. lia. }
  destruct Hr as [Hrf Hrs]. pose proof (failures_successes_le evs) as Hle.
  simpl in Hf, Hs.
  rewrite wrap_small in Hf by done. rewrite wrap_small in Hs by done.
  rewrite wrap_small in Hf
    by (unfold GoInt.in_range, GoInt.min_int, GoInt.max_int; lia).
  rewrite wrap_small in Hs
    by (unfold GoInt.in_range, GoInt.min_int, GoInt.max_int; lia).
  done.
Qed.

Lemma tally_exact_witness :
  ∃ st, @Download.downloadAll Toy.fs clash_links 5
          [ Download.Allocate 0; Download.Allocate 1;
            Download.Fetched 1 fetch_not_found; Download.Fetched 0 fetch_ok ]
          (Download.init ∅) = Some st
        ∧ Download.failCount st = 1 ∧ Download.successCount st = 1.
Proof.
  eexists. split; [vm_compute; reflexivity|].
  apply (@tally_exact Toy.fs clash_links 5
           [ Download.Allocate 0; Download.Allocate 1;
             Download.Fetched 1 fetch_not_found; Download.Fetched 0 fetch_ok ] ∅).
  - vm_compute. reflexivity.
  - reflexivity.
Defined.

(** No name is handed out for a file that was in the directory before the
    run, the files present before the run are still there after it, and
    every other file in the directory bears a name that was handed out. *)
Theorem existing_files_untouched `{FileSystem} (links : list FileLink) (parallel : Z)
    (evs : list Download.Event) (dir0 : gset string) (st : Download.State) :
  Download.downloadAll links parallel evs (Download.init dir0) = Some st →
  (∀ x, x ∈ Download.handed st → x ∉ dir0)
  ∧ dir0 ⊆ Download.dir st
  ∧ (∀ x, x ∈ Download.dir st → x ∈ dir0 ∨ x ∈ Download.handed st).
Proof.
  intros Hrun.
  assert (Hinv : dir_inv dir0 st).
  { eapply (downloadAll_ind (dir_inv dir0)); [|apply dir_inv_init|exact Hrun].
    intros s ev s'. apply dir_inv_step. }
  destruct Hinv as [Hk Hn Hf _]. done.
Qed.

Lemma existing_files_untouched_witness :
  ∃ st, @Download.downloadAll Toy.fs report_links 5 report_schedule
          (Download.init {["Report.pdf"; "notes.txt"]}) = Some st
        ∧ Download.handed st = ["Report_1.pdf"; "Report_2.pdf"; "Report_3.pdf"]
        ∧ (∀ x, x ∈ Download.handed st →
                x ∉ ({["Report.pdf"; "notes.txt"]} : gset string))
        ∧ ({["Report.pdf"; "notes.txt"]} : gset string) ⊆ Download.dir st
        ∧ (∀ x, x ∈ Download.dir st →
                x ∈ ({["Report.pdf"; "notes.txt"]} : gset string)
                ∨ x ∈ Download.handed st).
Proof.
  eexists. split; [vm_compute; reflexivity|]. split; [reflexivity|].
  apply (@existing_files_untouched Toy.fs report_links 5 report_schedule
           {["Report.pdf"; "notes.txt"]}).
  vm_compute. reflexivity.
Defined.

Section RunFacts3.
Context `{FileSystem}.
Import Alloc Download.

Lemma getUniqueFilename_used dir0 name used :
  (getUniqueFilename dir0 name used).1
  = <[name := GoInt.add (default 0 (used !! name)) 1]> used.
Proof. unfold getUniqueFilename, getUniqueFilename_by. by case_match. Qed.

(** What an enabled allocation step does to the state. *)
Lemma step_allocate links parallel st w st' :
  step links parallel st (Allocate w) = Some st' →
  ∃ link r,
    links !! w = Some link ∧ assigned st !! w = None
    ∧ inflight st < parallel
    ∧ (r ∉ dir st)
    ∧ st' = {| usedNames :=
                 <[Name link := GoInt.add (default 0 (usedNames st !! Name link)) 1]>
                   (usedNames st);
               dir := dir st;
               assigned := <[w := r]> (assigned st);
               handed := handed st ++ [r];
               finished := finished st;
               successCount := successCount st;
               failCount := failCount st |}.
Proof.
  cbn [step]. destruct (links !! w) as [link|]; [|done].
  destruct (assigned st !! w) eqn:Hw; [done|].
  destruct (inflight st <? parallel) eqn:Hp; [|done]. apply Z.ltb_lt in Hp.
  pose proof (getUniqueFilename_used (dir st) (Name link) (usedNames st)) as Hu.
  destruct (getUniqueFilename (dir st) (Name link) (usedNames st))
    as [used' [r|]] eqn:Hg; [|done].
  apply getUniqueFilename_returned in Hg. simpl in Hu. subst used'.
  intros [= <-]. by exists link, r.
Qed.

Lemma requests_le links name evs : (requests links name evs ≤ length evs)%nat.
Proof.
  induction evs as [|[w|w f] evs IH]; simpl; [lia | | lia].
  destruct (decide _); lia.
Qed.

Lemma requests_run links parallel name evs st st' :
  downloadAll links parallel evs st = Some st' →
  GoInt.wrap (default 0 (usedNames st' !! name))
  = GoInt.wrap (default 0 (usedNames st !! name)
                + Z.of_nat (requests links name evs)).
Proof.
  revert st. induction evs as [|ev evs IH]; intros st; cbn [downloadAll].
  - intros [= <-]. simpl. by rewrite Z.add_0_r.
  - destruct (step links parallel st ev) as [st1|] eqn:Hs; [|done].
    intros Hrun. rewrite (IH st1 Hrun). clear IH Hrun.
    destruct ev as [w | w f].
    + apply step_allocate in Hs as (link & r & Hl & _ & _ & _ & ->).
      cbn [requests usedNames]. rewrite Hl. simpl.
      destruct (decide (Some (Name link) = Some name)) as [[= <-]|Hne].
      * rewrite lookup_insert_eq. simpl. unfold GoInt.add.
        rewrite wrap_add_l. f_equal; lia.
      * rewrite lookup_insert_ne by congruence. f_equal; lia.
    + cbn [step] in Hs. repeat case_match; simplify_eq; simpl; f_equal; lia.
Qed.

Lemma used_in_range links parallel st ev st' :
  (∀ n, GoInt.in_range (default 0 (usedNames st !! n))) →
  step links parallel st ev = Some st' →
  ∀ n, GoInt.in_range (default 0 (usedNames st' !! n)).
Proof.
  intros Hr. destruct ev as [w | w f].
  - intros (link & r & _ & _ & _ & _ & ->)%step_allocate n. simpl.
    destruct (decide (Name link = n)) as [<-|Hne].
    + rewrite lookup_insert_eq. apply wrap_in_range.
    + by rewrite lookup_insert_ne.
  - cbn [step]. repeat case_match; intros [= <-]; simpl; done.
Qed.

Lemma sem_inv_init parallel dir0 : sem_inv parallel (init dir0).
Proof.
  split; simpl; [set_solver|].
  unfold inflight. simpl. rewrite map_size_empty. lia.
Qed.

Lemma sem_inv_step links parallel st ev st' :
  sem_inv parallel st → step links parallel st ev = Some st' → sem_inv parallel st'.
Proof.
  intros [Hf Hb]. destruct ev as [w | w f].
  - intros (link & r & _ & Hw & Hp & _ & ->)%step_allocate. split; simpl.
    + rewrite dom_insert_L. by apply union_subseteq_r'.
    + unfold inflight in *. simpl. rewrite map_size_insert_None by done. lia.
  - cbn [step]. destruct (assigned st !! w) as [filename|] eqn:Hw; [|done].
    destruct (decide (w ∈ finished st)) as [|Hnot]; [done|].
    destruct (downloadFile f (dir st) filename) as [dir' err].
    intros [= <-]. split; simpl.
    + apply union_subseteq. split; [|done].
      apply singleton_subseteq_l, elem_of_dom. by eexists.
    + unfold inflight in *. simpl. rewrite size_union by set_solver.
      rewrite size_singleton. lia.
Qed.

Lemma inflight_nonneg st :
  finished st ⊆ dom (assigned st) → 0 ≤ inflight st.
Proof.
  intros Hsub%subseteq_size. rewrite size_dom in Hsub. unfold inflight. lia.
Qed.

(** A name stays with its goroutine, and the directory only grows. *)
Lemma step_persist links parallel st ev st' :
  step links parallel st ev = Some st' →
  dir st ⊆ dir st'
  ∧ ∀ w x, assigned st !! w = Some x → assigned st' !! w = Some x.
Proof.
  destruct ev as [w | w f].
  - intros (link & r & _ & Hw & _ & _ & ->)%step_allocate. split; simpl; [done|].
    intros v x Hv. rewrite lookup_insert_ne; [done|]. congruence.
  - cbn [step]. destruct (assigned st !! w) as [filename|]; [|done].
    destruct (decide (w ∈ finished st)); [done|].
    pose proof (downloadFile_dir f (dir st) filename) as Hd.
    destruct (downloadFile f (dir st) filename) as [dir' err]. simpl in Hd.
    intros [= <-]. split; simpl; [|done].
    destruct Hd as [-> | ->]; set_solver.
Qed.

Lemma run_persist links parallel evs st st' :
  downloadAll links parallel evs st = Some st' →
  dir st ⊆ dir st'
  ∧ ∀ w x, assigned st !! w = Some x → assigned st' !! w = Some x.
Proof.
  revert st. induction evs as [|ev evs IH]; intros st; cbn [downloadAll].
  - by intros [= <-].
  - destruct (step links parallel st ev) as [st1|] eqn:Hs; [|done].
    intros Hrun. destruct (step_persist _ _ _ _ _ Hs) as [Hd Ha].
    destruct (IH st1 Hrun) as [Hd' Ha']. split; [by etrans | auto].
Qed.

(** A download that reaches [os.Create] leaves its file in the directory. *)
Lemma downloadFile_creates f dir0 filename :
  newRequestErr f = None → doErr f = None → statusCode f = 200 →
  createErr f = None →
  filename ∈ (downloadFile f dir0 filename).1.
Proof.
  intros H1 H2 H3 H4. unfold downloadFile. rewrite H1, H2, H3, H4. simpl.
  set_solver.
Qed.
End RunFacts3.

(** The counter of a desired name is the number of requests made for it:
    after any run (with fewer than [2^63] steps) [usedNames[name]] is the
    number of allocations for links whose desired name is [name], and 0, as
    for a missing key, when there was none. *)
Theorem counter_counts_requests `{FileSystem} (links : list FileLink) (parallel : Z)
    (evs : list Download.Event) (dir0 : gset string) (st : Download.State)
    (name : string) :
  Download.downloadAll links parallel evs (Download.init dir0) = Some st →
  Z.of_nat (length evs) < 2 ^ 63 →
  default 0 (Download.usedNames st !! name)
  = Z.of_nat (requests links name evs).
Proof.
  intros Hrun Hlen.
  pose proof (requests_run links parallel name evs _ _ Hrun) as Hw.
  assert (Hr : ∀ n, GoInt.in_range (default 0 (Download.usedNames st !! n))).
  { eapply (downloadAll_ind
              (λ s, ∀ n, GoInt.in_range (default 0 (Download.usedNames s !! n))));
      [apply used_in_range | | exact Hrun].
    intros n. simpl. rewrite lookup_empty. simpl.
    unfold GoInt.in_range, GoInt.min_int, GoInt.max_int. lia. }
  pose proof (requests_le links name evs) as Hle.
  simpl in Hw. rewrite lookup_empty in Hw. simpl in Hw.
  rewrite wrap_small in Hw by done.
  rewrite wrap_small in Hw
    by (unfold GoInt.in_range, GoInt.min_int, GoInt.max_int; lia).
  done.
Qed.

Lemma counter_counts_requests_witness :
  ∃ st, @Download.downloadAll Toy.fs clash_links 5 clash_schedule (Download.init ∅) = Some st
        ∧ default 0 (Download.usedNames st !! "a.pdf") = 2
        ∧ default 0 (Download.usedNames st !! "b.pdf") = 0.
Proof.
  eexists. split; [vm_compute; reflexivity|]. split.
  - apply (@counter_counts_requests Toy.fs clash_links 5 clash_schedule ∅ _ "a.pdf").
    + vm_compute. reflexivity.
    + reflexivity.
  - apply (@counter_counts_requests Toy.fs clash_links 5 clash_schedule ∅ _ "b.pdf").
    + vm_compute. reflexivity.
    + reflexivity.
Defined.

(** The semaphore bounds the downloads in flight: after any run the number
    of goroutines that hold a slot is between 0 and [parallel] (0 when
    [parallel] is not positive), and only goroutines that have allocated
    a name have finished. *)
Theorem slots_bounded `{FileSystem} (links : list FileLink) (parallel : Z)
    (evs : list Download.Event) (dir0 : gset string) (st : Download.State) :
  Download.downloadAll links parallel evs (Download.init dir0) = Some st →
  0 ≤ Download.inflight st ≤ Z.max 0 parallel
  ∧ Download.finished st ⊆ dom (Download.assigned st).
Proof.
  intros Hrun.
  assert (Hinv : sem_inv parallel st).
  { eapply (downloadAll_ind (sem_inv parallel)); [|apply sem_inv_init|exact Hrun].
    intros s ev s'. apply sem_inv_step. }
  destruct Hinv as [Hf Hb]. split; [|done]. split; [|done].
  by apply inflight_nonneg.
Qed.

Lemma slots_bounded_witness :
  ∃ st, @Download.downloadAll Toy.fs clash_links 2
          [Download.Allocate 0; Download.Allocate 2] (Download.init ∅) = Some st
        ∧ @Download.step Toy.fs clash_links 2 st (Download.Allocate 1) = None
        ∧ 0 ≤ Download.inflight st ≤ Z.max 0 2
        ∧ Download.finished st ⊆ dom (Download.assigned st).
Proof.
  eexists. split; [vm_compute; reflexivity|]. split; [vm_compute; reflexivity|].
  apply (@slots_bounded Toy.fs clash_links 2
           [Download.Allocate 0; Download.Allocate 2] ∅).
  vm_compute. reflexivity.
Defined.

(** With no slot (a number of slots that is zero: the channel is then
    unbuffered and no goroutine gets past [sem <- struct{}{}]) no step of
    any goroutine is enabled at the start, so the only run is the empty
    one: no name is handed out, nothing is downloaded or counted, and
    [wg.Wait] does not return when there is a link. *)
Theorem no_slot_no_step `{FileSystem} (links : list FileLink) (parallel : Z)
    (dir0 : gset string) :
  parallel ≤ 0 →
  (∀ ev, Download.step links parallel (Download.init dir0) ev = None)
  ∧ ∀ evs st,
      Download.downloadAll links parallel evs (Download.init dir0) = Some st →
      evs = [] ∧ st = Download.init dir0.
Proof.
  intros Hp.
  assert (Hstep : ∀ ev, Download.step links parallel (Download.init dir0) ev = None).
  { intros [w | w f]; cbn [Download.step Download.init Download.assigned].
    - destruct (links !! w); [|done]. rewrite lookup_empty.
      change (Download.inflight (Download.init dir0)) with 0.
      by replace (0 <? parallel) with false by (symmetry; apply Z.ltb_ge; lia).
    - by rewrite lookup_empty. }
  split; [done|]. intros [|ev evs] st; cbn [Download.downloadAll].
  - by intros [= <-].
  - by rewrite Hstep.
Qed.

Lemma no_slot_no_step_witness :
  (∀ ev, @Download.step Toy.fs clash_links 0 (Download.init ∅) ev = None)
  ∧ ∀ evs st,
      @Download.downloadAll Toy.fs clash_links 0 evs (Download.init ∅) = Some st →
      evs = [] ∧ st = Download.init ∅.
Proof. apply (@no_slot_no_step Toy.fs clash_links 0 ∅). lia. Defined.

(** A download that got status 200 and created its file leaves the file in
    the directory under the name handed to its goroutine, until the end of
    the run, also when the copy failed and the download is counted as
    failed. *)
Theorem created_file_stays `{FileSystem} (links : list FileLink) (parallel : Z)
    (evs1 evs2 : list Download.Event) (w : nat) (f : Download.Fetch)
    (dir0 : gset string) (st : Download.State) :
  Download.downloadAll links parallel
    (evs1 ++ Download.Fetched w f :: evs2) (Download.init dir0) = Some st →
  Download.newRequestErr f = None → Download.doErr f = None →
  Download.statusCode f = 200 → Download.createErr f = None →
  ∃ filename, Download.assigned st !! w = Some filename
              ∧ filename ∈ Download.handed st
              ∧ filename ∈ Download.dir st.
Proof.
  intros Hrun H1 H2 H3 H4.
  assert (Hinv : dir_inv dir0 st).
  { eapply (downloadAll_ind (dir_inv dir0)); [|apply dir_inv_init|exact Hrun].
    intros s ev s'. apply dir_inv_step. }
  rewrite downloadAll_app in Hrun.
  destruct (Download.downloadAll links parallel evs1 (Download.init dir0))
    as [st1|]; [|done].
  cbn [Download.downloadAll] in Hrun.
  destruct (Download.step links parallel st1 (Download.Fetched w f))
    as [st2|] eqn:Hs; [|done].
  destruct (run_persist _ _ _ _ _ Hrun) as [Hd Ha].
  cbn [Download.step] in Hs.
  destruct (Download.assigned st1 !! w) as [filename|] eqn:Hw; [|done].
  destruct (decide (w ∈ Download.finished st1)); [done|].
  pose proof (downloadFile_creates f (Download.dir st1) filename H1 H2 H3 H4) as Hc.
  destruct (Download.downloadFile f (Download.dir st1) filename) as [dir' err].
  injection Hs as <-. simpl in *.
  exists filename. split_and!; [by apply Ha | | by apply Hd].
  eapply (di_assigned _ _ Hinv). by apply Ha.
Qed.

Lemma created_file_stays_witness :
  ∃ st, @Download.downloadAll Toy.fs clash_links 5
          ([Download.Allocate 0] ++ Download.Fetched 0 fetch_broken_copy
             :: [Download.Allocate 1]) (Download.init ∅) = Some st
        ∧ Download.failCount st = 1
        ∧ ∃ filename, Download.assigned st !! 0%nat = Some filename
                      ∧ filename ∈ Download.handed st
                      ∧ filename ∈ Download.dir st.
Proof.
  eexists. split; [vm_compute; reflexivity|]. split; [reflexivity|].
  apply (@created_file_stays Toy.fs clash_links 5 [Download.Allocate 0]
           [Download.Allocate 1] 0 fetch_broken_copy ∅).
  - vm_compute. reflexivity.
  - reflexivity.
  - reflexivity.
  - reflexivity.
  - reflexivity.
Defined.

(** ** What the numbered search returns *)

Section SearchFacts.
Context `{FileSystem}.
Import Str Alloc GoInt.

Lemma notExist_false_Stat dir0 n :
  notExist dir0 n = false ↔ Stat dir0 n ≠ StatNotExist.
Proof. unfold notExist. by destruct (Stat dir0 n). Qed.

(** The first free name of the search comes within the first [2^64]
    rounds: later rounds try the same names again. *)
Lemma first_free_bounded (n : nat) dir0 stem ext i (k : nat) :
  Z.of_nat n = 2 ^ 64 →
  notExist dir0 (numbered stem (wrap (i + Z.of_nat k)) ext) = true →
  (∀ j : nat, (j < k)%nat →
     notExist dir0 (numbered stem (wrap (i + Z.of_nat j)) ext) = false) →
  (k < n)%nat.
Proof.
  intros Hn Hfree Hall.
  destruct (decide (k < n)%nat) as [Hlt | Hge]; [done|]. exfalso.
  assert (Hj : (k - n < k)%nat) by lia.
  specialize (Hall _ Hj).
  replace (i + Z.of_nat (k - n)) with (i + Z.of_nat k + 2 ^ 64 * (-1)) in Hall by lia.
  rewrite wrap_period in Hall. congruence.
Qed.

(** When [2^64] rounds find no free name, no number gives one. *)
Lemma findNext_None_all (n : nat) dir0 stem ext i :
  Z.of_nat n = 2 ^ 64 → in_range i →
  findNext n dir0 stem ext i = None →
  ∀ k : nat, notExist dir0 (numbered stem (wrap (i + Z.of_nat k)) ext) = false.
Proof.
  intros Hn Hi Hnone k.
  pose proof (findNext_None _ _ _ _ _ Hi Hnone (k `mod` n)%nat) as Hk.
  assert (Hpos : n ≠ 0%nat) by lia.
  specialize (Hk (Nat.mod_upper_bound k n Hpos)).
  replace (i + Z.of_nat k)
    with (i + Z.of_nat (k `mod` n) + 2 ^ 64 * Z.of_nat (k `div` n)).
  - by rewrite wrap_period.
  - rewrite <- Hn. pose proof (Nat.div_mod_eq k n). lia.
Qed.
End SearchFacts.

(** What [getUniqueFilename] returns, and when: the desired name itself on
    the first request for it when [os.Stat] reports that it does not
    exist; otherwise the numbered name [stem_n ext] for the first [n],
    counting up from the counter plus one (with the wrap-around of [int]),
    that [os.Stat] reports as not existing.  It never returns exactly when
    there is no such [n]. *)
Theorem getUniqueFilename_first_free `{FileSystem}
    (dir0 : gset string) (name : string) (usedNames : gmap string Z) :
  let count := default 0 (usedNames !! name) in
  let free n := Alloc.Stat dir0 n = Alloc.StatNotExist in
  let candidate (k : nat) :=
    Alloc.numbered (Str.TrimSuffix name (Str.Ext name))
      (GoInt.wrap (count + 1 + Z.of_nat k)) (Str.Ext name) in
  (∀ r, (Alloc.getUniqueFilename dir0 name usedNames).2 = Some r ↔
     (count = 0 ∧ free name ∧ r = name)
     ∨ (¬ (count = 0 ∧ free name)
        ∧ ∃ k : nat, r = candidate k ∧ free r
            ∧ ∀ j : nat, (j < k)%nat → ¬ free (candidate j)))
  ∧ ((Alloc.getUniqueFilename dir0 name usedNames).2 = None ↔
     ¬ (count = 0 ∧ free name) ∧ ∀ k : nat, ¬ free (candidate k)).
Proof.
  intros count free candidate.
  destruct (getUniqueFilename_cycle dir0 name usedNames) as (n & Hn & ->).
  unfold Alloc.getUniqueFilename_fuel, Alloc.getUniqueFilename_by.
  fold count.
  set (stem := Str.TrimSuffix name (Str.Ext name)) in *.
  assert (Hcand : ∀ k, candidate k
            = Alloc.numbered stem (GoInt.wrap (GoInt.add count 1 + Z.of_nat k))
                (Str.Ext name)).
  { intros k. unfold candidate, GoInt.add. by rewrite wrap_add_l. }
  assert (Hfree : ∀ x, Alloc.notExist dir0 x = true ↔ free x)
    by (intros x; apply notExist_Stat).
  assert (Hused : ∀ x, Alloc.notExist dir0 x = false ↔ ¬ free x)
    by (intros x; apply notExist_false_Stat).
  destruct ((count =? 0) && Alloc.notExist dir0 name) eqn:Hc; cbn [snd].
  - apply andb_true_iff in Hc as [Hc%Z.eqb_eq Hname%Hfree]. split.
    + intros r. split.
      * intros [= <-]. by left.
      * intros [(_ & _ & ->) | [Hnot _]]; [done | by destruct Hnot].
    + split; [done | by intros [Hnot _]; destruct Hnot].
  - assert (Hnot : ¬ (count = 0 ∧ free name)).
    { intros [Hz Hname%Hfree]. apply Z.eqb_eq in Hz.
      by rewrite Hz, Hname in Hc. }
    split.
    + intros r. split.
      * intros Hr. right. split; [done|].
        apply findNext_least in Hr as (k & _ & -> & Hr & Hall);
          [|apply wrap_in_range].
        exists k. rewrite Hcand. split_and!; [done | by apply Hfree |].
        intros j Hj. rewrite Hcand. by apply Hused, Hall.
      * intros [(Hz & Hname & _) | (_ & k & -> & Hr & Hall)]; [by destruct Hnot|].
        rewrite Hcand in *.
        assert (Hall' : ∀ j : nat, (j < k)%nat →
                  Alloc.notExist dir0
                    (Alloc.numbered stem
                       (GoInt.wrap (GoInt.add count 1 + Z.of_nat j)) (Str.Ext name))
                  = false).
        { intros j Hj. apply Hused. rewrite <- Hcand. by apply Hall. }
        apply Hfree in Hr.
        apply findNext_first; [apply wrap_in_range | | done | done].
        by eapply first_free_bounded.
    + split.
      * intros Hnone. split; [done|]. intros k. rewrite Hcand. apply Hused.
        eapply findNext_None_all; [exact Hn | apply wrap_in_range | exact Hnone].
      * intros [_ Hall].
        destruct (Alloc.findNext n dir0 stem (Str.Ext name) (GoInt.add count 1))
          as [r|] eqn:Hr; [|done].
        apply findNext_least in Hr as (k & _ & -> & Hr & _); [|apply wrap_in_range].
        apply Hfree in Hr. rewrite <- Hcand in Hr. by destruct (Hall k).
Qed.

Lemma getUniqueFilename_first_free_witness :
  let dir0 : gset string := {["a.pdf"; "a_1.pdf"; "a_2.pdf"; "a_4.pdf"]} in
  (@Alloc.getUniqueFilename Toy.fs dir0 "a.pdf" ∅).2 = Some "a_3.pdf"
  ∧ ∃ k : nat,
      "a_3.pdf" = Alloc.numbered "a" (GoInt.wrap (0 + 1 + Z.of_nat k)) ".pdf"
      ∧ @Alloc.Stat Toy.fs dir0 "a_3.pdf" = Alloc.StatNotExist
      ∧ ∀ j : nat, (j < k)%nat →
          @Alloc.Stat Toy.fs dir0
            (Alloc.numbered "a" (GoInt.wrap (0 + 1 + Z.of_nat j)) ".pdf")
          ≠ Alloc.StatNotExist.
Proof.
  intros dir0. split; [vm_compute; reflexivity|].
  destruct (proj1 (proj1 (@getUniqueFilename_first_free Toy.fs dir0 "a.pdf" ∅)
                     "a_3.pdf")) as [(_ & _ & Heq) | (_ & Hk)].
  - vm_compute. reflexivity.
  - discriminate Heq.
  - exact Hk.
Defined.

(** [getUniqueFilename] returns when the desired name has no separator and
    [os.Stat] fails with no error other than not-exist on the numbered
    names it tries: among one more of them than there are files (fewer than
    [2^64]), one is not a file. *)
Theorem getUniqueFilename_returns `{FileSystem}
    (dir0 : gset string) (name : string) (usedNames : gmap string Z) :
  Alloc.hasSeparator name = false →
  (∀ k : nat, (k ≤ size dir0)%nat →
     stat_fails dir0
       (Alloc.numbered (Str.TrimSuffix name (Str.Ext name))
          (GoInt.wrap (default 0 (usedNames !! name) + 1 + Z.of_nat k))
          (Str.Ext name)) = false) →
  Z.of_nat (size dir0) < 2 ^ 64 →
  ∃ r, (Alloc.getUniqueFilename dir0 name usedNames).2 = Some r
       ∧ Alloc.Stat dir0 r = Alloc.StatNotExist.
Proof.
  intros Hsep Hstat Hsz.
  destruct (getUniqueFilename_cycle dir0 name usedNames) as (n & Hn & ->).
  unfold Alloc.getUniqueFilename_fuel, Alloc.getUniqueFilename_by.
  set (count := default 0 (usedNames !! name)) in *.
  set (stem := Str.TrimSuffix name (Str.Ext name)) in *.
  destruct ((count =? 0) && Alloc.notExist dir0 name) eqn:Hc; cbn [snd].
  - exists name. split; [done|].
    apply andb_true_iff in Hc as [_ Hc]. by apply notExist_Stat.
  - destruct (findNext_finds (S (size dir0)) dir0 stem (Str.Ext name)
                (GoInt.add count 1)) as [r Hr];
      [apply wrap_in_range | lia | lia | |].
    { intros k Hk. unfold GoInt.add. rewrite wrap_add_l.
      destruct (numbered_entry name (GoInt.wrap (count + 1 + Z.of_nat k)) Hsep)
        as [Hdots Hsep'].
      rewrite notExist_entry; [| apply Hstat; lia | done | done].
      intros Hin%bool_decide_eq_false. by apply dec_stable. }
    exists r. split.
    + eapply findNext_mono; [|exact Hr]. lia.
    + apply findNext_least in Hr as (k & _ & _ & Hr & _); [|apply wrap_in_range].
      by apply notExist_Stat.
Qed.

Lemma getUniqueFilename_returns_witness :
  ∃ r, (@Alloc.getUniqueFilename Toy.fs {["a.pdf"; "a_2.pdf"]} "a.pdf"
          {["a.pdf" := 1]}).2 = Some r
       ∧ @Alloc.Stat Toy.fs {["a.pdf"; "a_2.pdf"]} r = Alloc.StatNotExist.
Proof.
  apply (@getUniqueFilename_returns Toy.fs {["a.pdf"; "a_2.pdf"]} "a.pdf"
           {["a.pdf" := 1]}).
  - reflexivity.
  - intros [|[|[|k]]] Hk; [reflexivity.. |].
    exfalso. revert Hk. vm_compute. lia.
  - vm_compute. reflexivity.
Defined.

(** The candidates of the numbered search for one desired name differ for
    different numbers, none of them is the desired name, and the desired
    name is its stem followed by its extension. *)
Theorem numbered_candidates_distinct (name : string) (i j : Z) :
  let stem := Str.TrimSuffix name (Str.Ext name) in
  let ext := Str.Ext name in
  stem +:+ ext = name
  ∧ (Alloc.numbered stem i ext = Alloc.numbered stem j ext → i = j)
  ∧ Alloc.numbered stem i ext ≠ name.
Proof.
  intros stem ext. split_and!.
  - apply TrimSuffix_Ext.
  - apply numbered_inj.
  - apply numbered_ne_name.
Qed.



(** ** More on the sanitiser *)

Section SanitizeMore.
Import Str Sanitize.

Lemma replaceInvalid_clean s : clean s = true → replaceInvalid s = s.
Proof.
  unfold clean. induction s as [|c s IH]; [done|]. simpl.
  intros [Hc%negb_true_iff Hs]%andb_true_iff. by rewrite Hc, IH.
Qed.

Lemma norun_collapseRuns b s : norun b (collapseRuns b s) = true.
Proof.
  revert b. induction s as [|c s IH]; intros b; [done|]. simpl.
  destruct (spaceOrUnderscore c) eqn:Hc.
  - destruct b; [apply IH|]. simpl. by rewrite IH.
  - simpl. rewrite Hc. apply IH.
Qed.

Lemma collapseRuns_norun b s : norun b s = true → collapseRuns b s = s.
Proof.
  revert b. induction s as [|c s IH]; intros b; [done|]. simpl.
  destruct (spaceOrUnderscore c) eqn:Hc.
  - intros [[Hb Hu]%andb_true_iff Hs]%andb_true_iff.
    apply negb_true_iff in Hb as ->. apply Ascii.eqb_eq in Hu as ->.
    by rewrite IH.
  - intros Hs. by rewrite IH.
Qed.

Lemma norun_weaken b s : norun b s = true → norun false s = true.
Proof.
  destruct s as [|c s]; [done|]. simpl.
  destruct (spaceOrUnderscore c); [|done].
  by intros [[_ ->]%andb_true_iff ->]%andb_true_iff.
Qed.

Lemma norun_tail b c s : norun b (String c s) = true → norun false s = true.
Proof.
  simpl. destruct (spaceOrUnderscore c).
  - intros [_ Hs]%andb_true_iff. by eapply norun_weaken.
  - done.
Qed.

Lemma norun_trimLeft cut s : norun false s = true → norun false (trimLeft cut s) = true.
Proof.
  induction s as [|c s IH]; [done|]. intros Hs. simpl.
  destruct (cut c); [|done]. apply IH. by eapply norun_tail.
Qed.

Lemma norun_trimRight cut b s : norun b s = true → norun b (trimRight cut s) = true.
Proof.
  revert b. induction s as [|c s IH]; intros b; [done|]. simpl.
  destruct (spaceOrUnderscore c) eqn:Hc.
  - intros [Hbu Hs]%andb_true_iff. specialize (IH true Hs).
    destruct (trimRight cut s) as [|d r].
    + destruct (cut c); [done|]. simpl. by rewrite Hc, Hbu.
    + simpl in *. by rewrite Hc, Hbu, IH.
  - intros Hs. specialize (IH false Hs).
    destruct (trimRight cut s) as [|d r].
    + destruct (cut c); [done|]. simpl. by rewrite Hc.
    + simpl in *. by rewrite Hc, IH.
Qed.

Lemma starts_uncut_trimLeft cut s : starts_uncut cut (trimLeft cut s) = true.
Proof.
  induction s as [|c s IH]; [done|]. simpl.
  destruct (cut c) eqn:Hc; [done|]. simpl. by rewrite Hc.
Qed.

Lemma starts_uncut_trimRight cut s :
  starts_uncut cut s = true → starts_uncut cut (trimRight cut s) = true.
Proof.
  destruct s as [|c s]; [done|]. simpl. intros Hc.
  destruct (trimRight cut s); [|done].
  apply negb_true_iff in Hc. rewrite Hc. simpl. by rewrite Hc.
Qed.

Lemma trimLeft_uncut cut s : starts_uncut cut s = true → trimLeft cut s = s.
Proof.
  destruct s as [|c s]; [done|]. simpl. by intros ->%negb_true_iff.
Qed.

Lemma trimRight_idemp cut s : trimRight cut (trimRight cut s) = trimRight cut s.
Proof.
  induction s as [|c s IH]; [done|]. simpl.
  destruct (trimRight cut s) as [|d r] eqn:Ht.
  - destruct (cut c) eqn:Hc; [done|]. simpl. by rewrite Hc.
  - change (trimRight cut (String c (String d r)))
      with (match trimRight cut (String d r) with
            | "" => if cut c then "" else String c ""
            | r' => String c r'
            end).
    rewrite IH. done.
Qed.

Lemma Trim_idemp cut s : Trim cut (Trim cut s) = Trim cut s.
Proof.
  unfold Trim.
  rewrite (trimLeft_uncut cut (trimRight cut (trimLeft cut s))).
  - apply trimRight_idemp.
  - apply starts_uncut_trimRight, starts_uncut_trimLeft.
Qed.

(** Cleaning a cleaned name changes nothing. *)
Lemma cleaned_idemp raw : cleaned (cleaned raw) = cleaned raw.
Proof.
  unfold cleaned at 1.
  rewrite replaceInvalid_clean by apply clean_cleaned.
  rewrite collapseRuns_norun.
  - unfold cleaned. apply Trim_idemp.
  - unfold cleaned, Trim.
    apply norun_trimRight, norun_trimLeft, norun_collapseRuns.
Qed.

Lemma asciiSpace_class c :
  GoStrings.asciiSpace c = true → spaceOrUnderscore c = true ∨ invalid c = true.
Proof. destruct c as [[] [] [] [] [] [] [] []]; vm_compute; auto; discriminate. Qed.

(** The cleaned name holds no white space. *)
Lemma nospace_cleaned raw :
  allBytes (λ c, negb (GoStrings.asciiSpace c)) (cleaned raw) = true.
Proof.
  assert (Hn : ∀ b s, clean s = true → norun b s = true →
            allBytes (λ c, negb (GoStrings.asciiSpace c)) s = true).
  { unfold clean. intros b s. revert b.
    induction s as [|c s IH]; intros b; [done|]. simpl.
    intros [Hi%negb_true_iff Hcl]%andb_true_iff.
    destruct (spaceOrUnderscore c) eqn:Hc.
    - intros [[_ Hu]%andb_true_iff Hs]%andb_true_iff.
      apply Ascii.eqb_eq in Hu as ->. simpl. by eapply IH.
    - intros Hs. rewrite (IH _ Hcl Hs), andb_true_r. apply negb_true_iff.
      destruct (GoStrings.asciiSpace c) eqn:Ha; [|done].
      apply asciiSpace_class in Ha as [?|?]; congruence. }
  apply (Hn false); [apply clean_cleaned|].
  unfold cleaned, Trim. apply norun_trimRight, norun_trimLeft, norun_collapseRuns.
Qed.

(** A property of every byte of the cleaned name and of the bytes of
    "unnamed" holds for every byte of the sanitised name. *)
Lemma sanitizeFilename_allBytes P raw r :
  allBytes P "unnamed" = true → allBytes P (cleaned raw) = true →
  sanitizeFilename raw = Some r → allBytes P r = true.
Proof.
  intros Hu Hc. unfold sanitizeFilename. fold (cleaned raw).
  destruct (200 <? len (cleaned raw))%nat.
  - destruct (len (Ext (cleaned raw)) <=? 200)%nat; [|done].
    destruct (String.eqb _ ""); intros [= <-]; [done|].
    rewrite allBytes_app. apply andb_true_iff. split; [by apply allBytes_take|].
    destruct (Ext_suffix (cleaned raw)) as [p Hp].
    rewrite Hp, allBytes_app in Hc. by apply andb_true_iff in Hc as [_ ?].
  - by destruct (String.eqb _ ""); intros [= <-].
Qed.
End SanitizeMore.

(** Whenever [sanitizeFilename] returns, the name is not empty, has at most
    200 bytes, holds none of the characters of the pattern [invalid], and
    holds no ASCII white space. *)
Theorem sanitized_name_properties (raw r : string) :
  Sanitize.sanitizeFilename raw = Some r →
  r ≠ "" ∧ (Str.len r ≤ 200)%nat ∧ clean r = true
  ∧ allBytes (λ c, negb (GoStrings.asciiSpace c)) r = true.
Proof.
  intros Hr. destruct (sanitizeFilename_safe raw r Hr) as (H1 & H2 & H3).
  split_and!; try done.
  eapply sanitizeFilename_allBytes; [reflexivity | apply nospace_cleaned | done].
Qed.

Lemma sanitized_name_properties_witness :
  "Annual_Report_2024_final" ≠ ""
  ∧ (Str.len "Annual_Report_2024_final" ≤ 200)%nat
  ∧ clean "Annual_Report_2024_final" = true
  ∧ allBytes (λ c, negb (GoStrings.asciiSpace c)) "Annual_Report_2024_final" = true.
Proof.
  apply (sanitized_name_properties " Annual Report: 2024 / final. ").
  reflexivity.
Defined.

(** Sanitising is idempotent on names that were not cut to length: when the
    cleaned name has at most 200 bytes, the sanitised name is returned
    unchanged by [sanitizeFilename]. *)
Theorem sanitizeFilename_idempotent (raw r : string) :
  (Str.len (cleaned raw) ≤ 200)%nat →
  Sanitize.sanitizeFilename raw = Some r →
  Sanitize.sanitizeFilename r = Some r.
Proof.
  intros Hlen. unfold Sanitize.sanitizeFilename at 1. fold (cleaned raw).
  apply Nat.ltb_ge in Hlen as Hlt. rewrite Hlt.
  destruct (String.eqb (cleaned raw) "") eqn:He; intros [= <-]; [reflexivity|].
  unfold Sanitize.sanitizeFilename. fold (cleaned (cleaned raw)).
  by rewrite cleaned_idemp, Hlt, He.
Qed.

Lemma sanitizeFilename_idempotent_witness :
  Sanitize.sanitizeFilename "Annual_Report_2024_final" = Some "Annual_Report_2024_final".
Proof.
  apply (sanitizeFilename_idempotent " Annual Report: 2024 / final. ").
  - vm_compute. lia.
  - reflexivity.
Defined.

(** A name cut to 200 bytes can end in an underscore, which a second call
    trims. *)
Example truncation_not_idempotent :
  ∃ r r', Sanitize.sanitizeFilename long_plain_text = Some r
          ∧ Sanitize.sanitizeFilename r = Some r' ∧ r ≠ r'.
Proof.
  eexists. eexists. split; [vm_compute; reflexivity|].
  split; [vm_compute; reflexivity|]. discriminate.
Qed.

(** ** More on the extraction loop *)

Section OrderFacts.
Context `{Unicode} `{NetURL}.
Import Str GoStrings Sanitize Extract.

Variable config : Config.
Variable includePattern : option (string → bool).
Variable baseURL : URLT.

Lemma order_each all anchors pre links seen links' seen' idxs :
  all = pre ++ anchors →
  Forall (λ i, (i < length pre)%nat) idxs →
  StronglySorted lt idxs →
  Forall2 (made_from baseURL all) idxs links →
  each config includePattern baseURL anchors (links, seen) = Some (links', seen') →
  ∃ idxs', StronglySorted lt idxs' ∧ Forall2 (made_from baseURL all) idxs' links'.
Proof.
  revert pre links seen idxs.
  induction anchors as [|s anchors IH]; intros pre links seen idxs Hall Hlt Hs Hm.
  - cbn [each]. intros [= <- <-]. by exists idxs.
  - cbn [each]. rewrite visit_spec.
    assert (Hall' : all = (pre ++ [s]) ++ anchors)
      by (by rewrite Hall, (cons_middle s pre anchors), app_assoc).
    assert (Hlt' : Forall (λ i, (i < length (pre ++ [s]))%nat) idxs).
    { eapply Forall_impl; [exact Hlt|]. intros i Hi. simpl in *.
      rewrite length_app. simpl. lia. }
    destruct (resolved baseURL s) as [u|] eqn:Hr; [|by eapply IH].
    destruct (decide (URL_String u ∈ seen)); [by eapply IH|].
    destruct (accepted config includePattern u); [|by eapply IH].
    destruct (derivedName s u) as [nm|] eqn:Hn; [|done].
    intros Hrest.
    eapply (IH (pre ++ [s]) _ _ (idxs ++ [length pre]) Hall'); [| | |exact Hrest].
    + apply Forall_app. split; [done|]. apply Forall_singleton.
      rewrite length_app. simpl. lia.
    + apply StronglySorted_app_2.
      * intros i j Hi ->%list_elem_of_singleton.
        by eapply Forall_forall in Hlt.
      * done.
      * repeat constructor.
    + apply Forall2_app; [done|]. constructor; [|constructor].
      exists s, u. split_and!; try done.
      rewrite Hall. by apply list_lookup_middle.
Qed.

(** Every link of the state of the loop comes from an anchor that passed
    the filters. *)
Lemma kept_accepted pre fl :
  kept config includePattern baseURL pre fl →
  ∃ s u, s ∈ pre ∧ resolved baseURL s = Some u
         ∧ accepted config includePattern u = true
         ∧ URL fl = URL_String u ∧ derivedName s u = Some (Name fl).
Proof.
  intros (i & s & u & Hi & Hr & Ha & _ & Hn & Hu).
  exists s, u. split_and!; try done. by eapply list_elem_of_lookup_2.
Qed.

Lemma resolved_Some s u :
  resolved baseURL s = Some u ↔
  href s ≠ "" ∧ HasPrefix (href s) "#" = false
  ∧ HasPrefix (href s) "javascript:" = false
  ∧ URL_Parse baseURL (href s) = Some u.
Proof.
  unfold resolved. destruct (String.eqb (href s) "") eqn:He; simpl.
  - apply String.eqb_eq in He. split; [done | by intros [? _]].
  - apply String.eqb_neq in He.
    destruct (HasPrefix (href s) "#"); simpl; [split; [done | by intros (_ & ? & _)]|].
    destruct (HasPrefix (href s) "javascript:"); simpl;
      [split; [done | by intros (_ & _ & ? & _)]|].
    split; [done | by intros (_ & _ & _ & ?)].
Qed.

(** The derived name ends with the extension, as it is or lower-cased. *)
Lemma derivedName_extension s u n :
  derivedName s u = Some n →
  ToLower (Ext (URL_Path u)) = ""
  ∨ HasSuffix n (ToLower (Ext (URL_Path u))) = true
  ∨ HasSuffix (ToLower n) (ToLower (Ext (URL_Path u))) = true.
Proof.
  unfold derivedName.
  destruct (sanitizeFilename _) as [n0|]; [|done].
  destruct (HasSuffix (ToLower n0) (ToLower (Ext (URL_Path u)))) eqn:Hs; simpl.
  - intros [= <-]. auto.
  - destruct (String.eqb (ToLower (Ext (URL_Path u))) "") eqn:He; simpl.
    + apply String.eqb_eq in He. auto.
    + intros [= <-]. right. left. apply HasSuffix_app.
Qed.

Lemma derivedName_length s u n :
  derivedName s u = Some n →
  n ≠ "" ∧ (len n ≤ 200 + len (ToLower (Ext (URL_Path u))))%nat.
Proof.
  unfold derivedName.
  destruct (sanitizeFilename _) as [n0|] eqn:Hn0; [|done].
  apply sanitizeFilename_safe in Hn0 as (Hne & Hlen & _).
  destruct (_ && _); intros [= <-].
  - rewrite str_len_app. split; [|lia].
    intros Heq. apply (f_equal len) in Heq. rewrite str_len_app in Heq.
    destruct n0; [done|]. rewrite str_len_cons in Heq. simpl in Heq. lia.
  - split; [done | lia].
Qed.
End OrderFacts.

Section ExtractionExtras.
Context `{Unicode} `{NetURL}.
Import Extract.

(** The links are returned in document order: they are made, one by one,
    from anchors at increasing positions of the document. *)
Theorem extracted_links_in_document_order
    (config : Config) (includePattern : option (string → bool)) (baseURL : URLT)
    (anchors : list Anchor) (links : list FileLink) :
  collectLinks config includePattern baseURL anchors = Some links →
  ∃ idxs, StronglySorted lt idxs ∧ Forall2 (made_from baseURL anchors) idxs links.
Proof.
  unfold collectLinks. intros Hc.
  destruct (each config includePattern baseURL anchors ([], ∅))
    as [[links' seen']|] eqn:He; [|done].
  injection Hc as ->.
  eapply (order_each config includePattern baseURL anchors anchors [] [] ∅ _ _ []);
    [done | constructor | constructor | constructor | exact He].
Qed.

(** Every link returned comes from an anchor of the document: its [href] is
    not empty and starts neither with [#] nor with [javascript:], it
    resolves against the base URL to the URL of the link, the path of that
    URL passes the extension check and the URL matches the include pattern
    if there is one; the name of the link is not empty, is at most 200 bytes
    plus the extension long, and, when the URL has an extension, ends with
    it (as it is, or after lower-casing). *)
Theorem extracted_links_wellformed
    (config : Config) (includePattern : option (string → bool)) (baseURL : URLT)
    (anchors : list Anchor) (links : list FileLink) (fl : FileLink) :
  collectLinks config includePattern baseURL anchors = Some links →
  fl ∈ links →
  ∃ s u, s ∈ anchors
    ∧ href s ≠ "" ∧ Str.HasPrefix (href s) "#" = false
    ∧ Str.HasPrefix (href s) "javascript:" = false
    ∧ URL_Parse baseURL (href s) = Some u
    ∧ URL fl = URL_String u
    ∧ checkExtension config (URL_Path u) = true
    ∧ (∀ re, includePattern = Some re → re (URL fl) = true)
    ∧ Name fl ≠ ""
    ∧ (Str.len (Name fl)
       ≤ 200 + Str.len (GoStrings.ToLower (Str.Ext (URL_Path u))))%nat
    ∧ (GoStrings.ToLower (Str.Ext (URL_Path u)) = ""
       ∨ Str.HasSuffix (Name fl) (GoStrings.ToLower (Str.Ext (URL_Path u))) = true
       ∨ Str.HasSuffix (GoStrings.ToLower (Name fl))
           (GoStrings.ToLower (Str.Ext (URL_Path u))) = true).
Proof.
  unfold collectLinks. intros Hc Hfl.
  destruct (each config includePattern baseURL anchors ([], ∅))
    as [[links' seen']|] eqn:He; [|done].
  injection Hc as ->.
  pose proof (loop_inv_each config includePattern baseURL anchors [] [] ∅ _ _
                (loop_inv_init config includePattern baseURL) He) as Hinv.
  rewrite app_nil_l in Hinv. destruct Hinv as [_ _ Hkept _].
  apply Hkept, kept_accepted in Hfl as (s & u & Hs & Hr & Ha & Hu & Hn).
  apply resolved_Some in Hr as (Hr1 & Hr2 & Hr3 & Hr4).
  unfold accepted in Ha. apply andb_true_iff in Ha as [Hext Hinc].
  exists s, u. destruct (derivedName_length s u _ Hn) as [Hne Hlen].
  split_and!; try done.
  - intros re ->. by rewrite Hu.
  - by apply (derivedName_extension s).
Qed.
End ExtractionExtras.

Lemma extracted_links_in_document_order_witness :
  ∃ idxs, StronglySorted lt idxs
          ∧ Forall2 (@made_from Toy.unicode Toy.neturl "/" Toy.clash_page)
              idxs clash_links.
Proof.
  apply (@extracted_links_in_document_order Toy.unicode Toy.neturl
           (Toy.config "") None "/" Toy.clash_page clash_links).
  vm_compute. reflexivity.
Defined.

Lemma extracted_links_wellformed_witness :
  ∃ s u, s ∈ Toy.report_page
    ∧ href s ≠ "" ∧ Str.HasPrefix (href s) "#" = false
    ∧ Str.HasPrefix (href s) "javascript:" = false
    ∧ @URL_Parse Toy.neturl "/" (href s) = Some u
    ∧ "http://example.com/a.pdf" = @URL_String Toy.neturl u
    ∧ @Extract.checkExtension Toy.unicode (Toy.config "") (@URL_Path Toy.neturl u) = true
    ∧ (∀ re, None = Some re → re "http://example.com/a.pdf" = true)
    ∧ "Report_One.pdf" ≠ ""
    ∧ (Str.len "Report_One.pdf"
       ≤ 200 + Str.len (@GoStrings.ToLower Toy.unicode (Str.Ext (@URL_Path Toy.neturl u))))%nat
    ∧ (@GoStrings.ToLower Toy.unicode (Str.Ext (@URL_Path Toy.neturl u)) = ""
       ∨ Str.HasSuffix "Report_One.pdf"
           (@GoStrings.ToLower Toy.unicode (Str.Ext (@URL_Path Toy.neturl u))) = true
       ∨ Str.HasSuffix (@GoStrings.ToLower Toy.unicode "Report_One.pdf")
           (@GoStrings.ToLower Toy.unicode (Str.Ext (@URL_Path Toy.neturl u))) = true).
Proof.
  apply (@extracted_links_wellformed Toy.unicode Toy.neturl
           (Toy.config "") None "/" Toy.report_page
           [ {| Name := "Report_One.pdf"; URL := "http://example.com/a.pdf" |} ]
           {| Name := "Report_One.pdf"; URL := "http://example.com/a.pdf" |}).
  - vm_compute. reflexivity.
  - by left.
Defined.

Section AllModeFacts.
Import Str Extract.

Lemma knownSuffixes_are_extensions v :
  v ∈ knownSuffixes → scanExt v = Some v.
Proof.
  assert (Hall : forallb (λ v, bool_decide (scanExt v = Some v)) knownSuffixes = true)
    by (vm_compute; reflexivity).
  rewrite forallb_forall in Hall. intros Hv%list_elem_of_In.
  by apply Hall, bool_decide_eq_true in Hv.
Qed.
End AllModeFacts.

Lemma MatchString_iff_Ext path :
  Extract.fileExtPattern_MatchString path = true ↔ Str.Ext path ∈ knownSuffixes.
Proof.
  rewrite MatchString_suffixes. split.
  - intros (v & Hin & Hv)%existsb_exists. apply list_elem_of_In in Hin.
    apply HasSuffix_iff in Hv as [q ->].
    by rewrite (Ext_app q v v (knownSuffixes_are_extensions v Hin)).
  - intros Hin. apply existsb_exists. exists (Str.Ext path).
    split; [by apply list_elem_of_In|].
    destruct (Ext_suffix path) as [p Hp]. rewrite Hp at 1. apply HasSuffix_app.
Qed.

(** In all mode a path passes exactly when its extension, the part from the
    last dot of its last element on, is a dot and one of the known
    extensions in any mix of cases. *)
Theorem all_mode_by_extension (path : string) :
  Extract.fileExtPattern_MatchString path = true ↔ Str.Ext path ∈ knownSuffixes.
Proof. apply MatchString_iff_Ext. Qed.

Section ListModeFacts.
Context `{Unicode}.
Import Str GoStrings Extract.

Lemma extensions_dotted parts e :
  e ∈ Flags.extensions parts → ∃ t, e = "." +:+ t.
Proof.
  induction parts as [|p parts IH]; simpl; [by intros ?%not_elem_of_nil|].
  destruct (negb (String.eqb _ "")); [|done].
  intros [-> | He]%elem_of_cons; [by eexists | by apply IH].
Qed.

Lemma parseExts_dotted all exts e :
  e ∈ Flags.parseExts all exts → ∃ t, e = "." +:+ t.
Proof.
  unfold Flags.parseExts. destruct (_ && _); [apply extensions_dotted|].
  by intros ?%not_elem_of_nil.
Qed.

(** A link whose path has no extension is rejected in both modes, whatever
    the flags [--ext] and [--all] were: every entry of the parsed list
    starts with a dot, and so does every known extension. *)
Theorem extensionless_link_rejected (config : Config) (exts path : string) :
  Exts config = Flags.parseExts (All config) exts →
  Ext path = "" →
  checkExtension config path = false.
Proof.
  intros Hexts Hext. unfold checkExtension. rewrite Hext.
  destruct (All config) eqn:Hall.
  - apply not_true_is_false. intros Hm%MatchString_iff_Ext.
    rewrite Hext in Hm. by apply knownSuffixes_are_extensions in Hm.
  - apply not_true_is_false. intros (e & Hin & He)%existsb_exists.
    apply String.eqb_eq in He. change (ToLower "") with "" in He. subst e.
    rewrite Hexts in Hin. apply list_elem_of_In in Hin.
    by apply parseExts_dotted in Hin as [t Ht].
Qed.
End ListModeFacts.

Lemma extensionless_link_rejected_witness :
  @Extract.checkExtension Toy.unicode (Toy.config "") "/docs/v1.2/README" = false.
Proof.
  apply (@extensionless_link_rejected Toy.unicode (Toy.config "")
           Flags.defaultExts "/docs/v1.2/README"); reflexivity.
Defined.

(** ** The page fetch and the program *)

Section MainExtras.
Context `{Unicode} `{NetURL} `{Regexp} `{Web}.
Import Extract Main.

Lemma extractLinks_trace config :
  (extractLinks config).1 = []
  ∨ (extractLinks config).1 = [HttpGet (cfgURL config) (UserAgent config)].
Proof. unfold extractLinks. repeat case_match; simpl; auto. Qed.

Lemma listing_stdout i links e : e ∈ listing i links → ∃ s, e = Stdout s.
Proof.
  revert i. induction links as [|l links IH]; intros i; simpl.
  - by intros ?%not_elem_of_nil.
  - intros [-> | He]%elem_of_cons; [by eexists | by eapply IH].
Qed.

(** The extraction sends one request, for the page and with the configured
    User-Agent, or none when the request cannot be built; and it gets as far
    as the anchors (returns links, or panics on one of them) only when the
    page came with status 200 and was parsed, the URL of the page parsed,
    and the include pattern, if there is one, compiled. *)
Theorem extraction_needs_page (config : Config) :
  ((extractLinks config).1 = [HttpGet (cfgURL config) (UserAgent config)]
   ∨ (extractLinks config).1 = [] ∧ http_NewRequest (cfgURL config) ≠ None)
  ∧ ((∀ err, (extractLinks config).2 ≠ Returned (inl err)) →
     (extractLinks config).1 = [HttpGet (cfgURL config) (UserAgent config)]
     ∧ (∃ anchors baseURL, page_fetched config anchors baseURL)
     ∧ (Include config = "" ∨ ∃ re, regexp_Compile (Include config) = inr re)).
Proof.
  unfold extractLinks, page_fetched.
  destruct (http_NewRequest (cfgURL config)) as [e|] eqn:Hreq; simpl.
  { split; [by right|]. intros Hne. by destruct (Hne e). }
  split; [left; repeat case_match; done|].
  destruct (client_Do (cfgURL config) (UserAgent config)) as [e|[status body]]
    eqn:Hdo; simpl.
  { intros Hne. by destruct (Hne e). }
  destruct (status =? 200) eqn:Hs; simpl.
  2: { intros Hne. by destruct (Hne ("HTTP " +:+ pretty status)). }
  apply Z.eqb_eq in Hs as ->.
  destruct (goquery_anchors body) as [e|anchors] eqn:Hdoc; simpl.
  { intros Hne. by destruct (Hne e). }
  destruct (url_Parse (cfgURL config)) as [e|baseURL] eqn:Hbase; simpl.
  { intros Hne. by destruct (Hne e). }
  destruct (String.eqb (Include config) "") eqn:Hinc; simpl.
  - apply String.eqb_eq in Hinc. intros _.
    split_and!; [by repeat case_match | eauto 10 | by left].
  - destruct (regexp_Compile (Include config)) as [e|re] eqn:Hre; simpl.
    { intros Hne. by destruct (Hne ("invalid include pattern: " +:+ e)). }
    intros _. split_and!; [by repeat case_match | eauto 10 | right; eauto].
Qed.

(** How [main] ends, case by case.  It exits with status 0 exactly when a
    URL was given, the extraction returned links, and there was no link or
    the list-only flag was set; with status 1 exactly when no URL was
    given, the extraction returned an error, or the output directory could
    not be made; with status 2 exactly when the extraction panicked or the
    downloads were called with a negative number of slots.  In the one
    remaining case the downloads are started. *)
Theorem main_exit_status (config : Config) :
  ((main config).2 = Exits 0 ↔
     cfgURL config ≠ ""
     ∧ ∃ links, (extractLinks config).2 = Returned (inr links)
         ∧ (links = [] ∨ ListOnly config = true))
  ∧ ((main config).2 = Exits 1 ↔
       cfgURL config = ""
       ∨ (∃ err, (extractLinks config).2 = Returned (inl err))
       ∨ ∃ links err, (extractLinks config).2 = Returned (inr links)
           ∧ links ≠ [] ∧ ListOnly config = false
           ∧ os_MkdirAll (OutDir config) = Some err)
  ∧ ((main config).2 = Exits 2 ↔
       cfgURL config ≠ ""
       ∧ ((extractLinks config).2 = Panicked
          ∨ ∃ links, (extractLinks config).2 = Returned (inr links)
              ∧ links ≠ [] ∧ ListOnly config = false
              ∧ os_MkdirAll (OutDir config) = None ∧ Parallel config < 0))
  ∧ ((main config).2 = Downloading ↔
       cfgURL config ≠ ""
       ∧ ∃ links, (extractLinks config).2 = Returned (inr links)
           ∧ links ≠ [] ∧ ListOnly config = false
           ∧ os_MkdirAll (OutDir config) = None ∧ 0 ≤ Parallel config)
  ∧ ∀ s, (main config).2 = Exits s → s = 0 ∨ s = 1 ∨ s = 2.
Proof.
  unfold main, Download.makeSem.
  destruct (String.eqb (cfgURL config) "") eqn:Hurl.
  { apply String.eqb_eq in Hurl. cbn [snd]. split_and!.
    - split; [done | by intros [? _]].
    - split; [by left | done].
    - split; [done | by intros [? _]].
    - split; [done | by intros [? _]].
    - intros s [= <-]. auto. }
  apply String.eqb_neq in Hurl.
  destruct (extractLinks config) as [tr [[err|links]|]]; cbn [snd].
  - split_and!.
    + split; [done | by intros [_ (l & ? & _)]].
    + split; [intros _; right; left; by eexists | done].
    + split; [done | by intros [_ [? | (l & ? & _)]]].
    + split; [done | by intros [_ (l & ? & _)]].
    + intros s [= <-]. auto.
  - destruct links as [|l links]; cbn [length Nat.eqb snd].
    { split_and!.
      - split; [|done]. intros _. split; [done|]. exists []. auto.
      - split; [done|].
        intros [? | [(e & ?) | (l & e & [= <-] & ? & _)]]; done.
      - split; [done | by intros [_ [? | (l & [= <-] & ? & _)]]].
      - split; [done | by intros [_ (l & [= <-] & ? & _)]].
      - intros s [= <-]. auto. }
    destruct (ListOnly config) eqn:Hl; cbn [snd].
    { split_and!.
      - split; [|done]. intros _. split; [done|]. eexists. auto.
      - split; [done|].
        intros [? | [(e & ?) | (l' & e & _ & _ & ? & _)]]; done.
      - split; [done | by intros [_ [? | (l' & _ & _ & ? & _)]]].
      - split; [done | by intros [_ (l' & _ & _ & ? & _)]].
      - intros s [= <-]. auto. }
    destruct (os_MkdirAll (OutDir config)) as [e|] eqn:Hm; cbn [snd].
    { split_and!.
      - split; [done|]. by intros [_ (l' & [= <-] & [? | ?])].
      - split; [|done]. intros _. right. right. by exists (l :: links), e.
      - split; [done | by intros [_ [? | (l' & _ & _ & _ & ? & _)]]].
      - split; [done | by intros [_ (l' & _ & _ & _ & ? & _)]].
      - intros s [= <-]. auto. }
    destruct (Parallel config <? 0) eqn:Hp; cbn [snd].
    + apply Z.ltb_lt in Hp. split_and!.
      * split; [done|]. by intros [_ (l' & [= <-] & [? | ?])].
      * split; [done|].
        intros [? | [(e & ?) | (l' & e & _ & _ & _ & ?)]]; done.
      * split; [|done]. intros _. split; [done|]. right. by exists (l :: links).
      * split; [done|]. intros [_ (l' & _ & _ & _ & _ & ?)]. lia.
      * intros s [= <-]. auto.
    + apply Z.ltb_ge in Hp. split_and!.
      * split; [done|]. by intros [_ (l' & [= <-] & [? | ?])].
      * split; [done|].
        intros [? | [(e & ?) | (l' & e & _ & _ & _ & ?)]]; done.
      * split; [done|]. intros [_ [? | (l' & _ & _ & _ & _ & ?)]]; [done | lia].
      * split; [|done]. intros _. split; [done|]. by exists (l :: links).
      * done.
  - split_and!.
    + split; [done | by intros [_ (l & ? & _)]].
    + split; [done|]. intros [? | [(e & ?) | (l & e & ? & _)]]; done.
    + split; [|done]. intros _. split; [done | by left].
    + split; [done | by intros [_ (l & ? & _)]].
    + intros s [= <-]. auto.
Qed.

(** [main] makes the output directory and starts the downloads only after a
    successful extraction of at least one link with the list-only flag off:
    the directory made is the configured one, and the downloads are started
    only after it was made without error and with a number of slots that
    is not negative, for exactly the links extracted, as the last thing
    [main] does. *)
Theorem download_phase_conditions (config : Config) (e : IOEvent) :
  e ∈ (main config).1 →
  (∀ path, e = MkdirAll path →
     path = OutDir config ∧ ListOnly config = false
     ∧ ∃ links, (extractLinks config).2 = Returned (inr links) ∧ links ≠ [])
  ∧ (∀ links, e = DownloadAll links →
       (extractLinks config).2 = Returned (inr links)
       ∧ os_MkdirAll (OutDir config) = None
       ∧ 0 ≤ Parallel config
       ∧ (main config).2 = Downloading
       ∧ ∃ tr, (main config).1 = tr ++ [MkdirAll (OutDir config); DownloadAll links]).
Proof.
  unfold main, Download.makeSem.
  destruct (String.eqb (cfgURL config) "") eqn:Hurl; cbv beta iota zeta.
  { simpl. intros ->%list_elem_of_singleton. done. }
  pose proof (extractLinks_trace config) as Htr.
  destruct (extractLinks config) as [tr [[err|links]|]]; cbv beta iota zeta;
    cbn [fst snd] in *.
  - intros [He | ->%list_elem_of_singleton]%elem_of_app; [|done].
    destruct Htr as [-> | ->]; [by apply not_elem_of_nil in He|].
    by apply list_elem_of_singleton in He as ->.
  - assert (Htr' : e ∈ tr → ∃ u a, e = HttpGet u a).
    { destruct Htr as [-> | ->]; [by intros ?%not_elem_of_nil|].
      intros ->%list_elem_of_singleton. eauto. }
    destruct (length links =? 0)%nat eqn:Hlen; cbv beta iota zeta; cbn [fst snd].
    { intros [[u [a ->]]%Htr' | ->%list_elem_of_singleton]%elem_of_app; done. }
    assert (Hne : links ≠ []) by (by intros ->).
    set (head := tr ++ [Stdout ("Found " +:+ pretty (Z.of_nat (length links))
                                +:+ " files:" +:+ nl +:+ nl)]
                    ++ listing 0 links ++ [Stdout nl]).
    assert (Hhead : e ∈ head → (∃ u a, e = HttpGet u a) ∨ ∃ s, e = Stdout s).
    { unfold head. rewrite !elem_of_app.
      intros [?%Htr' | [->%list_elem_of_singleton | [?%listing_stdout
                                                    | ->%list_elem_of_singleton]]];
        eauto. }
    destruct (ListOnly config) eqn:Hl; cbn [fst snd].
    { intros [(u & a & ->) | [s ->]]%Hhead; done. }
    destruct (os_MkdirAll (OutDir config)) as [err|] eqn:Hm; cbn [fst snd].
    + intros [[(u & a & ->) | [s ->]]%Hhead | He]%elem_of_app; [done | done |].
      apply elem_of_cons in He as [-> | ->%list_elem_of_singleton]; [|done].
      split; [|done]. intros path [= <-]. split_and!; [done | done |].
      by eexists.
    + destruct (Parallel config <? 0) eqn:Hp; cbn [fst snd].
      * intros [[(u & a & ->) | [s ->]]%Hhead | ->%list_elem_of_singleton]%elem_of_app;
          [done | done |].
        split; [|done]. intros path [= <-]. split_and!; [done | done |].
        by eexists.
      * apply Z.ltb_ge in Hp.
        intros [[(u & a & ->) | [s ->]]%Hhead | He]%elem_of_app; [done | done |].
        apply elem_of_cons in He as [-> | ->%list_elem_of_singleton].
        -- split; [|done]. intros path [= <-]. split_and!; [done | done |].
           by eexists.
        -- split; [done|]. intros links' [= <-]. split_and!; try done.
           by eexists.
  - intros He. destruct Htr as [-> | ->]; [by apply not_elem_of_nil in He|].
    by apply list_elem_of_singleton in He as ->.
Qed.
End MainExtras.

Lemma download_phase_conditions_witness :
  (∀ path, Extract.DownloadAll clash_links = Extract.MkdirAll path →
     path = OutDir (Toy.config "") ∧ ListOnly (Toy.config "") = false
     ∧ ∃ links, (@Extract.extractLinks Toy.unicode Toy.neturl Toy.regexp
                   (Toy.web Toy.clash_page) (Toy.config "")).2
                = Extract.Returned (inr links) ∧ links ≠ [])
  ∧ (∀ links, Extract.DownloadAll clash_links = Extract.DownloadAll links →
       (@Extract.extractLinks Toy.unicode Toy.neturl Toy.regexp
          (Toy.web Toy.clash_page) (Toy.config "")).2 = Extract.Returned (inr links)
       ∧ @os_MkdirAll (Toy.web Toy.clash_page) (OutDir (Toy.config "")) = None
       ∧ 0 ≤ Parallel (Toy.config "")
       ∧ (@Main.main Toy.unicode Toy.neturl Toy.regexp
            (Toy.web Toy.clash_page) (Toy.config "")).2 = Main.Downloading
       ∧ ∃ tr, (@Main.main Toy.unicode Toy.neturl Toy.regexp
                  (Toy.web Toy.clash_page) (Toy.config "")).1
               = tr ++ [Extract.MkdirAll (OutDir (Toy.config ""));
                        Extract.DownloadAll links]).
Proof.
  apply (@download_phase_conditions Toy.unicode Toy.neturl Toy.regexp
           (Toy.web Toy.clash_page) (Toy.config "")
           (Extract.DownloadAll clash_links)).
  vm_compute. do 7 right. by left.
Defined.

(** ** Runs with one slot *)

Section SequentialFacts.
Context `{FileSystem}.
Import Alloc Download.

Lemma seq_inv_init dir0 : seq_inv (init dir0).
Proof.
  split; simpl.
  - apply NoDup_nil_2.
  - by intros x ?%not_elem_of_nil.
  - set_solver.
  - by intros w x ?%not_elem_of_empty.
Qed.

Lemma seq_inv_step links st ev st' :
  seq_inv st →
  (∀ w f, ev = Fetched w f → creates f) →
  step links 1 st ev = Some st' → seq_inv st'.
Proof.
  intros [Hnd Hheld Hfin Hfiles] Hcr. destruct ev as [w | w f].
  - intros (link & r & _ & Hw & Hp & Hr & ->)%step_allocate.
    assert (Heq : finished st = dom (assigned st)).
    { apply set_subseteq_size_eq; [done|].
      unfold inflight in Hp. rewrite size_dom. lia. }
    split; simpl; try done.
    + apply NoDup_app. split_and!; [done | | apply NoDup_singleton].
      intros x Hx ->%list_elem_of_singleton. apply Hr.
      destruct (Hheld _ Hx) as [v Hv]. apply (Hfiles v); [|done].
      rewrite Heq. apply elem_of_dom. by eexists.
    + intros x [Hx | ->%list_elem_of_singleton]%elem_of_app.
      * destruct (Hheld _ Hx) as [v Hv]. exists v.
        rewrite lookup_insert_ne; [done|]. congruence.
      * exists w. apply lookup_insert_eq.
    + rewrite dom_insert_L. by apply union_subseteq_r'.
    + intros v x Hv. rewrite lookup_insert_ne.
      * by apply Hfiles.
      * intros <-. apply Hfin, elem_of_dom in Hv as [? ?]. congruence.
  - cbn [step]. destruct (assigned st !! w) as [filename|] eqn:Hw; [|done].
    destruct (decide (w ∈ finished st)); [done|].
    destruct (Hcr w f eq_refl) as (H1 & H2 & H3 & H4).
    pose proof (downloadFile_creates f (dir st) filename H1 H2 H3 H4) as Hc.
    pose proof (downloadFile_dir f (dir st) filename) as Hd.
    destruct (downloadFile f (dir st) filename) as [dir' err]. simpl in Hc, Hd.
    intros [= <-]. split; simpl; try done.
    + apply union_subseteq. split; [|done].
      apply singleton_subseteq_l, elem_of_dom. by eexists.
    + intros v x [->%elem_of_singleton | Hv]%elem_of_union Hx.
      * by replace x with filename by congruence.
      * destruct Hd as [-> | ->]; [by eapply Hfiles|].
        apply elem_of_union. right. by eapply Hfiles.
Qed.

Lemma seq_inv_run links evs st st' :
  seq_inv st →
  (∀ w f, Fetched w f ∈ evs → creates f) →
  downloadAll links 1 evs st = Some st' → seq_inv st'.
Proof.
  revert st. induction evs as [|ev evs IH]; intros st Hinv Hcr; cbn [downloadAll].
  - by intros [= <-].
  - destruct (step links 1 st ev) as [st1|] eqn:Hs; [|done].
    apply IH.
    + eapply seq_inv_step; [done | | done].
      intros w f ->. apply (Hcr w). by left.
    + intros w f Hin. apply (Hcr w). by right.
Qed.

End SequentialFacts.

(** With one slot ([--parallel 1]) and downloads that all make their file,
    every name is handed out after the files of the names before it are in
    the directory, and the names handed out are pairwise distinct, whatever
    the desired names are. *)
Theorem sequential_names_distinct `{FileSystem} (links : list FileLink)
    (evs : list Download.Event) (dir0 : gset string) (st : Download.State) :
  (∀ w f, Download.Fetched w f ∈ evs → creates f) →
  Download.downloadAll links 1 evs (Download.init dir0) = Some st →
  NoDup (Download.handed st)
  ∧ ∀ x, x ∈ Download.handed st → x ∉ dir0.
Proof.
  intros Hcr Hrun. split.
  - by destruct (seq_inv_run links evs _ _ (seq_inv_init dir0) Hcr Hrun).
  - assert (Hinv : dir_inv dir0 st).
    { eapply (downloadAll_ind (dir_inv dir0)); [|apply dir_inv_init|exact Hrun].
      intros s ev s'. apply dir_inv_step. }
    by destruct Hinv.
Qed.

Lemma sequential_names_distinct_witness :
  ∃ st, @Download.downloadAll Toy.fs clash_links 1 one_slot_schedule (Download.init ∅) = Some st
        ∧ Download.handed st = ["a.pdf"; "a_2.pdf"; "a_2_1.pdf"]
        ∧ NoDup (Download.handed st)
        ∧ ∀ x, x ∈ Download.handed st → x ∉ (∅ : gset string).
Proof.
  eexists. split; [vm_compute; reflexivity|]. split; [reflexivity|].
  apply (@sequential_names_distinct Toy.fs clash_links one_slot_schedule ∅).
  - intros w f Hin. unfold one_slot_schedule in Hin.
    repeat (apply elem_of_cons in Hin as [Heq | Hin];
            [try discriminate Heq; injection Heq as -> ->; by repeat split|]).
    by apply not_elem_of_nil in Hin.
  - vm_compute. reflexivity.
Defined.


(** ** Panics and repeated anchors *)

Section CollectFacts.
Context `{Unicode} `{NetURL}.
Import Str GoStrings Sanitize Extract.

Variable config : Config.
Variable includePattern : option (string → bool).
Variable baseURL : URLT.

Lemma each_app anchors1 anchors2 st :
  each config includePattern baseURL (anchors1 ++ anchors2) st =
    match each config includePattern baseURL anchors1 st with
    | Some st1 => each config includePattern baseURL anchors2 st1
    | None => None
    end.
Proof.
  revert st. induction anchors1 as [|s anchors1 IH]; intros st; [done|].
  cbn [app each]. destruct (visit config includePattern baseURL st s); [apply IH|done].
Qed.

(** Anchors whose accepted URLs are all seen change nothing. *)
Lemma each_seen anchors links seen :
  (∀ s u, s ∈ anchors → resolved baseURL s = Some u →
          accepted config includePattern u = true → URL_String u ∈ seen) →
  each config includePattern baseURL anchors (links, seen) = Some (links, seen).
Proof.
  induction anchors as [|s anchors IH]; intros Hseen; [done|].
  cbn [each]. rewrite visit_spec.
  assert (IH' : each config includePattern baseURL anchors (links, seen)
                = Some (links, seen)).
  { apply IH. intros t u Ht. apply Hseen. by right. }
  destruct (resolved baseURL s) as [u|] eqn:Hr; [|done].
  destruct (decide (URL_String u ∈ seen)) as [|Hout]; [done|].
  destruct (accepted config includePattern u) eqn:Ha; [|done].
  exfalso. apply Hout. apply (Hseen s u); [by left | done | done].
Qed.

(** The loop returns when no anchor that reaches the sanitiser makes it
    panic. *)
Lemma each_returns anchors st :
  (∀ s u, s ∈ anchors → resolved baseURL s = Some u →
          accepted config includePattern u = true → is_Some (derivedName s u)) →
  is_Some (each config includePattern baseURL anchors st).
Proof.
  revert st. induction anchors as [|s anchors IH]; intros [links seen] Hok;
    [by eexists|].
  cbn [each]. rewrite visit_spec.
  assert (IH' : ∀ st, is_Some (each config includePattern baseURL anchors st)).
  { intros st. apply IH. intros t u Ht. apply Hok. by right. }
  destruct (resolved baseURL s) as [u|] eqn:Hr; [|done].
  destruct (decide (URL_String u ∈ seen)); [done|].
  destruct (accepted config includePattern u) eqn:Ha; [|done].
  destruct (Hok s u) as [nm ->]; [by left | done | done |]. done.
Qed.

(** When the loop panics, an anchor that passes the filters has a text, or
    a file name in its URL, on which the sanitiser panics. *)
Lemma each_panics anchors st :
  each config includePattern baseURL anchors st = None →
  ∃ s u, s ∈ anchors ∧ resolved baseURL s = Some u
         ∧ accepted config includePattern u = true ∧ derivedName s u = None.
Proof.
  revert st. induction anchors as [|s anchors IH]; intros [links seen]; [done|].
  cbn [each]. rewrite visit_spec.
  assert (IH' : ∀ st, each config includePattern baseURL anchors st = None →
            ∃ t u, t ∈ s :: anchors ∧ resolved baseURL t = Some u
                   ∧ accepted config includePattern u = true
                   ∧ derivedName t u = None).
  { intros st (t & u & Ht & ?)%IH. exists t, u. split; [by right | done]. }
  destruct (resolved baseURL s) as [u|] eqn:Hr; [|apply IH'].
  destruct (decide (URL_String u ∈ seen)); [apply IH'|].
  destruct (accepted config includePattern u) eqn:Ha; [|apply IH'].
  destruct (derivedName s u) as [nm|] eqn:Hn; [apply IH'|].
  intros _. exists s, u. split; [by left | done].
Qed.

Lemma derivedName_None s u :
  derivedName s u = None ↔
  sanitizeFilename
    (if String.eqb (TrimSpace (text s)) "" then Base (URL_Path u)
     else TrimSpace (text s)) = None.
Proof. unfold derivedName. by destruct (sanitizeFilename _). Qed.
End CollectFacts.

Section CollectExtras.
Context `{Unicode} `{NetURL}.
Import Extract.

(** The only way for the extraction loop not to return is the panic of
    [sanitizeFilename]: it returns a list whenever no anchor that passes the
    filters has a name on which the sanitiser panics, and when it panics
    there is an anchor of the document, passing the filters, on whose text
    (or, the text being blank, on the last element of whose path) the
    sanitiser panics. *)
Theorem extraction_panics_only_in_sanitizer
    (config : Config) (includePattern : option (string → bool)) (baseURL : URLT)
    (anchors : list Anchor) :
  ((∀ s u, s ∈ anchors → resolved baseURL s = Some u →
           accepted config includePattern u = true →
           is_Some (derivedName s u)) →
   is_Some (collectLinks config includePattern baseURL anchors))
  ∧ (collectLinks config includePattern baseURL anchors = None →
     ∃ s u, s ∈ anchors ∧ resolved baseURL s = Some u
       ∧ accepted config includePattern u = true
       ∧ Sanitize.sanitizeFilename
           (if String.eqb (GoStrings.TrimSpace (text s)) ""
            then Str.Base (URL_Path u) else GoStrings.TrimSpace (text s))
         = None).
Proof.
  unfold collectLinks. split.
  - intros Hok.
    destruct (each_returns config includePattern baseURL anchors ([], ∅) Hok)
      as [st ->]. by eexists.
  - destruct (each config includePattern baseURL anchors ([], ∅)) eqn:He; [done|].
    intros _. apply each_panics in He as (s & u & Hs & Hr & Ha & Hn).
    exists s, u. split_and!; try done. by apply derivedName_None.
Qed.

(** Going through the anchors of a page a second time adds nothing: the
    links collected from a document followed by a copy of itself are the
    links collected from the document. *)
Theorem repeated_page_adds_nothing
    (config : Config) (includePattern : option (string → bool)) (baseURL : URLT)
    (anchors : list Anchor) (links : list FileLink) :
  collectLinks config includePattern baseURL anchors = Some links →
  collectLinks config includePattern baseURL (anchors ++ anchors) = Some links.
Proof.
  unfold collectLinks. intros Hc.
  destruct (each config includePattern baseURL anchors ([], ∅))
    as [[links' seen']|] eqn:He; [|done].
  injection Hc as ->.
  pose proof (loop_inv_each config includePattern baseURL anchors [] [] ∅ _ _
                (loop_inv_init config includePattern baseURL) He) as Hinv.
  rewrite app_nil_l in Hinv. destruct Hinv as [_ _ _ Hdone].
  rewrite each_app, He, each_seen; [done|].
  intros s u [i Hi]%list_elem_of_lookup_1 Hr Ha. by eapply Hdone.
Qed.
End CollectExtras.

Lemma repeated_page_adds_nothing_witness :
  @Extract.collectLinks Toy.unicode Toy.neturl (Toy.config "") None "/"
    (Toy.clash_page ++ Toy.clash_page) = Some clash_links.
Proof.
  apply (@repeated_page_adds_nothing Toy.unicode Toy.neturl (Toy.config "") None "/"
           Toy.clash_page clash_links).
  vm_compute. reflexivity.
Defined.

(** ** The extension list of the flags *)

Section FlagFacts.
Context `{Unicode}.
Import Str Sanitize GoStrings.

Lemma isASCII_trimLeft cut s : isASCII s = true → isASCII (trimLeft cut s) = true.
Proof.
  induction s as [|c s IH]; [done|]. simpl.
  intros [Hc Hs]%andb_true_iff. destruct (cut c); [by apply IH|].
  simpl. by rewrite Hc, Hs.
Qed.

Lemma isASCII_trimRight cut s : isASCII s = true → isASCII (trimRight cut s) = true.
Proof.
  induction s as [|c s IH]; [done|]. simpl.
  intros [Hc Hs]%andb_true_iff. specialize (IH Hs).
  destruct (trimRight cut s) as [|d r].
  - destruct (cut c); [done|]. simpl. by rewrite Hc.
  - simpl in *. by rewrite Hc, IH.
Qed.

Lemma isASCII_lastByte s c :
  isASCII s = true → lastByte s = Some c → (128 <=? byte c)%N = false.
Proof.
  induction s as [|d s IH]; [done|]. simpl.
  intros [Hd Hs]%andb_true_iff. destruct s as [|d' s'].
  - intros [= <-]. apply N.leb_gt. by apply N.ltb_lt.
  - by apply IH.
Qed.

(** On ASCII input [TrimSpace] trims the bytes of [asciiSpace] at both ends
    and never consults the Unicode tables. *)
Lemma TrimSpace_ascii s :
  isASCII s = true → TrimSpace s = Trim asciiSpace s.
Proof.
  unfold Trim. induction s as [|c s IH]; [done|].
  intros Hs. cbn [TrimSpace trimLeft].
  pose proof Hs as [Hc Hs']%andb_true_iff.
  assert (Hc' : (128 <=? byte c)%N = false).
  { apply N.leb_gt. by apply N.ltb_lt. }
  rewrite Hc'. destruct (asciiSpace c); [by apply IH|].
  unfold trimSpaceEnd.
  destruct (lastByte (trimRight asciiSpace (String c s))) as [d|] eqn:Hl; [|done].
  by rewrite (isASCII_lastByte _ d (isASCII_trimRight _ _ Hs) Hl).
Qed.

Lemma isASCII_drop n s : isASCII s = true → isASCII (drop n s) = true.
Proof.
  revert s. induction n as [|n IH]; intros [|c s]; simpl; try done.
  intros [_ Hs]%andb_true_iff. by apply IH.
Qed.

Lemma isASCII_Split sep s part :
  isASCII s = true → part ∈ Split sep s → isASCII part = true.
Proof.
  revert part. induction s as [|c s IH]; intros part; simpl.
  - by intros _ ->%list_elem_of_singleton.
  - intros [Hc Hs]%andb_true_iff. destruct (byte_eqb c sep).
    + intros [-> | Hp]%elem_of_cons; [done | by apply IH].
    + destruct (Split sep s) as [|w ws] eqn:Hsp.
      * by intros ->%list_elem_of_singleton; simpl; rewrite Hc.
      * intros [-> | Hp]%elem_of_cons.
        -- simpl. rewrite Hc. apply IH; [done | by left].
        -- apply IH; [done | by right].
Qed.

Lemma lowerByte_ascii c :
  (byte c <? 128)%N = true →
  (byte (lowerByte c) <? 128)%N = true ∧ isUpper (lowerByte c) = false.
Proof. destruct c as [[] [] [] [] [] [] [] []]; vm_compute; done. Qed.

Lemma mapBytes_lower s :
  isASCII s = true →
  isASCII (mapBytes lowerByte s) = true
  ∧ allBytes (λ c, negb (isUpper c)) (mapBytes lowerByte s) = true
  ∧ (s ≠ "" → mapBytes lowerByte s ≠ "").
Proof.
  induction s as [|c s IH]; [done|]. simpl.
  intros [Hc Hs]%andb_true_iff. destruct (IH Hs) as (H1 & H2 & _).
  destruct (lowerByte_ascii c Hc) as [Ha Hu].
  by rewrite Ha, Hu, H1, H2.
Qed.

Lemma extensions_normalised parts e :
  (∀ p, p ∈ parts → isASCII p = true) →
  e ∈ Flags.extensions parts →
  ∃ t, e = "." +:+ t ∧ t ≠ "" ∧ isASCII t = true
       ∧ allBytes (λ c, negb (isUpper c)) t = true.
Proof.
  induction parts as [|p parts IH]; intros Hp; simpl;
    [by intros ?%not_elem_of_nil|].
  assert (IH' : e ∈ Flags.extensions parts →
            ∃ t, e = "." +:+ t ∧ t ≠ "" ∧ isASCII t = true
                 ∧ allBytes (λ c, negb (isUpper c)) t = true).
  { apply IH. intros q Hq. apply Hp. by right. }
  destruct (String.eqb (TrimPrefix (TrimSpace p) ".") "") eqn:He; simpl; [done|].
  intros [-> | Hin]%elem_of_cons; [|by apply IH'].
  apply String.eqb_neq in He.
  assert (Ha : isASCII (TrimPrefix (TrimSpace p) ".") = true).
  { rewrite TrimSpace_ascii by (apply Hp; by left).
    unfold TrimPrefix, Trim. destruct (HasPrefix _ ".").
    - apply isASCII_drop, isASCII_trimRight, isASCII_trimLeft, Hp. by left.
    - apply isASCII_trimRight, isASCII_trimLeft, Hp. by left. }
  destruct (mapBytes_lower _ Ha) as (H1 & H2 & H3).
  exists (ToLower (TrimPrefix (TrimSpace p) ".")).
  unfold ToLower. rewrite Ha. split_and!; [done | by apply H3 | done | done].
Qed.
(** *** What trimming removes *)

Lemma trimLeft_split cut s :
  ∃ ws, s = ws +:+ trimLeft cut s ∧ allBytes cut ws = true.
Proof.
  induction s as [|c s (ws & Hs & Hws)]; [by exists ""|]. simpl.
  destruct (cut c) eqn:Hc.
  - exists (String c ws). rewrite str_app_cons, <- Hs. simpl. by rewrite Hc, Hws.
  - by exists "".
Qed.

Lemma trimRight_split cut s :
  ∃ ws, s = trimRight cut s +:+ ws ∧ allBytes cut ws = true.
Proof.
  induction s as [|c s (ws & Hs & Hws)]; [by exists ""|]. simpl.
  destruct (trimRight cut s) as [|d r] eqn:Ht.
  - rewrite str_app_nil_l in Hs. subst ws. destruct (cut c) eqn:Hc.
    + exists (String c s). simpl. by rewrite Hc, Hws.
    + by exists s.
  - exists ws. by rewrite !str_app_cons, <- str_app_cons, <- Hs.
Qed.

Lemma trimRight_nonempty cut c s :
  trimRight cut s ≠ "" → trimRight cut (String c s) = String c (trimRight cut s).
Proof. simpl. by destruct (trimRight cut s). Qed.

Lemma ends_uncut_trimRight cut s : ends_uncut cut (trimRight cut s) = true.
Proof.
  unfold ends_uncut. induction s as [|c s IH]; [done|]. simpl.
  destruct (trimRight cut s) as [|d r] eqn:Ht.
  - destruct (cut c) eqn:Hc; [done|]. simpl. by rewrite Hc.
  - done.
Qed.

Lemma trimLeft_cut cut ws s :
  allBytes cut ws = true → trimLeft cut (ws +:+ s) = trimLeft cut s.
Proof.
  induction ws as [|c ws IH]; [done|]. simpl.
  intros [Hc Hws]%andb_true_iff. rewrite Hc. by apply IH.
Qed.

Lemma trimRight_cut cut s ws :
  allBytes cut ws = true → trimRight cut (s +:+ ws) = trimRight cut s.
Proof.
  intros Hws.
  assert (Hnil : trimRight cut ws = "").
  { clear s. induction ws as [|c ws IH]; [done|]. simpl in *.
    apply andb_true_iff in Hws as [Hc Hws]. by rewrite (IH Hws), Hc. }
  induction s as [|c s IH]; [by rewrite str_app_nil_l|].
  rewrite str_app_cons. simpl. by rewrite IH.
Qed.

Lemma trimRight_uncut cut s : ends_uncut cut s = true → trimRight cut s = s.
Proof.
  unfold ends_uncut. induction s as [|c s IH]; [done|].
  destruct s as [|d r].
  - simpl. by intros ->%negb_true_iff.
  - intros Hl. change (lastByte (String c (String d r))) with (lastByte (String d r)) in Hl.
    specialize (IH Hl). rewrite trimRight_nonempty; by rewrite IH.
Qed.

(** The part between the white space at the two ends is what [Trim]
    returns, and nothing else is. *)
Lemma stripped_Trim part body :
  stripped part body ↔ body = Trim asciiSpace part.
Proof.
  unfold Trim. split.
  - intros (before & after & -> & Hb & Ha & Hs & He).
    rewrite trimLeft_cut by done. destruct body as [|c body].
    + rewrite str_app_nil_l, <- (str_app_nil_r after), trimLeft_cut by done.
      done.
    + rewrite trimLeft_uncut by (by rewrite str_app_cons).
      rewrite trimRight_cut by done. symmetry. by apply trimRight_uncut.
  - intros ->.
    destruct (trimLeft_split asciiSpace part) as (before & Hp & Hb).
    destruct (trimRight_split asciiSpace (trimLeft asciiSpace part))
      as (after & Ht & Ha).
    exists before, after. split_and!; [| done | done | |].
    + by rewrite <- Ht.
    + apply starts_uncut_trimRight, starts_uncut_trimLeft.
    + apply ends_uncut_trimRight.
Qed.

Lemma extensions_spec parts e :
  e ∈ Flags.extensions parts ↔
    ∃ part, part ∈ parts ∧ TrimPrefix (TrimSpace part) "." ≠ ""
      ∧ e = "." +:+ ToLower (TrimPrefix (TrimSpace part) ".").
Proof.
  induction parts as [|p parts IH]; simpl.
  - split; [by intros ?%not_elem_of_nil | by intros (? & ?%not_elem_of_nil & _)].
  - destruct (String.eqb (TrimPrefix (TrimSpace p) ".") "") eqn:He; simpl.
    + apply String.eqb_eq in He. rewrite IH. split.
      * intros (part & Hin & Hne & ->). exists part. split_and!; [by right | done..].
      * intros (part & [-> | Hin]%elem_of_cons & Hne & ->); [done|]. by exists part.
    + apply String.eqb_neq in He. rewrite elem_of_cons, IH. split.
      * intros [-> | (part & Hin & Hne & ->)].
        -- exists p. split_and!; [by left | done..].
        -- exists part. split_and!; [by right | done..].
      * intros (part & [-> | Hin]%elem_of_cons & Hne & ->); [by left|].
        right. by exists part.
Qed.

Lemma isASCII_TrimPrefix s p :
  isASCII s = true → isASCII (TrimPrefix s p) = true.
Proof. unfold TrimPrefix. destruct (HasPrefix s p); [apply isASCII_drop | done]. Qed.
End FlagFacts.

(** For an ASCII value of [--ext], a string is an entry of the parsed list
    exactly when the all mode is off and one of the parts between the
    commas, without the white space at its two ends and without one
    leading dot, is not empty and gives the entry when it is lower-cased
    byte by byte and a dot is put before it.  So every entry is a dot
    followed by a non-empty string without upper-case letters. *)
Theorem parsed_extensions_normalised `{Unicode} (all : bool) (exts e : string) :
  GoStrings.isASCII exts = true →
  (e ∈ Flags.parseExts all exts ↔
     all = false
     ∧ ∃ part body,
         part ∈ GoStrings.Split "," exts ∧ stripped part body
         ∧ Str.TrimPrefix body "." ≠ ""
         ∧ e = "." +:+ GoStrings.mapBytes GoStrings.lowerByte (Str.TrimPrefix body "."))
  ∧ (e ∈ Flags.parseExts all exts →
       ∃ t, e = "." +:+ t ∧ t ≠ "" ∧ GoStrings.isASCII t = true
            ∧ allBytes (λ c, negb (isUpper c)) t = true).
Proof.
  intros Ha.
  assert (Hparts : ∀ part, part ∈ GoStrings.Split "," exts →
            GoStrings.TrimSpace part = Sanitize.Trim GoStrings.asciiSpace part
            ∧ GoStrings.isASCII
                (Str.TrimPrefix (Sanitize.Trim GoStrings.asciiSpace part) ".") = true).
  { intros part Hin. pose proof (isASCII_Split _ _ _ Ha Hin) as Hp.
    split; [by apply TrimSpace_ascii|].
    apply isASCII_TrimPrefix. unfold Sanitize.Trim.
    by apply isASCII_trimRight, isASCII_trimLeft. }
  assert (Hiff : e ∈ Flags.parseExts all exts ↔
     all = false
     ∧ ∃ part body,
         part ∈ GoStrings.Split "," exts ∧ stripped part body
         ∧ Str.TrimPrefix body "." ≠ ""
         ∧ e = "." +:+ GoStrings.mapBytes GoStrings.lowerByte (Str.TrimPrefix body ".")).
  { unfold Flags.parseExts. destruct all; simpl.
    { split; [by intros ?%not_elem_of_nil | by intros [? _]]. }
    assert (Hsplit : e ∈ Flags.extensions (GoStrings.Split "," exts) ↔
              ∃ part body,
                part ∈ GoStrings.Split "," exts ∧ stripped part body
                ∧ Str.TrimPrefix body "." ≠ ""
                ∧ e = "." +:+ GoStrings.mapBytes GoStrings.lowerByte
                                (Str.TrimPrefix body ".")).
    { rewrite extensions_spec. split.
      - intros (part & Hin & Hne & ->). destruct (Hparts part Hin) as [Ht Hasc].
        rewrite Ht in *. exists part, (Sanitize.Trim GoStrings.asciiSpace part).
        split_and!; [done | by apply stripped_Trim | done |].
        unfold GoStrings.ToLower. by rewrite Hasc.
      - intros (part & body & Hin & ->%stripped_Trim & Hne & ->).
        destruct (Hparts part Hin) as [Ht Hasc].
        exists part. rewrite Ht. split_and!; [done | done |].
        unfold GoStrings.ToLower. by rewrite Hasc. }
    destruct (String.eqb exts "") eqn:He; simpl.
    - apply String.eqb_eq in He. subst exts. split; [by intros ?%not_elem_of_nil|].
      intros [_ Hex]. apply Hsplit in Hex. simpl in Hex.
      by apply not_elem_of_nil in Hex.
    - rewrite Hsplit. split; [by intros ? | by intros [_ ?]]. }
  split; [exact Hiff|].
  intros (_ & part & body & Hin & ->%stripped_Trim & Hne & ->)%Hiff.
  destruct (Hparts part Hin) as [_ Hasc].
  destruct (mapBytes_lower _ Hasc) as (H1 & H2 & H3).
  eexists. split_and!; [done | by apply H3 | done | done].
Qed.

Lemma parsed_extensions_normalised_witness :
  (".xlsx" ∈ @Flags.parseExts Toy.unicode false "PDF, .XLSX ,,docx" ↔
     false = false
     ∧ ∃ part body,
         part ∈ GoStrings.Split "," "PDF, .XLSX ,,docx" ∧ stripped part body
         ∧ Str.TrimPrefix body "." ≠ ""
         ∧ ".xlsx" = "." +:+ GoStrings.mapBytes GoStrings.lowerByte
                               (Str.TrimPrefix body "."))
  ∧ (".xlsx" ∈ @Flags.parseExts Toy.unicode false "PDF, .XLSX ,,docx" →
       ∃ t, ".xlsx" = "." +:+ t ∧ t ≠ "" ∧ GoStrings.isASCII t = true
            ∧ allBytes (λ c, negb (isUpper c)) t = true).
Proof.
  apply (@parsed_extensions_normalised Toy.unicode false "PDF, .XLSX ,,docx" ".xlsx").
  reflexivity.
Defined.
